(** * caffe/util/math_functions.cpp : dual-type numeric primitives

    A shallow embedding of the CPU math layer of the half-precision Caffe
    fork.  Every operation is instantiated for a pair (storage type [Dtype],
    compute type [Mtype]): <float,float>, <double,double> and <half,float>.

    Conventions of the embedding
    - [int] is a 32-bit two's complement integer, carried as [Z] with the
      wrap-around written out ([wrap_int]); [size_t] is 64 bits wide.
    - IEEE-754 values are [spec_float] of the Standard Library, the operations
      are the ones of [SpecFloat] at the precision of the format.
    - A typed buffer is the list of the elements that start at the pointer;
      an access outside of it is [Undefined].  Where the code works on the
      object representation ([memset], [memcpy]) the buffer is a list of
      bytes, little-endian.
    - A failed glog CHECK is [CheckFailed]; it aborts the call.  A C++
      exception or an error reported by a library is [Thrown]. *)

From Stdlib Require Import String ZArith List Lia Bool.
From Stdlib Require Import Floats.SpecFloat.
From coqutil Require Import Byte Word.LittleEndianList.
Import ListNotations.
Local Open Scope Z_scope.

(* ================================================================== *)
(** * Machine integers *)

Definition INT_MIN : Z := - 2 ^ 31.
Definition INT_MAX : Z := 2 ^ 31 - 1.

Definition fits_int (z : Z) : Prop := INT_MIN <= z <= INT_MAX.

(** Two's complement reduction of a mathematical integer to [int]. *)
Definition wrap_int (z : Z) : Z := (z + 2 ^ 31) mod 2 ^ 32 - 2 ^ 31.

Definition int_add (a b : Z) : Z := wrap_int (a + b).
Definition int_mul (a b : Z) : Z := wrap_int (a * b).

(** Conversion [int -> size_t] (64-bit unsigned). *)
Definition to_size_t (z : Z) : Z := z mod 2 ^ 64.

(** [size_t] product, as in [sizeof(Dtype) * N]. *)
Definition size_mul (a b : Z) : Z := (a * b) mod 2 ^ 64.

(* ================================================================== *)
(** * Outcomes of a call *)

Inductive outcome (A : Type) : Type :=
| Ok (a : A)
| CheckFailed (what : string)
| Thrown (what : string)
| Undefined.

Arguments Ok {A} a.
Arguments CheckFailed {A} what.
Arguments Thrown {A} what.
Arguments Undefined {A}.

Definition bind {A B : Type} (c : outcome A) (k : A -> outcome B) : outcome B :=
  match c with
  | Ok a => k a
  | CheckFailed w => CheckFailed w
  | Thrown w => Thrown w
  | Undefined => Undefined
  end.

Notation "x <- c ;; k" := (bind c (fun x => k))
  (at level 61, c at next level, right associativity).

Definition of_option {A : Type} (o : option A) : outcome A :=
  match o with
  | Some a => Ok a
  | None => Undefined
  end.

(** glog's [CHECK(cond)]. *)
Definition CHECK (cond : bool) (what : string) : outcome unit :=
  if cond then Ok tt else CheckFailed what.

(** [p[i]] for a pointer [p] to the first element of [buf]. *)
Definition buf_read {A : Type} (buf : list A) (i : Z) : outcome A :=
  if i <? 0 then Undefined else of_option (nth_error buf (Z.to_nat i)).

(** A pointer into the middle of an array: [block] is the whole array and
    [offset] the index the pointer designates, so that negative subscripts
    are meaningful. *)
Record cptr (A : Type) : Type := mk_cptr { block : list A; offset : Z }.

Arguments mk_cptr {A} block offset.
Arguments block {A} c.
Arguments offset {A} c.

Definition deref {A : Type} (p : cptr A) (i : Z) : outcome A :=
  buf_read (block p) (offset p + i).

(** [count] consecutive elements starting at the pointer. *)
Definition read_n {A : Type} (count : Z) (buf : list A) : outcome (list A) :=
  if (0 <=? count) && (count <=? Z.of_nat (length buf))
  then Ok (firstn (Z.to_nat count) buf)
  else Undefined.

(** Overwrite the first [length vs] elements of [buf] by [vs]. *)
Definition write_n {A : Type} (vs buf : list A) : outcome (list A) :=
  if (length vs <=? length buf)%nat
  then Ok (vs ++ skipn (length vs) buf)
  else Undefined.

(* ================================================================== *)
(** * IEEE-754 binary formats *)

Record format : Type := mk_format { prec : Z; emax : Z }.

Definition binary16 : format := mk_format 11 16.
Definition binary32 : format := mk_format 24 128.
Definition binary64 : format := mk_format 53 1024.

Definition half : Type := spec_float.
Definition float : Type := spec_float.
Definition double : Type := spec_float.

Definition fmt_emin (f : format) : Z := SpecFloat.emin (prec f) (emax f).

Definition valid (f : format) (x : spec_float) : Prop :=
  valid_binary (prec f) (emax f) x = true.

Definition fadd (f : format) : spec_float -> spec_float -> spec_float :=
  SFadd (prec f) (emax f).
Definition fmul (f : format) : spec_float -> spec_float -> spec_float :=
  SFmul (prec f) (emax f).

(** The comparisons of C++ on floating-point values; all are false on NaN. *)
Definition feq (x y : spec_float) : bool := SFeqb x y.
Definition flt (x y : spec_float) : bool := SFltb x y.
Definition fle (x y : spec_float) : bool := SFleb x y.
Definition fgt (x y : spec_float) : bool := SFltb y x.
Definition fge (x y : spec_float) : bool := SFleb y x.

Definition fzero : spec_float := S754_zero false.

Definition is_finite (x : spec_float) : bool :=
  match x with
  | S754_zero _ | S754_finite _ _ _ => true
  | _ => false
  end.

Definition is_zero (x : spec_float) : bool :=
  match x with
  | S754_zero _ => true
  | _ => false
  end.

(** Conversion of a value to format [f], rounding to nearest, ties to even. *)
Definition round_to (f : format) (x : spec_float) : spec_float :=
  match x with
  | S754_finite s m e => binary_round (prec f) (emax f) s m e
  | _ => x
  end.

(** [std::numeric_limits<T>::max()]. *)
Definition fmax (f : format) : spec_float := SFmax_float (prec f) (emax f).

(** The floats 1 and 1 + 2^-12; the latter is not a binary16 value. *)
Definition f32_one : float := S754_finite false 8388608 (-23).
Definition f32_above_one : float := S754_finite false 8390656 (-23).

(** Equality of the values denoted, which identifies the two zeros. *)
Definition same_value (x y : spec_float) : Prop :=
  x = y \/ (is_zero x = true /\ is_zero y = true).

(* ================================================================== *)
(** * Scalar conversions between storage and compute type

    [Get<T>(v)] and [caffe_cpu_convert] are declared in headers of the
    repository that are not part of the translated source, and so is the
    scalar type [half]. *)

(** Modelled from the spec: the reduced-precision scalar type [half] and its
    conversion to the compute type, [Get<float>(half)].  The spec leaves the
    format opaque ("lossy round-trip conversion to/from the compute type");
    it is taken to be IEEE binary16, whose values all are binary32 values, so
    the conversion only renormalises the mantissa. *)
Definition Get_float_of_half (h : half) : float := round_to binary32 h.

(** Modelled from the spec: the conversion from the compute type to the
    reduced-precision type, [Get<half>(float)]: the narrowing, lossy
    direction, rounding to the nearest binary16 value. *)
Definition Get_half_of_float (x : float) : half := round_to binary16 x.

(** [Get<float>(float)] and [Get<double>(double)]: a value of the type asked
    for is returned as it is. *)
Definition Get_same (x : spec_float) : spec_float := x.

(** Modelled from the spec: [caffe_cpu_convert(count, src, dst)], the buffer
    conversion of section 4.1 of the spec: [count] elements are read from
    [src], each is converted, and they are stored as the first [count]
    elements of [dst]. *)
Definition caffe_cpu_convert {S T : Type} (get : S -> T) (count : Z)
    (src : list S) (dst : list T) : outcome (list T) :=
  xs <- read_n count src ;;
  write_n (map get xs) dst.

(* ================================================================== *)
(** * caffe_cpu_hamming_distance *)

(** [static_cast<uintW_t>(x)] of a floating-point value: the value is
    truncated toward zero; the conversion is undefined when the truncated
    value is not representable in the unsigned type (NaN and the infinities
    included). *)
Definition float_to_unsigned (w : Z) (x : spec_float) : option Z :=
  match x with
  | S754_zero _ => Some 0
  | S754_finite s m e =>
      let t := Z.shiftl (Zpos m) e in
      if s then (if t =? 0 then Some 0 else None)
      else if t <? 2 ^ w then Some t else None
  | _ => None
  end.

Fixpoint popcount_pos (p : positive) : Z :=
  match p with
  | xH => 1
  | xO q => popcount_pos q
  | xI q => 1 + popcount_pos q
  end.

(** [__builtin_popcount] and [__builtin_popcountl] on an unsigned value. *)
Definition popcount (z : Z) : Z :=
  match z with
  | Zpos p => popcount_pos p
  | _ => 0
  end.

(** The loop shared by the three specialisations:
<<
  for (int i = 0; i < n; ++i)
    dist += popcount(static_cast<U>(x[i]) ^ static_cast<U>(y[i]));
>>
    [todo] is the number of iterations that remain, [i] the loop counter. *)
Fixpoint hamming_loop {T : Type} (cast : T -> option Z) (x y : list T)
    (todo : nat) (i : Z) (dist : Z) : outcome Z :=
  match todo with
  | O => Ok dist
  | S todo' =>
      xi <- buf_read x i ;;
      yi <- buf_read y i ;;
      ux <- of_option (cast xi) ;;
      uy <- of_option (cast yi) ;;
      hamming_loop cast x y todo' (i + 1)
                   (int_add dist (popcount (Z.lxor ux uy)))
  end.

Definition caffe_cpu_hamming_distance_float (n : Z) (x y : list float)
    : outcome Z :=
  hamming_loop (float_to_unsigned 32) x y (Z.to_nat n) 0 0.

Definition caffe_cpu_hamming_distance_double (n : Z) (x y : list double)
    : outcome Z :=
  hamming_loop (float_to_unsigned 64) x y (Z.to_nat n) 0 0.

Definition caffe_cpu_hamming_distance_half (n : Z) (x y : list half)
    : outcome Z :=
  hamming_loop (fun h => float_to_unsigned 16 (Get_float_of_half h))
               x y (Z.to_nat n) 0 0.

(** The distance the code computes, as a sum: the elements are converted by
    value with [cast] and the set bits of the XOR are counted. *)
Definition truncated_distance (us vs : list Z) : Z :=
  fold_right Z.add 0 (map (fun p => popcount (Z.lxor (fst p) (snd p)))
                          (combine us vs)).

(** Bit pattern of a value in format [f]: sign, biased exponent, fraction. *)
Definition ebits (f : format) : Z := Z.log2 (emax f) + 1.
Definition fbits (f : format) : Z := prec f - 1.
Definition width (f : format) : Z := 1 + ebits f + fbits f.

Definition bits_fields (f : format) (s : bool) (E F : Z) : Z :=
  (if s then 2 ^ (width f - 1) else 0) + E * 2 ^ fbits f + F.

Definition bits_of (f : format) (x : spec_float) : Z :=
  match x with
  | S754_zero s => bits_fields f s 0 0
  | S754_infinity s => bits_fields f s (2 ^ ebits f - 1) 0
  | S754_nan => bits_fields f false (2 ^ ebits f - 1) (2 ^ (fbits f - 1))
  | S754_finite s m e =>
      if Zpos (digits2_pos m) =? prec f
      then bits_fields f s (e - fmt_emin f + 1) (Zpos m - 2 ^ fbits f)
      else bits_fields f s 0 (Zpos m)
  end.

Definition of_bits (f : format) (z : Z) : spec_float :=
  let s := Z.testbit z (width f - 1) in
  let E := (z / 2 ^ fbits f) mod 2 ^ ebits f in
  let F := z mod 2 ^ fbits f in
  if E =? 0 then
    match F with
    | Zpos m => S754_finite s m (fmt_emin f)
    | _ => S754_zero s
    end
  else if E =? 2 ^ ebits f - 1 then
    (if F =? 0 then S754_infinity s else S754_nan)
  else
    match F + 2 ^ fbits f with
    | Zpos m => S754_finite s m (fmt_emin f + E - 1)
    | _ => S754_nan
    end.

(** The distance as the spec words it: the elements are reinterpreted as
    unsigned integers of the width of the format (their bit patterns). *)
Definition spec_reinterpreted_distance (f : format) (x y : list spec_float)
    : Z :=
  truncated_distance (map (bits_of f) x) (map (bits_of f) y).

(* ================================================================== *)
(** * caffe_cpu_strided_dot<half,float>
<<
  float sum = 0.0f;
  for (int i=0; i<n; i++) {
    int idx_x = i*incx;
    int idx_y = i*incy;
    sum += Get<float>(x[idx_x]) * Get<float>(y[idx_y]);
  }
  return sum;
>> *)
Fixpoint strided_dot_loop (x : cptr half) (incx : Z) (y : cptr half)
    (incy : Z) (todo : nat) (i : Z) (sum : float) : outcome float :=
  match todo with
  | O => Ok sum
  | S todo' =>
      let idx_x := int_mul i incx in
      let idx_y := int_mul i incy in
      xv <- deref x idx_x ;;
      yv <- deref y idx_y ;;
      strided_dot_loop x incx y incy todo' (i + 1)
        (fadd binary32 sum
           (fmul binary32 (Get_float_of_half xv) (Get_float_of_half yv)))
  end.

Definition caffe_cpu_strided_dot_half (n : Z) (x : cptr half) (incx : Z)
    (y : cptr half) (incy : Z) : outcome float :=
  strided_dot_loop x incx y incy (Z.to_nat n) 0 fzero.

(** [caffe_cpu_dot<half,float>]: the strided product at unit stride. *)
Definition caffe_cpu_dot_half (n : Z) (x y : cptr half) : outcome float :=
  caffe_cpu_strided_dot_half n x 1 y 1.

(** The sum of the products, term after term, every term and the running
    sum being binary32 values. *)
Definition dot_terms (xs ys : list half) : list float :=
  map (fun p => fmul binary32 (Get_float_of_half (fst p))
                              (Get_float_of_half (snd p)))
      (combine xs ys).

Definition sum_in_float (ts : list float) : float :=
  fold_left (fadd binary32) ts fzero.

(* ================================================================== *)
(** * Dense linear algebra: gemm and gemv *)

Inductive CBLAS_TRANSPOSE : Type := CblasNoTrans | CblasTrans | CblasConjTrans.

Definition is_notrans (t : CBLAS_TRANSPOSE) : bool :=
  match t with
  | CblasNoTrans => true
  | _ => false
  end.

(** The signature of [cblas_sgemm(CblasRowMajor, TransA, TransB, M, N, K,
    alpha, A, lda, B, ldb, beta, C, ldc)]; the result is the content of [C]
    after the call. *)
Definition sgemm_t : Type :=
  CBLAS_TRANSPOSE -> CBLAS_TRANSPOSE -> Z -> Z -> Z ->
  float -> list float -> Z -> list float -> Z ->
  float -> list float -> Z -> outcome (list float).

(** The signature of [cblas_sgemv(CblasRowMajor, TransA, M, N, alpha, A, lda,
    x, incx, beta, y, incy)]; the result is the content of [y] after the
    call. *)
Definition sgemv_t : Type :=
  CBLAS_TRANSPOSE -> Z -> Z ->
  float -> list float -> Z -> list float -> Z ->
  float -> list float -> Z -> outcome (list float).

(** What a call does besides writing its output buffer. *)
Inductive event : Type :=
| EvAlloc (elems : Z)
| EvConvertToCompute (count : Z)
| EvConvertToStorage (count : Z)
| EvSgemm (TransA TransB : CBLAS_TRANSPOSE) (M N K : Z) (alpha : float)
          (a : list float) (lda : Z) (b : list float) (ldb : Z)
          (beta : float) (c : list float) (ldc : Z)
| EvSgemv (TransA : CBLAS_TRANSPOSE) (M N : Z) (alpha : float)
          (a : list float) (lda : Z) (x : list float) (incx : Z)
          (beta : float) (y : list float) (incy : Z).

(** [std::vector<float> v(n)] for an [int] expression [n]: the size is
    converted to [size_t], the elements are value-initialised. *)
Definition vector_max_size : Z := 2 ^ 61 - 1.

Definition vector_new (n : Z) : outcome (list float) :=
  let sz := to_size_t n in
  if sz <=? vector_max_size
  then Ok (repeat fzero (Z.to_nat sz))
  else Thrown "std::length_error".

(** [v.size()]. *)
Definition vsize {A : Type} (v : list A) : Z := Z.of_nat (length v).

(** [&v.front()], which is undefined on an empty vector. *)
Definition front {A : Type} (v : list A) : outcome (list A) :=
  match v with
  | [] => Undefined
  | _ => Ok v
  end.

(** [caffe_cpu_gemm<float,float>]: forwarded to the backend. *)
Definition caffe_cpu_gemm_float (cblas_sgemm : sgemm_t)
    (TransA TransB : CBLAS_TRANSPOSE) (M N K : Z) (alpha : float)
    (A B : list float) (beta : float) (C : list float)
    : outcome (list float) :=
  let lda := if is_notrans TransA then K else M in
  let ldb := if is_notrans TransB then N else K in
  cblas_sgemm TransA TransB M N K alpha A lda B ldb beta C N.

(** [caffe_cpu_gemm<half,float>]; the result is the content of [C] after the
    call together with the events of the call, in order. *)
Definition caffe_cpu_gemm_half (cblas_sgemm : sgemm_t)
    (TransA TransB : CBLAS_TRANSPOSE) (M N K : Z) (alpha : float)
    (A B : list half) (beta : float) (C : list half)
    : outcome (list half * list event) :=
  if (M <=? 0) || (N <=? 0) || (K <=? 0) then Ok (C, [])
  else
    a0 <- vector_new (int_mul M K) ;;
    b0 <- vector_new (int_mul K N) ;;
    c0 <- vector_new (int_mul M N) ;;
    pa <- front a0 ;;
    a <- caffe_cpu_convert Get_float_of_half (vsize a0) A pa ;;
    pb <- front b0 ;;
    b <- caffe_cpu_convert Get_float_of_half (vsize b0) B pb ;;
    pc <- front c0 ;;
    c <- caffe_cpu_convert Get_float_of_half (vsize c0) C pc ;;
    let lda := if is_notrans TransA then K else M in
    let ldb := if is_notrans TransB then N else K in
    c' <- cblas_sgemm TransA TransB M N K alpha a lda b ldb beta c N ;;
    C' <- caffe_cpu_convert Get_half_of_float (vsize c) c' C ;;
    Ok (C', [EvAlloc (vsize a0); EvAlloc (vsize b0); EvAlloc (vsize c0);
             EvConvertToCompute (vsize a0); EvConvertToCompute (vsize b0);
             EvConvertToCompute (vsize c0);
             EvSgemm TransA TransB M N K alpha a lda b ldb beta c N;
             EvConvertToStorage (vsize c)]).

(** [caffe_cpu_gemv<float,float>]. *)
Definition caffe_cpu_gemv_float (cblas_sgemv : sgemv_t)
    (TransA : CBLAS_TRANSPOSE) (M N : Z) (alpha : float)
    (A x : list float) (beta : float) (y : list float)
    : outcome (list float) :=
  cblas_sgemv TransA M N alpha A N x 1 beta y 1.

(** [caffe_cpu_gemv<half,float>]. *)
Definition caffe_cpu_gemv_half (cblas_sgemv : sgemv_t)
    (TransA : CBLAS_TRANSPOSE) (M N : Z) (alpha : float)
    (A x : list half) (beta : float) (y : list half)
    : outcome (list half * list event) :=
  if (M <=? 0) || (N <=? 0) then Ok (y, [])
  else
    let lx := if is_notrans TransA then N else M in
    let ly := if is_notrans TransA then M else N in
    a0 <- vector_new (int_mul M N) ;;
    xv0 <- vector_new lx ;;
    yv0 <- vector_new ly ;;
    pa <- front a0 ;;
    a <- caffe_cpu_convert Get_float_of_half (vsize a0) A pa ;;
    px <- front xv0 ;;
    xv <- caffe_cpu_convert Get_float_of_half (vsize xv0) x px ;;
    py <- front yv0 ;;
    yv <- caffe_cpu_convert Get_float_of_half (vsize yv0) y py ;;
    yv' <- cblas_sgemv TransA M N alpha a N xv 1 beta yv 1 ;;
    y' <- caffe_cpu_convert Get_half_of_float (vsize yv) yv' y ;;
    Ok (y', [EvAlloc (vsize a0); EvAlloc (vsize xv0); EvAlloc (vsize yv0);
             EvConvertToCompute (vsize a0); EvConvertToCompute (vsize xv0);
             EvConvertToCompute (vsize yv0);
             EvSgemv TransA M N alpha a N xv 1 beta yv 1;
             EvConvertToStorage (vsize yv)]).

(** ** A reference backend

    The BLAS library is outside of the repository.  [ref_sgemm] and
    [ref_sgemv] give the semantics of the two routines in the manner of the
    reference BLAS, in row-major order and in binary32 arithmetic: the
    parameters are validated first (an illegal one is reported through
    [xerbla]), an empty output is left alone, and [C] is not read when
    [beta] is zero. *)

Definition getz (l : list float) (i : Z) : float :=
  nth (Z.to_nat i) l fzero.

(** Index of the element (r, c) of op(X), X stored row-major with leading
    dimension [ld]. *)
Definition op_index (t : CBLAS_TRANSPOSE) (ld r c : Z) : Z :=
  if is_notrans t then r * ld + c else c * ld + r.

(** Sum for k < K of op(A)(i,k) * op(B)(k,j), in increasing order of k. *)
Definition ref_dot (TransA TransB : CBLAS_TRANSPOSE) (K : Z)
    (a : list float) (lda : Z) (b : list float) (ldb : Z) (i j : Z) : float :=
  fold_left
    (fun acc k =>
       fadd binary32 acc
            (fmul binary32 (getz a (op_index TransA lda i (Z.of_nat k)))
                           (getz b (op_index TransB ldb (Z.of_nat k) j))))
    (seq 0 (Z.to_nat K)) fzero.

(** alpha * d + beta * c, with the conventions of BLAS for a zero scalar. *)
Definition ref_axpby (alpha d beta c : float) : float :=
  let t := if feq alpha fzero then fzero else fmul binary32 alpha d in
  if feq beta fzero then t else fadd binary32 t (fmul binary32 beta c).

(** Number of elements a row-major array with [rows] rows of [cols] used
    columns and leading dimension [ld] extends over. *)
Definition extent (rows cols ld : Z) : Z :=
  if (rows <=? 0) || (cols <=? 0) then 0 else (rows - 1) * ld + cols.

Definition ref_sgemm : sgemm_t :=
  fun TransA TransB M N K alpha a lda b ldb beta c ldc =>
    let a_rows := if is_notrans TransA then M else K in
    let a_cols := if is_notrans TransA then K else M in
    let b_rows := if is_notrans TransB then K else N in
    let b_cols := if is_notrans TransB then N else K in
    if (M <? 0) || (N <? 0) || (K <? 0)
       || (lda <? Z.max 1 a_cols) || (ldb <? Z.max 1 b_cols)
       || (ldc <? Z.max 1 N)
    then Thrown "xerbla: cblas_sgemm"
    else if (M =? 0) || (N =? 0) then Ok c
    else if (vsize a <? extent a_rows a_cols lda)
            || (vsize b <? extent b_rows b_cols ldb)
            || (vsize c <? extent M N ldc)
    then Undefined
    else
      Ok (map (fun p : nat =>
                 let i := Z.of_nat p / ldc in
                 let j := Z.of_nat p mod ldc in
                 if (i <? M) && (j <? N)
                 then ref_axpby alpha (ref_dot TransA TransB K a lda b ldb i j)
                                beta (getz c (Z.of_nat p))
                 else getz c (Z.of_nat p))
              (seq 0 (length c))).

(** Position of the element [k] of a vector of [len] elements with
    increment [inc]; a negative increment walks the vector backwards. *)
Definition vec_index (len inc k : Z) : Z :=
  if 0 <? inc then k * inc else (len - 1 - k) * - inc.

(** Sum for k < len of op(A)(i,k) * x(k). *)
Definition ref_dotv (TransA : CBLAS_TRANSPOSE) (len : Z)
    (a : list float) (lda : Z) (x : list float) (incx : Z) (i : Z) : float :=
  fold_left
    (fun acc k =>
       fadd binary32 acc
            (fmul binary32 (getz a (op_index TransA lda i (Z.of_nat k)))
                           (getz x (vec_index len incx (Z.of_nat k)))))
    (seq 0 (Z.to_nat len)) fzero.

Definition ref_sgemv : sgemv_t :=
  fun TransA M N alpha a lda x incx beta y incy =>
    let lx := if is_notrans TransA then N else M in
    let ly := if is_notrans TransA then M else N in
    if (M <? 0) || (N <? 0) || (lda <? Z.max 1 N)
       || (incx =? 0) || (incy =? 0)
    then Thrown "xerbla: cblas_sgemv"
    else if (M =? 0) || (N =? 0) then Ok y
    else if (vsize a <? extent M N lda)
            || (vsize x <? extent lx 1 (Z.abs incx))
            || (vsize y <? extent ly 1 (Z.abs incy))
    then Undefined
    else
      Ok (map (fun p : nat =>
                 let q := Z.of_nat p / Z.abs incy in
                 let i := if 0 <? incy then q else ly - 1 - q in
                 if (q <? ly) && (Z.of_nat p mod Z.abs incy =? 0)
                 then ref_axpby alpha (ref_dotv TransA lx a lda x incx i)
                                beta (getz y (Z.of_nat p))
                 else getz y (Z.of_nat p))
              (seq 0 (length y))).

(** The two routes agree on an element of the output when the reduced
    precision route holds the storage-type conversion of what the native
    route holds: they differ by the one rounding to binary16. *)
Definition matches_native (native : list float) (reduced : list half) : Prop :=
  reduced = map Get_half_of_float native.

(* ================================================================== *)
(** * caffe_set *)

(** What the template [caffe_set<Dtype,Mtype>] needs of its type pair. *)
Class TypePair (Dtype Mtype : Type) : Type := mk_TypePair {
  sizeof : nat;                       (* sizeof(Dtype) *)
  Get : Mtype -> Dtype;               (* Get<Dtype>(Mtype) *)
  literal_zero : Mtype;               (* the literal 0, converted to Mtype *)
  eq_scalar : Mtype -> Mtype -> bool; (* operator== of Mtype *)
  repr : Dtype -> Z;                  (* object representation of a Dtype *)
  of_repr : Z -> Dtype;               (* the Dtype an object representation denotes *)
  eq_value : Dtype -> Dtype -> Prop   (* two Dtype compare equal *)
}.

Definition int_int : TypePair Z Z :=
  mk_TypePair Z Z 4 (fun z => z) 0 Z.eqb (fun z => z mod 2 ^ 32) wrap_int eq.

Definition float_float : TypePair float float :=
  mk_TypePair float float 4 Get_same fzero feq
              (bits_of binary32) (of_bits binary32) same_value.

Definition double_double : TypePair double double :=
  mk_TypePair double double 8 Get_same fzero feq
              (bits_of binary64) (of_bits binary64) same_value.

Definition half_float : TypePair half float :=
  mk_TypePair half float 2 Get_half_of_float fzero feq
              (bits_of binary16) (of_bits binary16) same_value.

(** [memset(buf, c, n)]. *)
Definition memset (buf : list byte) (c : byte) (n : Z) : outcome (list byte) :=
  if n <=? Z.of_nat (length buf)
  then Ok (repeat c (Z.to_nat n) ++ skipn (Z.to_nat n) buf)
  else Undefined.

(** [Y[i] = v] on the bytes of [Y]. *)
Definition store_elem {D M : Type} (T : TypePair D M) (Y : list byte)
    (i : Z) (v : D) : outcome (list byte) :=
  let sz := @sizeof D M T in
  let off := (Z.to_nat i * sz)%nat in
  if (0 <=? i) && (off + sz <=? length Y)%nat
  then Ok (firstn off Y ++ le_split sz (@repr D M T v) ++ skipn (off + sz) Y)%nat
  else Undefined.

(** The value of [Y[i]]. *)
Definition load_elem {D M : Type} (T : TypePair D M) (Y : list byte)
    (i : Z) : outcome D :=
  let sz := @sizeof D M T in
  let off := (Z.to_nat i * sz)%nat in
  if (0 <=? i) && (off + sz <=? length Y)%nat
  then Ok (@of_repr D M T (le_combine (firstn sz (skipn off Y))))%nat
  else Undefined.

(** [for (int i = 0; i < N; ++i) Y[i] = Get<Dtype>(alpha);] *)
Fixpoint set_loop {D M : Type} (T : TypePair D M) (alpha : M) (todo : nat)
    (i : Z) (Y : list byte) : outcome (list byte) :=
  match todo with
  | O => Ok Y
  | S todo' =>
      Y' <- store_elem T Y i (@Get D M T alpha) ;;
      set_loop T alpha todo' (i + 1) Y'
  end.

Definition caffe_set {D M : Type} (T : TypePair D M) (N : Z) (alpha : M)
    (Y : list byte) : outcome (list byte) :=
  if @eq_scalar D M T alpha (@literal_zero D M T)
  then memset Y Byte.x00 (size_mul (Z.of_nat (@sizeof D M T)) (to_size_t N))
  else set_loop T alpha (Z.to_nat N) 0 Y.

(** The general path of [caffe_set] on its own: the per-element store that
    the spec compares the zero fill with. *)
Definition caffe_set_per_element {D M : Type} (T : TypePair D M) (N : Z)
    (alpha : M) (Y : list byte) : outcome (list byte) :=
  set_loop T alpha (Z.to_nat N) 0 Y.

(* ================================================================== *)
(** * caffe_copy *)

(** [Caffe::Brew], the execution mode. *)
Inductive Brew : Type := CPU | GPU.

Inductive copy_event : Type :=
| EvMode                                   (* Caffe::mode() was read *)
| EvMemcpy (dst src n : Z)                 (* memcpy was called *)
| EvCudaMemcpy (dst src n : Z).            (* cudaMemcpy was called *)

(** The memory of the process (addresses to bytes; [None] is not mapped),
    the process-wide mode and the calls issued so far. *)
Record world : Type := mk_world {
  heap : Z -> option byte;
  mode : Brew;
  issued : list copy_event
}.

Definition mapped (h : Z -> option byte) (addr n : Z) : bool :=
  forallb (fun k => match h (addr + Z.of_nat k) with Some _ => true | None => false end)
          (seq 0 (Z.to_nat n)).

(** The heap after [n] bytes were copied from [src] to [dst], the source
    being read before anything is written. *)
Definition copy_bytes (h : Z -> option byte) (dst src n : Z)
    : Z -> option byte :=
  fun p => if (dst <=? p) && (p <? dst + n) then h (src + (p - dst)) else h p.

(** [memcpy(dst, src, n)]: undefined on overlapping or unmapped ranges. *)
Definition memcpy (dst src n : Z) (w : world) : outcome world :=
  let w' := mk_world (heap w) (mode w) (issued w ++ [EvMemcpy dst src n]) in
  if mapped (heap w) src n && mapped (heap w) dst n
     && ((n =? 0) || (dst + n <=? src) || (src + n <=? dst))
  then Ok (mk_world (copy_bytes (heap w) dst src n) (mode w') (issued w'))
  else Undefined.

(** [CUDA_CHECK(cudaMemcpy(dst, src, n, cudaMemcpyDefault))]: the runtime
    reports an invalid range, which the check turns into a fatal error. *)
Definition cudaMemcpy (dst src n : Z) (w : world) : outcome world :=
  let w' := mk_world (heap w) (mode w) (issued w ++ [EvCudaMemcpy dst src n]) in
  if mapped (heap w) src n && mapped (heap w) dst n
  then Ok (mk_world (copy_bytes (heap w) dst src n) (mode w') (issued w'))
  else CheckFailed "CUDA_CHECK: cudaErrorInvalidValue".

(** [Caffe::mode()]. *)
Definition Caffe_mode (w : world) : Brew * world :=
  (mode w, mk_world (heap w) (mode w) (issued w ++ [EvMode])).

(** [caffe_copy<Dtype,Mtype>(N, X, Y)]; [cpu_only] tells whether the build
    defines CPU_ONLY, [size] is sizeof(Dtype), [X] and [Y] are addresses. *)
Definition caffe_copy (cpu_only : bool) (size : Z) (N : Z) (X Y : Z)
    (w : world) : outcome world :=
  if negb (X =? Y) then
    let (m, w1) := Caffe_mode w in
    match m with
    | GPU =>
        if cpu_only
        then CheckFailed "Cannot use GPU in CPU-only Caffe: check mode."
        else cudaMemcpy Y X (size_mul size (to_size_t N)) w1
    | CPU => memcpy Y X (size_mul size (to_size_t N)) w1
    end
  else Ok w.

(* ================================================================== *)
(** * Random sampling *)

(** ** boost::math::nextafter

    Boost is outside of the repository.  The three functions below follow
    its documentation: [float_next] is the least value of the format greater
    than its argument, [float_prior] the greatest one below it, an argument
    without such a neighbour is an error of the library. *)

(** The least value above the positive value m * 2^e. *)
Definition succ_pos (f : format) (m : positive) (e : Z) : outcome spec_float :=
  if Zpos m + 1 <? 2 ^ prec f then Ok (S754_finite false (m + 1) e)
  else if e + 1 <=? emax f - prec f
       then Ok (S754_finite false (Z.to_pos (2 ^ (prec f - 1))) (e + 1))
       else Thrown "std::overflow_error".

(** Mantissa and exponent of the greatest value below the positive value
    m * 2^e, [None] when that is zero. *)
Definition pred_pos (f : format) (m : positive) (e : Z)
    : option (positive * Z) :=
  if (Zpos m =? 2 ^ (prec f - 1)) && (fmt_emin f <? e)
  then Some (Z.to_pos (2 ^ prec f - 1), e - 1)
  else match m with
       | xH => None
       | _ => Some (Pos.pred m, e)
       end.

Definition float_next (f : format) (val : spec_float) : outcome spec_float :=
  match val with
  | S754_nan => Thrown "std::domain_error"
  | S754_infinity true => Ok (SFopp (fmax f))
  | S754_infinity false => Thrown "std::domain_error"
  | S754_zero _ => Ok (S754_finite false 1 (fmt_emin f))
  | S754_finite false m e => succ_pos f m e
  | S754_finite true m e =>
      match pred_pos f m e with
      | Some (m', e') => Ok (S754_finite true m' e')
      | None => Ok (S754_zero false)
      end
  end.

Definition float_prior (f : format) (val : spec_float) : outcome spec_float :=
  match val with
  | S754_nan => Thrown "std::domain_error"
  | S754_infinity false => Ok (fmax f)
  | S754_infinity true => Thrown "std::domain_error"
  | S754_zero _ => Ok (S754_finite true 1 (fmt_emin f))
  | S754_finite true m e => x <- succ_pos f m e ;; Ok (SFopp x)
  | S754_finite false m e =>
      match pred_pos f m e with
      | Some (m', e') => Ok (S754_finite false m' e')
      | None => Ok (S754_zero false)
      end
  end.

Definition boost_nextafter (f : format) (val direction : spec_float)
    : outcome spec_float :=
  if flt val direction then float_next f val
  else if feq val direction then Ok val
  else float_prior f val.

(** [caffe_nextafter<Mtype>(b)], at the compute format [f]. *)
Definition caffe_nextafter (f : format) (b : spec_float) : outcome spec_float :=
  boost_nextafter f b (fmax f).

(** ** The samplers

    The process-wide engine and the distributions of Boost are outside of
    the repository.  What a call observes of them is the sequence of values
    that [variate_generator()] returns: for a distribution object built with
    the two parameters [p] and [q] (the bounds of [uniform_real], the mean
    and the deviation of [normal_distribution]), [draws p q k] is the value
    returned when [k] values have been drawn from the engine before.  The
    state of a call is the buffer [r] points to ([None] for a null pointer)
    and the number of values drawn so far. *)

Definition variate_generator : Type :=
  spec_float -> spec_float -> nat -> spec_float.

(** The range contract of [boost::uniform_real], in the words of the spec
    "a half-open distribution primitive that would otherwise exclude b":
    a value it returns lies in [lo, hi). *)
Definition uniform_real_range (lo hi s : spec_float) : bool :=
  fle lo s && flt s hi.

(** The primitive built with the bounds [lo] and [hi] honours its contract
    on the values of the format [f]. *)
Definition honours_range (f : format) (draws : variate_generator)
    (lo hi : spec_float) : Prop :=
  forall k : nat,
    valid f (draws lo hi k) /\ uniform_real_range lo hi (draws lo hi k) = true.

(** [buf[i] = v]. *)
Definition buf_write {A : Type} (buf : list A) (i : Z) (v : A)
    : outcome (list A) :=
  if (0 <=? i) && (i <? vsize buf)
  then Ok (firstn (Z.to_nat i) buf ++ v :: skipn (S (Z.to_nat i)) buf)
  else Undefined.

Definition rng_result : Type :=
  (option (list spec_float) * nat * outcome unit)%type.

(** [for (int i = 0; i < n; ++i) r[i] = Get<Dtype>(variate_generator());] *)
Fixpoint sample_loop (get : spec_float -> spec_float)
    (draws : nat -> spec_float) (todo : nat) (i : Z)
    (buf : list spec_float) (drawn : nat) : rng_result :=
  match todo with
  | O => (Some buf, drawn, Ok tt)
  | S todo' =>
      match buf_write buf i (get (draws drawn)) with
      | Ok buf' => sample_loop get draws todo' (i + 1) buf' (S drawn)
      | _ => (Some buf, S drawn, Undefined)
      end
  end.

(** [caffe_rng_uniform<Dtype,Mtype>(n, a, b, r)]; [f] is the format of
    Mtype and [get] is Get<Dtype> on Mtype. *)
Definition caffe_rng_uniform (f : format) (get : spec_float -> spec_float)
    (draws : variate_generator) (n : Z) (a b : spec_float)
    (r : option (list spec_float)) (drawn : nat) : rng_result :=
  if negb (0 <=? n) then (r, drawn, CheckFailed "Check failed: n >= 0")
  else
    match r with
    | None => (r, drawn, CheckFailed "Check failed: r")
    | Some buf =>
        if negb (fle a b) then (r, drawn, CheckFailed "Check failed: a <= b")
        else
          match caffe_nextafter f b with
          | Ok hi => sample_loop get (draws a hi) (Z.to_nat n) 0 buf drawn
          | CheckFailed w => (r, drawn, CheckFailed w)
          | Thrown w => (r, drawn, Thrown w)
          | Undefined => (r, drawn, Undefined)
          end
    end.

(** [caffe_rng_gaussian<Dtype,Mtype>(n, a, sigma, r)]. *)
Definition caffe_rng_gaussian (get : spec_float -> spec_float)
    (draws : variate_generator) (n : Z) (a sigma : spec_float)
    (r : option (list spec_float)) (drawn : nat) : rng_result :=
  if negb (0 <=? n) then (r, drawn, CheckFailed "Check failed: n >= 0")
  else
    match r with
    | None => (r, drawn, CheckFailed "Check failed: r")
    | Some buf =>
        if negb (fgt sigma fzero)
        then (r, drawn, CheckFailed "Check failed: sigma > 0")
        else sample_loop get (draws a sigma) (Z.to_nat n) 0 buf drawn
    end.

(** The three instantiations of either sampler. *)
Definition caffe_rng_uniform_float := caffe_rng_uniform binary32 Get_same.
Definition caffe_rng_uniform_double := caffe_rng_uniform binary64 Get_same.
Definition caffe_rng_uniform_half := caffe_rng_uniform binary32 Get_half_of_float.

Definition caffe_rng_gaussian_float := caffe_rng_gaussian Get_same.
Definition caffe_rng_gaussian_double := caffe_rng_gaussian Get_same.
Definition caffe_rng_gaussian_half := caffe_rng_gaussian Get_half_of_float.

(** What the format must satisfy for its values to be ordered as their
    (exponent, mantissa) pairs: binary16, binary32 and binary64 do. *)
Definition format_ok (f : format) : Prop := 1 < prec f /\ prec f < emax f.

(** [us] are the unsigned values of the first [n] elements of [x], every one
    of the [n] conversions being defined. *)
Definition truncations {T : Type} (cast : T -> option Z) (n : Z)
    (x : list T) (us : list Z) : Prop :=
  0 <= n <= vsize x /\ map cast (firstn (Z.to_nat n) x) = map Some us.

(** [xs] are the [n] elements p[0], p[inc], ..., p[(n-1)*inc], every
    subscript being computable as an int and within the array. *)
Definition gathers (p : cptr half) (inc n : Z) (xs : list half) : Prop :=
  length xs = Z.to_nat n /\
  forall i : nat, (i < length xs)%nat ->
    fits_int (Z.of_nat i * inc) /\
    deref p (Z.of_nat i * inc) = of_option (nth_error xs i).

(** ** What the reduced precision routes do, in one place *)

(** A compute-type temporary of [n] elements after [caffe_cpu_convert] has
    filled it from the storage buffer [buf]. *)
Definition to_compute (n : Z) (buf : list half) : list float :=
  map Get_float_of_half (firstn (Z.to_nat n) buf).

Definition gemm_lda (TransA : CBLAS_TRANSPOSE) (M K : Z) : Z :=
  if is_notrans TransA then K else M.
Definition gemm_ldb (TransB : CBLAS_TRANSPOSE) (N K : Z) : Z :=
  if is_notrans TransB then N else K.

(** The events of a call of the reduced precision gemm that reaches the
    conversion of the result: three allocations, three conversions into the
    temporaries, the backend on the temporaries, the conversion back. *)
Definition gemm_events (TransA TransB : CBLAS_TRANSPOSE) (M N K : Z)
    (alpha beta : float) (A B C : list half) : list event :=
  [EvAlloc (M * K); EvAlloc (K * N); EvAlloc (M * N);
   EvConvertToCompute (M * K); EvConvertToCompute (K * N);
   EvConvertToCompute (M * N);
   EvSgemm TransA TransB M N K alpha
           (to_compute (M * K) A) (gemm_lda TransA M K)
           (to_compute (K * N) B) (gemm_ldb TransB N K)
           beta (to_compute (M * N) C) N;
   EvConvertToStorage (M * N)].

Definition gemv_lx (TransA : CBLAS_TRANSPOSE) (M N : Z) : Z :=
  if is_notrans TransA then N else M.
Definition gemv_ly (TransA : CBLAS_TRANSPOSE) (M N : Z) : Z :=
  if is_notrans TransA then M else N.

Definition gemv_events (TransA : CBLAS_TRANSPOSE) (M N : Z)
    (alpha beta : float) (A x y : list half) : list event :=
  [EvAlloc (M * N); EvAlloc (gemv_lx TransA M N); EvAlloc (gemv_ly TransA M N);
   EvConvertToCompute (M * N); EvConvertToCompute (gemv_lx TransA M N);
   EvConvertToCompute (gemv_ly TransA M N);
   EvSgemv TransA M N alpha (to_compute (M * N) A) N
           (to_compute (gemv_lx TransA M N) x) 1
           beta (to_compute (gemv_ly TransA M N) y) 1;
   EvConvertToStorage (gemv_ly TransA M N)].

(** The element (i, j) of the M x N row-major matrix [C]. *)
Definition elem {A : Type} (d : A) (N : Z) (C : list A) (i j : Z) : A :=
  nth (Z.to_nat (i * N + j)) C d.

(** The bytes one element [v] of the storage type occupies. *)
Definition elem_bytes {D M : Type} (T : TypePair D M) (v : D) : list byte :=
  le_split (@sizeof D M T) (@repr D M T v).

(** What [caffe_set] relies on when it replaces the stores of a zero [alpha]
    by a zero fill: the object of all-zero bytes is the converted literal 0,
    the converted literal 0 is stored as all-zero bytes, and a scalar that
    compares equal to 0 is stored as an object that compares equal to it. *)
Definition zero_fill_sound {D M : Type} (T : TypePair D M) : Prop :=
  @of_repr D M T 0 = @Get D M T (@literal_zero D M T)
  /\ elem_bytes T (@Get D M T (@literal_zero D M T))
     = repeat Byte.x00 (@sizeof D M T)
  /\ forall alpha : M,
      @eq_scalar D M T alpha (@literal_zero D M T) = true ->
      @eq_value D M T
        (@Get D M T (@literal_zero D M T))
        (@of_repr D M T (le_combine (elem_bytes T (@Get D M T alpha)))).

(** The outcome of [caffe_set] with alpha == 0 on the [N] elements of [Y],
    next to the one of the per-element path: the same bytes when [alpha] is
    the literal 0, elements that compare equal in any case. *)
Definition zero_fill_matches_stores {D M : Type} (T : TypePair D M)
    (N : Z) (alpha : M) (Y : list byte) : Prop :=
  exists Y1 Y2 : list byte,
    caffe_set T N alpha Y = Ok Y1
    /\ caffe_set_per_element T N alpha Y = Ok Y2
    /\ length Y1 = length Y /\ length Y2 = length Y
    /\ skipn (Z.to_nat N * @sizeof D M T) Y1
       = skipn (Z.to_nat N * @sizeof D M T) Y
    /\ skipn (Z.to_nat N * @sizeof D M T) Y2
       = skipn (Z.to_nat N * @sizeof D M T) Y
    /\ (alpha = @literal_zero D M T -> Y1 = Y2)
    /\ forall i : Z, 0 <= i < N ->
       exists v2 : D,
         load_elem T Y1 i = Ok (@Get D M T (@literal_zero D M T))
         /\ load_elem T Y2 i = Ok v2
         /\ @eq_value D M T (@Get D M T (@literal_zero D M T)) v2.

(** The outcomes of [float_next] on a finite value [b] of the format [f]:
    [next_case f b hi] lists how the neighbour [hi] is obtained from [b]. *)
Inductive next_case (f : format) : spec_float -> spec_float -> Prop :=
| next_of_zero (s : bool) :
    next_case f (S754_zero s) (S754_finite false 1 (fmt_emin f))
| next_same_exponent (m m' : positive) (e : Z) :
    Zpos m' = Zpos m + 1 -> Zpos m' < 2 ^ prec f ->
    next_case f (S754_finite false m e) (S754_finite false m' e)
| next_exponent_up (m m' : positive) (e : Z) :
    Zpos m = 2 ^ prec f - 1 -> Zpos m' = 2 ^ (prec f - 1) ->
    e + 1 <= emax f - prec f ->
    next_case f (S754_finite false m e) (S754_finite false m' (e + 1))
| next_exponent_down (m m' : positive) (e : Z) :
    Zpos m = 2 ^ (prec f - 1) -> Zpos m' = 2 ^ prec f - 1 ->
    fmt_emin f < e ->
    next_case f (S754_finite true m e) (S754_finite true m' (e - 1))
| next_is_zero (e : Z) :
    next_case f (S754_finite true 1 e) (S754_zero false)
| next_toward_zero (m m' : positive) (e : Z) :
    Zpos m' = Zpos m - 1 ->
    (Zpos m = 2 ^ (prec f - 1) -> e <= fmt_emin f) ->
    next_case f (S754_finite true m e) (S754_finite true m' e).

(* ================================================================== *)
(** * Elementwise operations of the reduced precision type

    The operands and the result of an elementwise operation may be the same
    buffer or overlap.  The buffers of one call are therefore taken from one
    array of halves, the arena, and a [half*] argument is the index of its
    first element in the arena; an access outside of the arena is
    [Undefined]. *)

Definition fsub (f : format) : spec_float -> spec_float -> spec_float :=
  SFsub (prec f) (emax f).
Definition fdiv (f : format) : spec_float -> spec_float -> spec_float :=
  SFdiv (prec f) (emax f).

(** The loop of the operations with two operands:
<<
  for (int i=0; i<n; i++) y[i] = op(a[i], b[i]);
>> *)
Fixpoint binary_loop (op : half -> half -> half) (a b y : Z) (todo : nat)
    (i : Z) (mem : list half) : outcome (list half) :=
  match todo with
  | O => Ok mem
  | S todo' =>
      av <- buf_read mem (a + i) ;;
      bv <- buf_read mem (b + i) ;;
      mem' <- buf_write mem (y + i) (op av bv) ;;
      binary_loop op a b y todo' (i + 1) mem'
  end.

(** The loop of the operations with one operand:
<<
  for (int i=0; i<n; i++) y[i] = op(x[i]);
>> *)
Fixpoint unary_loop (op : half -> half) (x y : Z) (todo : nat)
    (i : Z) (mem : list half) : outcome (list half) :=
  match todo with
  | O => Ok mem
  | S todo' =>
      xv <- buf_read mem (x + i) ;;
      mem' <- buf_write mem (y + i) (op xv) ;;
      unary_loop op x y todo' (i + 1) mem'
  end.

(** [y[i] = Get<half>( Get<float>(a[i]) + Get<float>(b[i]) )], and the same
    with -, * and /. *)
Definition add_op (u v : half) : half :=
  Get_half_of_float (fadd binary32 (Get_float_of_half u) (Get_float_of_half v)).
Definition sub_op (u v : half) : half :=
  Get_half_of_float (fsub binary32 (Get_float_of_half u) (Get_float_of_half v)).
Definition mul_op (u v : half) : half :=
  Get_half_of_float (fmul binary32 (Get_float_of_half u) (Get_float_of_half v)).
Definition div_op (u v : half) : half :=
  Get_half_of_float (fdiv binary32 (Get_float_of_half u) (Get_float_of_half v)).

Definition caffe_add_half (n : Z) (a b y : Z) (mem : list half)
    : outcome (list half) :=
  binary_loop add_op a b y (Z.to_nat n) 0 mem.
Definition caffe_sub_half (n : Z) (a b y : Z) (mem : list half)
    : outcome (list half) :=
  binary_loop sub_op a b y (Z.to_nat n) 0 mem.
Definition caffe_mul_half (n : Z) (a b y : Z) (mem : list half)
    : outcome (list half) :=
  binary_loop mul_op a b y (Z.to_nat n) 0 mem.
Definition caffe_div_half (n : Z) (a b y : Z) (mem : list half)
    : outcome (list half) :=
  binary_loop div_op a b y (Z.to_nat n) 0 mem.

(** [Y[i] = Get<half>( alpha * Get<float>(X[i]) + Get<float>(Y[i]) )]. *)
Definition axpy_op (alpha : float) (x y : half) : half :=
  Get_half_of_float
    (fadd binary32 (fmul binary32 alpha (Get_float_of_half x))
                   (Get_float_of_half y)).

Definition caffe_axpy_half (N : Z) (alpha : float) (X Y : Z)
    (mem : list half) : outcome (list half) :=
  binary_loop (axpy_op alpha) X Y Y (Z.to_nat N) 0 mem.

(** [Y[i] = Get<half>( alpha * Get<float>(X[i]) + beta * Get<float>(Y[i]) )]. *)
Definition axpby_op (alpha beta : float) (x y : half) : half :=
  Get_half_of_float
    (fadd binary32 (fmul binary32 alpha (Get_float_of_half x))
                   (fmul binary32 beta (Get_float_of_half y))).

Definition caffe_cpu_axpby_half (N : Z) (alpha : float) (X : Z) (beta : float)
    (Y : Z) (mem : list half) : outcome (list half) :=
  binary_loop (axpby_op alpha beta) X Y Y (Z.to_nat N) 0 mem.

(** [X[i] = Get<half>( alpha * Get<float>(X[i]) )]. *)
Definition scal_op (alpha : float) (x : half) : half :=
  Get_half_of_float (fmul binary32 alpha (Get_float_of_half x)).

Definition caffe_scal_half (N : Z) (alpha : float) (X : Z) (mem : list half)
    : outcome (list half) :=
  unary_loop (scal_op alpha) X X (Z.to_nat N) 0 mem.

(** [caffe_cpu_scale<half,float>]:
    [y[i] = Get<half>( alpha * Get<float>(x[i]) )]. *)
Definition caffe_cpu_scale_half (n : Z) (alpha : float) (x y : Z)
    (mem : list half) : outcome (list half) :=
  unary_loop (scal_op alpha) x y (Z.to_nat n) 0 mem.

(** [caffe_add_scalar] on halves:
    [Y[i] = Get<half>( Get<float>(Y[i]) + alpha )]. *)
Definition add_scalar_op (alpha : float) (y : half) : half :=
  Get_half_of_float (fadd binary32 (Get_float_of_half y) alpha).

Definition caffe_add_scalar_half (N : Z) (alpha : float) (Y : Z)
    (mem : list half) : outcome (list half) :=
  unary_loop (add_scalar_op alpha) Y Y (Z.to_nat N) 0 mem.

(** [caffe_add_scalar] on floats and on doubles: [Y[i] += alpha]; the arena
    is an array of the native type. *)
Definition caffe_add_scalar_float (N : Z) (alpha : float) (Y : Z)
    (mem : list float) : outcome (list float) :=
  unary_loop (fun y => fadd binary32 y alpha) Y Y (Z.to_nat N) 0 mem.
Definition caffe_add_scalar_double (N : Z) (alpha : double) (Y : Z)
    (mem : list double) : outcome (list double) :=
  unary_loop (fun y => fadd binary64 y alpha) Y Y (Z.to_nat N) 0 mem.

(** [f = Get<float>(a[i]); y[i] = Get<half>(f * f)]. *)
Definition sqr_op (u : half) : half :=
  let f := Get_float_of_half u in
  Get_half_of_float (fmul binary32 f f).

Definition caffe_sqr_half (n : Z) (a y : Z) (mem : list half)
    : outcome (list half) :=
  unary_loop sqr_op a y (Z.to_nat n) 0 mem.

(** [y[i] = Get<half>( fabs(Get<float>(a[i])) )]; the absolute value is
    exact in any floating-point type. *)
Definition abs_op (u : half) : half :=
  Get_half_of_float (SFabs (Get_float_of_half u)).

Definition caffe_abs_half (n : Z) (a y : Z) (mem : list half)
    : outcome (list half) :=
  unary_loop abs_op a y (Z.to_nat n) 0 mem.

(** [y[i] = Get<half>( pow(Get<float>(a[i]), b) )] and
    [y[i] = Get<half>( exp(Get<float>(a[i])) )]; [pow] and [exp] are the
    functions of the C library, which are parameters here. *)
Definition caffe_powx_half (pow : float -> float -> float) (n : Z) (a : Z)
    (b : float) (y : Z) (mem : list half) : outcome (list half) :=
  unary_loop (fun u => Get_half_of_float (pow (Get_float_of_half u) b))
             a y (Z.to_nat n) 0 mem.

Definition caffe_exp_half (exp : float -> float) (n : Z) (a y : Z)
    (mem : list half) : outcome (list half) :=
  unary_loop (fun u => Get_half_of_float (exp (Get_float_of_half u)))
             a y (Z.to_nat n) 0 mem.

(** The [n] cells from [p] on lie in the arena. *)
Definition in_arena (mem : list half) (p n : Z) : Prop :=
  0 <= p /\ p + n <= vsize mem.

(** A destination at [dst] is written front to back while a source at [src]
    is read front to back: no cell is written before it is read when the
    destination does not start inside the source, after its first cell. *)
Definition forward_safe (src dst n : Z) : Prop :=
  dst <= src \/ src + n <= dst.

(** The arena after an operation with two operands: the [n] cells of the
    destination hold [op] of the operands as they were, every other cell is
    as it was. *)
Definition binary_result (op : half -> half -> half) (a b y n : Z)
    (mem mem' : list half) : Prop :=
  length mem' = length mem
  /\ (forall j : Z, 0 <= j < n ->
        getz mem' (y + j) = op (getz mem (a + j)) (getz mem (b + j)))
  /\ (forall p : Z, 0 <= p -> ~ (y <= p < y + n) -> getz mem' p = getz mem p).

Definition unary_result (op : half -> half) (x y n : Z)
    (mem mem' : list half) : Prop :=
  length mem' = length mem
  /\ (forall j : Z, 0 <= j < n -> getz mem' (y + j) = op (getz mem (x + j)))
  /\ (forall p : Z, 0 <= p -> ~ (y <= p < y + n) -> getz mem' p = getz mem p).

(** The sign bit of a value is clear, or the value is a NaN. *)
Definition sign_clear (x : spec_float) : bool :=
  match x with
  | S754_zero s | S754_infinity s | S754_finite s _ _ => negb s
  | S754_nan => true
  end.

(* ================================================================== *)
(** * caffe_cpu_asum<half,float>
<<
  float sum = 0.0f;
  for (int i=0; i<n; i++) sum += fabs(Get<float>(x[i]));
  return sum;
>> *)
Fixpoint asum_loop (x : list half) (todo : nat) (i : Z) (sum : float)
    : outcome float :=
  match todo with
  | O => Ok sum
  | S todo' =>
      xv <- buf_read x i ;;
      asum_loop x todo' (i + 1)
                (fadd binary32 sum (SFabs (Get_float_of_half xv)))
  end.

Definition caffe_cpu_asum_half (n : Z) (x : list half) : outcome float :=
  asum_loop x (Z.to_nat n) 0 fzero.

(* ================================================================== *)
(** * caffe_rng_bernoulli

    [variate_generator()] of a [bernoulli_distribution] built with [p]
    returns a bool: [flips p k] is the value returned when [k] values have
    been drawn before. *)

Definition bernoulli_generator : Type := spec_float -> nat -> bool.

(** The value 1 of a format, which the literal 1 of [CHECK_LE(p, 1)] is
    converted to. *)
Definition fone (f : format) : spec_float := SFone (prec f) (emax f).

(** [Get<int>(bool)] and [static_cast<unsigned int>(bool)]. *)
Definition int_of_bool (b : bool) : Z := if b then 1 else 0.

Definition bernoulli_result : Type :=
  (option (list Z) * nat * outcome unit)%type.

(** [for (int i = 0; i < n; ++i) r[i] = Get<int>(variate_generator());] *)
Fixpoint bernoulli_loop (flips : nat -> bool) (todo : nat) (i : Z)
    (buf : list Z) (drawn : nat) : bernoulli_result :=
  match todo with
  | O => (Some buf, drawn, Ok tt)
  | S todo' =>
      match buf_write buf i (int_of_bool (flips drawn)) with
      | Ok buf' => bernoulli_loop flips todo' (i + 1) buf' (S drawn)
      | _ => (Some buf, S drawn, Undefined)
      end
  end.

(** [caffe_rng_bernoulli<Dtype,Mtype>(n, p, int* r)]; [f] is the format of
    Mtype. *)
Definition caffe_rng_bernoulli (f : format) (flips : bernoulli_generator)
    (n : Z) (p : spec_float) (r : option (list Z)) (drawn : nat)
    : bernoulli_result :=
  if negb (0 <=? n) then (r, drawn, CheckFailed "Check failed: n >= 0")
  else
    match r with
    | None => (r, drawn, CheckFailed "Check failed: r")
    | Some buf =>
        if negb (fge p fzero)
        then (r, drawn, CheckFailed "Check failed: p >= 0")
        else if negb (fle p (fone f))
        then (r, drawn, CheckFailed "Check failed: p <= 1")
        else bernoulli_loop (flips p) (Z.to_nat n) 0 buf drawn
    end.

(** [caffe_rng_bernoulli<Dtype,Mtype>(n, p, unsigned int* r)]: the same
    checks and the same loop, the element written being
    [static_cast<unsigned int>(variate_generator())]. *)
Definition caffe_rng_bernoulli_unsigned (f : format)
    (flips : bernoulli_generator) (n : Z) (p : spec_float)
    (r : option (list Z)) (drawn : nat) : bernoulli_result :=
  if negb (0 <=? n) then (r, drawn, CheckFailed "Check failed: n >= 0")
  else
    match r with
    | None => (r, drawn, CheckFailed "Check failed: r")
    | Some buf =>
        if negb (fge p fzero)
        then (r, drawn, CheckFailed "Check failed: p >= 0")
        else if negb (fle p (fone f))
        then (r, drawn, CheckFailed "Check failed: p <= 1")
        else bernoulli_loop (flips p) (Z.to_nat n) 0 buf drawn
    end.

(* ================================================================== *)
(** * Bit patterns of the formats *)

(** The formats of IEEE 754: besides [format_ok], the exponent range is a
    power of two, so that the biased exponents fill their field. *)
Definition format_ieee (f : format) : Prop :=
  format_ok f /\ emax f = 2 ^ (ebits f - 1).

(* ================================================================== *)
(** * Properties

    From here on: the lemmas on the definitions above. *)

(** ** The model on known values *)

(** Conversions: 1 + 2^-12 rounds to the half 1.0, 65520 overflows to
    infinity, and a half is a float. *)
Example Get_half_rounds_to_nearest :
  Get_half_of_float f32_above_one = S754_finite false 1024 (-10)
  /\ Get_half_of_float (S754_finite false 16773120 (-8)) = S754_infinity false
  /\ Get_float_of_half (S754_finite false 1024 (-10)) = f32_one.
Proof. repeat split; reflexivity. Qed.

(** [float_next] agrees with [SFsucc] of the Standard Library: inside a
    binade, across a power of two, on the subnormals and on negative
    values. *)
Example float_next_is_SFsucc :
  Forall (fun x => float_next binary32 x = Ok (SFsucc 24 128 x))
    [f32_one; S754_finite false 16777215 (-24); S754_finite false 16777215 103;
     S754_zero false; S754_zero true; S754_finite false 1 (-149);
     S754_finite false 8388607 (-149); S754_finite true 2 (-149);
     S754_finite true 8388608 (-149); S754_finite true 8388608 (-148);
     S754_finite true 8388608 (-23); S754_infinity true].
Proof. repeat constructor. Qed.

(** The casts of the Hamming distance: 3.7 truncates to 3, -0.5 to 0, while
    -1, 2^32 and NaN have no unsigned 32-bit value. *)
Example float_to_unsigned_truncates :
  float_to_unsigned 32 (S754_finite false 15518925 (-22)) = Some 3
  /\ float_to_unsigned 32 (S754_finite true 8388608 (-24)) = Some 0
  /\ float_to_unsigned 32 (S754_finite true 8388608 (-23)) = None
  /\ float_to_unsigned 32 (S754_finite false 8388608 9) = None
  /\ float_to_unsigned 32 S754_nan = None.
Proof. repeat split; reflexivity. Qed.

(** Bit patterns: 1.0f is 0x3F800000, the half 1.0 is 0x3C00, and decoding
    inverts encoding. *)
Example bit_patterns :
  bits_of binary32 f32_one = 0x3F800000
  /\ bits_of binary16 (S754_finite false 1024 (-10)) = 0x3C00
  /\ of_bits binary32 0x3F800000 = f32_one
  /\ of_bits binary64 (bits_of binary64 (S754_finite true 1 (-1074)))
     = S754_finite true 1 (-1074).
Proof. repeat split; reflexivity. Qed.

(** The reference gemm on the scenario of the spec: A the 2x2 identity,
    B = [[1,2],[3,4]], alpha = 1, beta = 0 give C = [[1,2],[3,4]]. *)
Example ref_sgemm_identity :
  ref_sgemm CblasNoTrans CblasNoTrans 2 2 2 f32_one
    [f32_one; fzero; fzero; f32_one] 2
    [f32_one; S754_finite false 8388608 (-22);
     S754_finite false 12582912 (-22); S754_finite false 8388608 (-21)] 2
    fzero [S754_nan; S754_nan; S754_nan; S754_nan] 2
  = Ok [f32_one; S754_finite false 8388608 (-22);
        S754_finite false 12582912 (-22); S754_finite false 8388608 (-21)].
Proof. reflexivity. Qed.

(** A primitive that returns 1 honours the range [0, nextafter(1)), and
    uniform<float,float>(2, 0, 1, r) then writes the upper bound twice and
    leaves the third element of the buffer alone. *)
Example uniform_writes_the_upper_bound :
  honours_range binary32 (fun _ _ _ => f32_one) fzero
    (S754_finite false 8388609 (-23))
  /\ caffe_rng_uniform_float (fun _ _ _ => f32_one) 2 fzero f32_one
       (Some [fzero; fzero; fzero]) 0
     = (Some [f32_one; f32_one; fzero], 2%nat, Ok tt).
Proof. split; [intros k; split; reflexivity | reflexivity]. Qed.

(** The checks of the samplers, in the order of the source: a negative
    count, a null buffer, bounds in the wrong order. *)
Example uniform_checks :
  caffe_rng_uniform_float (fun _ _ _ => f32_one) (-1) fzero f32_one None 0
  = (None, 0%nat, CheckFailed "Check failed: n >= 0")
  /\ caffe_rng_uniform_float (fun _ _ _ => f32_one) 1 f32_one fzero None 0
     = (None, 0%nat, CheckFailed "Check failed: r")
  /\ caffe_rng_uniform_float (fun _ _ _ => f32_one) 1 f32_one fzero
       (Some [fzero]) 0
     = (Some [fzero], 0%nat, CheckFailed "Check failed: a <= b").
Proof. repeat split; reflexivity. Qed.

(** A copy between two distinct mapped buffers in CPU mode reads the mode
    and calls memcpy; in GPU mode a CPU-only build stops. *)
Example copy_of_two_bytes :
  (exists w' : world,
      caffe_copy true 1 2 100 200
        (mk_world (fun _ => Some Byte.x2a) CPU []) = Ok w'
      /\ issued w' = [EvMode; EvMemcpy 200 100 2])
  /\ caffe_copy true 1 2 100 200 (mk_world (fun _ => Some Byte.x2a) GPU [])
     = CheckFailed "Cannot use GPU in CPU-only Caffe: check mode.".
Proof. split; [eexists; split; reflexivity | reflexivity]. Qed.

(** ** Machine integers and buffers *)

Lemma wrap_int_id (z : Z) : fits_int z -> wrap_int z = z.
Proof.
  unfold fits_int, INT_MIN, INT_MAX, wrap_int; intros H.
  rewrite Z.mod_small; lia.
Qed.

Lemma buf_read_nth {A : Type} (buf : list A) (k : nat) (d : A) :
  (k < length buf)%nat -> buf_read buf (Z.of_nat k) = Ok (nth k buf d).
Proof.
  intros Hk. unfold buf_read.
  destruct (Z.ltb_spec (Z.of_nat k) 0); [lia|].
  rewrite Nat2Z.id, (nth_error_nth' buf d Hk). reflexivity.
Qed.

Lemma skipn_cons_nth {A : Type} (buf : list A) (k : nat) (d : A) :
  (k < length buf)%nat -> skipn k buf = nth k buf d :: skipn (S k) buf.
Proof.
  revert k; induction buf as [|a buf IH]; intros k Hk; simpl in *; [lia|].
  destruct k as [|k]; [reflexivity|].
  apply IH; lia.
Qed.

(* ================================================================== *)
(** * Hamming distance *)

Lemma popcount_pos_pos (p : positive) : 0 < popcount_pos p.
Proof. induction p; cbn [popcount_pos]; lia. Qed.

Lemma popcount_nonneg (z : Z) : 0 <= popcount z.
Proof. destruct z; cbn [popcount]; try lia. pose proof (popcount_pos_pos p); lia. Qed.

Lemma truncated_distance_nonneg (us vs : list Z) :
  0 <= truncated_distance us vs.
Proof.
  unfold truncated_distance.
  induction (combine us vs) as [|p l IH]; cbn [map fold_right]; [lia|].
  pose proof (popcount_nonneg (Z.lxor (fst p) (snd p))); lia.
Qed.

Lemma truncated_distance_cons (u v : Z) (us vs : list Z) :
  truncated_distance (u :: us) (v :: vs)
  = popcount (Z.lxor u v) + truncated_distance us vs.
Proof. reflexivity. Qed.

Section HammingLoop.
Context {T : Type} (cast : T -> option Z).

(** The loop started at index [k] with [todo] iterations left adds the
    distance of the [todo] elements from [k] on to [dist]. *)
Lemma hamming_loop_spec (x y : list T) :
  forall (todo k : nat) (us vs : list Z) (dist : Z),
    (k + todo <= length x)%nat -> (k + todo <= length y)%nat ->
    map cast (firstn todo (skipn k x)) = map Some us ->
    map cast (firstn todo (skipn k y)) = map Some vs ->
    0 <= dist -> dist + truncated_distance us vs <= INT_MAX ->
    hamming_loop cast x y todo (Z.of_nat k) dist
    = Ok (dist + truncated_distance us vs).
Proof.
  induction todo as [|todo IH]; intros k us vs dist Hx Hy Hus Hvs Hd Hmax.
  - simpl in *. destruct us; [|discriminate]. simpl.
    unfold truncated_distance; simpl. f_equal; lia.
  - destruct x as [|x0 xr] eqn:Ex; [simpl in Hx; lia|].
    destruct y as [|y0 yr] eqn:Ey; [simpl in Hy; lia|].
    rewrite <- Ex, <- Ey in *.
    assert (Hkx : (k < length x)%nat) by lia.
    assert (Hky : (k < length y)%nat) by lia.
    rewrite (skipn_cons_nth x k x0 Hkx) in Hus.
    rewrite (skipn_cons_nth y k y0 Hky) in Hvs.
    simpl in Hus, Hvs.
    destruct us as [|u us]; [discriminate|].
    destruct vs as [|v vs]; [discriminate|].
    simpl in Hus, Hvs.
    injection Hus as Hu Hus. injection Hvs as Hv Hvs.
    cbn [hamming_loop].
    rewrite (buf_read_nth x k x0 Hkx), (buf_read_nth y k y0 Hky).
    cbn [bind]. rewrite Hu, Hv. cbn [of_option bind].
    rewrite truncated_distance_cons in Hmax |- *.
    pose proof (popcount_nonneg (Z.lxor u v)) as Hp.
    pose proof (truncated_distance_nonneg us vs) as Ht.
    unfold int_add. rewrite wrap_int_id
      by (unfold fits_int, INT_MIN, INT_MAX in *; lia).
    replace (Z.of_nat k + 1) with (Z.of_nat (S k)) by lia.
    rewrite (IH (S k) us vs) by (try assumption; lia).
    f_equal; lia.
Qed.

Lemma hamming_loop_distance (n : Z) (x y : list T) (us vs : list Z) :
  truncations cast n x us -> truncations cast n y vs ->
  truncated_distance us vs <= INT_MAX ->
  hamming_loop cast x y (Z.to_nat n) 0 0 = Ok (truncated_distance us vs).
Proof.
  intros [Hnx Hus] [Hny Hvs] Hmax. unfold vsize in *.
  change 0 with (Z.of_nat 0) at 1.
  rewrite (hamming_loop_spec x y (Z.to_nat n) 0 us vs 0);
    simpl; try assumption; try lia.
  reflexivity.
Qed.
End HammingLoop.

(** C3 (as amended).  For each of the three type pairs, and every n >= 0
    within the two buffers, caffe_cpu_hamming_distance returns the sum over
    i < n of the population count of the XOR of x[i] and y[i] converted by
    value (truncated toward zero) to unsigned integers of 32, 64 and 16 bits;
    for the reduced precision type the element is first converted to the
    compute type.  The conversions have to be defined and the sum has to fit
    in an int. *)
Theorem hamming_distance_counts_truncated_values (n : Z) :
  (forall x y us vs,
      truncations (float_to_unsigned 32) n x us ->
      truncations (float_to_unsigned 32) n y vs ->
      truncated_distance us vs <= INT_MAX ->
      caffe_cpu_hamming_distance_float n x y = Ok (truncated_distance us vs))
  /\ (forall x y us vs,
      truncations (float_to_unsigned 64) n x us ->
      truncations (float_to_unsigned 64) n y vs ->
      truncated_distance us vs <= INT_MAX ->
      caffe_cpu_hamming_distance_double n x y = Ok (truncated_distance us vs))
  /\ (forall x y us vs,
      truncations (fun h => float_to_unsigned 16 (Get_float_of_half h)) n x us ->
      truncations (fun h => float_to_unsigned 16 (Get_float_of_half h)) n y vs ->
      truncated_distance us vs <= INT_MAX ->
      caffe_cpu_hamming_distance_half n x y = Ok (truncated_distance us vs)).
Proof.
  repeat split; intros x y us vs Hx Hy Hmax;
    eapply hamming_loop_distance; eassumption.
Qed.

(** Two floats 3.0 and 5.0 against 1.0 and 4.0: 3 xor 1 has one bit set,
    5 xor 4 has one bit set. *)
Lemma hamming_distance_counts_truncated_values_witness :
  caffe_cpu_hamming_distance_float 2
    [S754_finite false 12582912 (-22); S754_finite false 10485760 (-21)]
    [S754_finite false 8388608 (-23); S754_finite false 8388608 (-21)]
  = Ok 2.
Proof.
  apply (proj1 (hamming_distance_counts_truncated_values 2))
    with (us := [3; 5]) (vs := [1; 4]).
  - split; [vm_compute; split; discriminate | reflexivity].
  - split; [vm_compute; split; discriminate | reflexivity].
  - vm_compute; discriminate.
Defined.

(** C3, counterexample.  The floats 0.5 and 0.25 have the bit patterns
    0x3F000000 and 0x3E800000, which differ in two bits; the code converts
    both to the integer 0 and returns the distance 0. *)
Lemma hamming_distance_is_not_bit_pattern_distance :
  caffe_cpu_hamming_distance_float 1
    [S754_finite false 8388608 (-24)] [S754_finite false 8388608 (-25)]
  = Ok 0
  /\ bits_of binary32 (S754_finite false 8388608 (-24)) = 0x3F000000
  /\ bits_of binary32 (S754_finite false 8388608 (-25)) = 0x3E800000
  /\ spec_reinterpreted_distance binary32
       [S754_finite false 8388608 (-24)] [S754_finite false 8388608 (-25)]
     = 2
  /\ caffe_cpu_hamming_distance_float 1
       [S754_finite false 8388608 (-24)] [S754_finite false 8388608 (-25)]
     <> Ok (spec_reinterpreted_distance binary32
              [S754_finite false 8388608 (-24)]
              [S754_finite false 8388608 (-25)]).
Proof. repeat split; try (vm_compute; reflexivity). vm_compute; discriminate. Qed.

(* ================================================================== *)
(** * Strided dot product *)

Lemma strided_dot_loop_spec (x : cptr half) (incx : Z) (y : cptr half)
    (incy : Z) :
  forall (xs ys : list half) (k : nat) (sum : float),
    length xs = length ys ->
    (forall j : nat, (j < length xs)%nat ->
       fits_int (Z.of_nat (k + j) * incx) /\
       fits_int (Z.of_nat (k + j) * incy) /\
       deref x (Z.of_nat (k + j) * incx) = of_option (nth_error xs j) /\
       deref y (Z.of_nat (k + j) * incy) = of_option (nth_error ys j)) ->
    strided_dot_loop x incx y incy (length xs) (Z.of_nat k) sum
    = Ok (fold_left (fadd binary32) (dot_terms xs ys) sum).
Proof.
  induction xs as [|xv xs IH]; intros ys k sum Hlen H.
  - reflexivity.
  - destruct ys as [|yv ys]; [discriminate|].
    simpl in Hlen. injection Hlen as Hlen.
    destruct (H 0%nat) as (Fx & Fy & Dx & Dy); [simpl; lia|].
    rewrite Nat.add_0_r in Fx, Fy, Dx, Dy. simpl in Dx, Dy.
    cbn [length strided_dot_loop]. unfold int_mul.
    rewrite (wrap_int_id _ Fx), (wrap_int_id _ Fy), Dx, Dy.
    cbn [bind].
    replace (Z.of_nat k + 1) with (Z.of_nat (S k)) by lia.
    rewrite (IH ys (S k)); [reflexivity | assumption |].
    intros j Hj. specialize (H (S j)).
    replace (k + S j)%nat with (S k + j)%nat in H by lia.
    apply H. simpl; lia.
Qed.

(** C6.  caffe_cpu_strided_dot<half,float>(n, x, incx, y, incy) returns the
    sum for i from 0 to n-1 of Get<float>(x[i*incx]) * Get<float>(y[i*incy]):
    each product and the running sum are binary32 values, and the sum is
    never converted to the storage type between two terms. *)
Theorem strided_dot_half_accumulates_in_float
    (n : Z) (x : cptr half) (incx : Z) (y : cptr half) (incy : Z)
    (xs ys : list half) :
  gathers x incx n xs -> gathers y incy n ys ->
  caffe_cpu_strided_dot_half n x incx y incy
  = Ok (sum_in_float (dot_terms xs ys)).
Proof.
  intros [Lx Hx] [Ly Hy].
  unfold caffe_cpu_strided_dot_half, sum_in_float.
  rewrite <- Lx. change 0 with (Z.of_nat 0).
  apply strided_dot_loop_spec; [congruence|].
  intros j Hj. simpl.
  destruct (Hx j Hj) as [Fx Dx].
  destruct (Hy j) as [Fy Dy]; [congruence|].
  auto.
Qed.

(** n = 3, x walked backwards from its last element with stride -2, y with
    stride 1: 5*1 + 3*2 + 1*3 = 14. *)
Lemma strided_dot_half_accumulates_in_float_witness :
  caffe_cpu_strided_dot_half 3
    (mk_cptr [S754_finite false 1024 (-10); S754_finite false 1024 (-9);
              S754_finite false 1536 (-9); S754_finite false 1024 (-8);
              S754_finite false 1280 (-8)] 4) (-2)
    (mk_cptr [S754_finite false 1024 (-10); S754_finite false 1024 (-9);
              S754_finite false 1536 (-9)] 0) 1
  = Ok (S754_finite false 14680064 (-20)).
Proof.
  apply (strided_dot_half_accumulates_in_float 3 _ (-2) _ 1
           [S754_finite false 1280 (-8); S754_finite false 1536 (-9);
            S754_finite false 1024 (-10)]
           [S754_finite false 1024 (-10); S754_finite false 1024 (-9);
            S754_finite false 1536 (-9)]).
  - split; [reflexivity|].
    intros [|[|[|i]]] Hi; simpl in Hi; try lia;
      (split; [vm_compute; split; discriminate | reflexivity]).
  - split; [reflexivity|].
    intros [|[|[|i]]] Hi; simpl in Hi; try lia;
      (split; [vm_compute; split; discriminate | reflexivity]).
Defined.

(* ================================================================== *)
(** * gemm and gemv *)

Lemma int_mul_fits (a b : Z) : 0 <= a * b <= INT_MAX -> int_mul a b = a * b.
Proof.
  intros H. apply wrap_int_id. unfold fits_int, INT_MIN, INT_MAX in *. lia.
Qed.

Lemma vector_new_ok (n : Z) :
  0 <= n <= INT_MAX -> vector_new n = Ok (repeat fzero (Z.to_nat n)).
Proof.
  intros H. unfold vector_new, to_size_t, vector_max_size, INT_MAX in *.
  rewrite Z.mod_small by lia.
  destruct (Z.leb_spec n (2 ^ 61 - 1)); [reflexivity | lia].
Qed.

Lemma vsize_repeat {A : Type} (d : A) (n : Z) :
  0 <= n -> vsize (repeat d (Z.to_nat n)) = n.
Proof. intros H. unfold vsize. rewrite repeat_length. lia. Qed.

Lemma front_repeat {A : Type} (d : A) (n : Z) :
  0 < n -> front (repeat d (Z.to_nat n)) = Ok (repeat d (Z.to_nat n)).
Proof.
  intros H. destruct (Z.to_nat n) eqn:E; [lia | reflexivity].
Qed.

Lemma read_n_ok {A : Type} (n : Z) (buf : list A) :
  0 <= n <= vsize buf -> read_n n buf = Ok (firstn (Z.to_nat n) buf).
Proof.
  intros [H0 H1]. unfold read_n, vsize in *.
  destruct (Z.leb_spec 0 n); [|lia].
  destruct (Z.leb_spec n (Z.of_nat (length buf))); [reflexivity | lia].
Qed.

Lemma write_n_ok {A : Type} (vs buf : list A) :
  (length vs <= length buf)%nat ->
  write_n vs buf = Ok (vs ++ skipn (length vs) buf).
Proof.
  intros H. unfold write_n.
  destruct (Nat.leb_spec (length vs) (length buf)); [reflexivity | lia].
Qed.

(** Conversion into a freshly allocated vector of [n] elements. *)
Lemma convert_into_vector {S T : Type} (get : S -> T) (n : Z) (src : list S)
    (d : T) :
  0 <= n <= vsize src ->
  caffe_cpu_convert get n src (repeat d (Z.to_nat n))
  = Ok (map get (firstn (Z.to_nat n) src)).
Proof.
  intros H. unfold caffe_cpu_convert. rewrite (read_n_ok n src H).
  cbn [bind]. unfold vsize in H.
  assert (L : length (map get (firstn (Z.to_nat n) src)) = Z.to_nat n)
    by (rewrite length_map, length_firstn; lia).
  rewrite write_n_ok by (rewrite L, repeat_length; lia).
  rewrite L, skipn_all2 by (rewrite repeat_length; lia).
  rewrite app_nil_r. reflexivity.
Qed.

(** Conversion of a whole vector back into the storage buffer. *)
Lemma convert_back {S T : Type} (get : S -> T) (v : list S) (dst : list T) :
  vsize v <= vsize dst ->
  caffe_cpu_convert get (vsize v) v dst
  = Ok (map get v ++ skipn (length v) dst).
Proof.
  intros H. unfold caffe_cpu_convert, vsize in *.
  rewrite read_n_ok by (unfold vsize; lia). cbn [bind].
  rewrite Nat2Z.id, firstn_all.
  rewrite write_n_ok by (rewrite length_map; lia).
  rewrite length_map. reflexivity.
Qed.

Section ReducedPrecisionRoute.
Variables (TransA TransB : CBLAS_TRANSPOSE) (M N K : Z).
Variables (alpha beta : float).

Hypothesis HM : 0 < M.
Hypothesis HN : 0 < N.

(** Up to the call of the backend, the reduced precision gemm runs
    without a fault and hands the converted A, B and C to the backend. *)
Lemma gemm_half_run (cblas_sgemm : sgemm_t) (A B C : list half) :
  0 < K ->
  M * K <= INT_MAX -> K * N <= INT_MAX -> M * N <= INT_MAX ->
  M * K <= vsize A -> K * N <= vsize B -> M * N <= vsize C ->
  caffe_cpu_gemm_half cblas_sgemm TransA TransB M N K alpha A B beta C
  = (c' <- cblas_sgemm TransA TransB M N K alpha
                       (to_compute (M * K) A) (gemm_lda TransA M K)
                       (to_compute (K * N) B) (gemm_ldb TransB N K)
                       beta (to_compute (M * N) C) N ;;
     C' <- caffe_cpu_convert Get_half_of_float (M * N) c' C ;;
     Ok (C', gemm_events TransA TransB M N K alpha beta A B C)).
Proof.
  intros HK Ia Ib Ic La Lb Lc.
  assert (Pa : 0 < M * K) by lia.
  assert (Pb : 0 < K * N) by lia.
  assert (Pc : 0 < M * N) by lia.
  unfold caffe_cpu_gemm_half.
  destruct (Z.leb_spec M 0); [lia|].
  destruct (Z.leb_spec N 0); [lia|].
  destruct (Z.leb_spec K 0); [lia|].
  cbn [orb].
  rewrite !int_mul_fits by lia.
  rewrite !vector_new_ok by lia. cbn [bind].
  rewrite !front_repeat by lia. cbn [bind].
  rewrite !vsize_repeat by lia.
  rewrite !convert_into_vector by lia. cbn [bind].
  fold (to_compute (M * K) A) (to_compute (K * N) B) (to_compute (M * N) C).
  assert (Sc : vsize (to_compute (M * N) C) = M * N).
  { unfold to_compute, vsize in *. rewrite length_map, length_firstn. lia. }
  rewrite Sc. reflexivity.
Qed.

Lemma gemv_half_run (cblas_sgemv : sgemv_t) (A x y : list half) :
  M * N <= INT_MAX ->
  M * N <= vsize A ->
  gemv_lx TransA M N <= vsize x -> gemv_ly TransA M N <= vsize y ->
  caffe_cpu_gemv_half cblas_sgemv TransA M N alpha A x beta y
  = (yv' <- cblas_sgemv TransA M N alpha (to_compute (M * N) A) N
                        (to_compute (gemv_lx TransA M N) x) 1
                        beta (to_compute (gemv_ly TransA M N) y) 1 ;;
     y' <- caffe_cpu_convert Get_half_of_float (gemv_ly TransA M N) yv' y ;;
     Ok (y', gemv_events TransA M N alpha beta A x y)).
Proof.
  intros Ia La Lx Ly.
  assert (Pa : 0 < M * N) by lia.
  assert (Px : 0 < gemv_lx TransA M N <= INT_MAX)
    by (unfold gemv_lx; destruct (is_notrans TransA); nia).
  assert (Py : 0 < gemv_ly TransA M N <= INT_MAX)
    by (unfold gemv_ly; destruct (is_notrans TransA); nia).
  unfold caffe_cpu_gemv_half.
  destruct (Z.leb_spec M 0); [lia|].
  destruct (Z.leb_spec N 0); [lia|].
  cbn [orb].
  fold (gemv_lx TransA M N) (gemv_ly TransA M N).
  rewrite !int_mul_fits by lia.
  rewrite !vector_new_ok by lia. cbn [bind].
  rewrite !front_repeat by lia. cbn [bind].
  rewrite !vsize_repeat by lia.
  rewrite !convert_into_vector by lia. cbn [bind].
  fold (to_compute (M * N) A) (to_compute (gemv_lx TransA M N) x)
       (to_compute (gemv_ly TransA M N) y).
  assert (Sy : vsize (to_compute (gemv_ly TransA M N) y) = gemv_ly TransA M N).
  { unfold to_compute, vsize in *. rewrite length_map, length_firstn. lia. }
  rewrite Sy. reflexivity.
Qed.
End ReducedPrecisionRoute.

Lemma to_compute_all (n : Z) (buf : list half) :
  vsize buf = n -> to_compute n buf = map Get_float_of_half buf.
Proof.
  intros H. unfold to_compute, vsize in *.
  rewrite <- H, Nat2Z.id, firstn_all. reflexivity.
Qed.

Lemma vsize_to_compute (n : Z) (buf : list half) :
  0 <= n <= vsize buf -> vsize (to_compute n buf) = n.
Proof.
  intros H. unfold to_compute, vsize in *.
  rewrite length_map, length_firstn. lia.
Qed.

Lemma getz_to_compute (n : Z) (buf : list half) (p : nat) :
  (p < Z.to_nat n)%nat -> (p < length buf)%nat ->
  getz (to_compute n buf) (Z.of_nat p)
  = Get_float_of_half (nth p buf fzero).
Proof.
  intros Hp Hl. unfold getz, to_compute. rewrite Nat2Z.id.
  rewrite (nth_indep _ fzero (Get_float_of_half fzero))
    by (rewrite length_map, length_firstn; lia).
  rewrite map_nth. f_equal.
  rewrite <- (firstn_skipn (Z.to_nat n) buf) at 2.
  rewrite app_nth1 by (rewrite length_firstn; lia). reflexivity.
Qed.

Lemma nth_map_seq {A : Type} (f : nat -> A) (len p : nat) (d : A) :
  (p < len)%nat -> nth p (map f (seq 0 len)) d = f p.
Proof.
  intros H.
  rewrite (nth_indep _ d (f 0%nat)) by (rewrite length_map, length_seq; lia).
  rewrite map_nth, seq_nth by lia. reflexivity.
Qed.

(** ** The reference backend on the arguments of the wrappers *)

Lemma extent_pos (rows cols ld : Z) :
  0 < rows -> 0 < cols -> extent rows cols ld = (rows - 1) * ld + cols.
Proof.
  intros Hr Hc. unfold extent.
  destruct (Z.leb_spec rows 0); [lia|].
  destruct (Z.leb_spec cols 0); [lia|]. reflexivity.
Qed.

Lemma ref_sgemm_run (TransA TransB : CBLAS_TRANSPOSE) (M N K : Z)
    (alpha beta : float) (a b c : list float) :
  0 < M -> 0 < N -> 0 < K ->
  M * K <= vsize a -> K * N <= vsize b -> M * N <= vsize c ->
  ref_sgemm TransA TransB M N K alpha a (gemm_lda TransA M K)
            b (gemm_ldb TransB N K) beta c N
  = Ok (map (fun p : nat =>
               let i := Z.of_nat p / N in
               let j := Z.of_nat p mod N in
               if (i <? M) && (j <? N)
               then ref_axpby alpha
                      (ref_dot TransA TransB K a (gemm_lda TransA M K)
                               b (gemm_ldb TransB N K) i j)
                      beta (getz c (Z.of_nat p))
               else getz c (Z.of_nat p))
            (seq 0 (length c))).
Proof.
  intros HM HN HK La Lb Lc. unfold ref_sgemm, gemm_lda, gemm_ldb.
  rewrite !extent_pos by (destruct (is_notrans TransA), (is_notrans TransB); lia).
  destruct (is_notrans TransA), (is_notrans TransB);
    repeat match goal with
           | |- context [?x <? ?y] =>
               destruct (Z.ltb_spec x y); [exfalso; nia|]
           | |- context [?x =? ?y] =>
               destruct (Z.eqb_spec x y); [exfalso; lia|]
           end; reflexivity.
Qed.

Lemma ref_sgemv_run (TransA : CBLAS_TRANSPOSE) (M N : Z)
    (alpha beta : float) (a x y : list float) :
  0 < M -> 0 < N ->
  M * N <= vsize a ->
  gemv_lx TransA M N <= vsize x -> gemv_ly TransA M N <= vsize y ->
  exists f : nat -> float,
    ref_sgemv TransA M N alpha a N x 1 beta y 1
    = Ok (map f (seq 0 (length y))).
Proof.
  intros HM HN La Lx Ly. unfold ref_sgemv, gemv_lx, gemv_ly in *.
  change (Z.abs 1) with 1.
  rewrite !extent_pos by (destruct (is_notrans TransA); lia).
  destruct (is_notrans TransA); eexists;
    repeat match goal with
           | |- context [?x <? ?y] =>
               destruct (Z.ltb_spec x y); [exfalso; nia|]
           | |- context [?x =? ?y] =>
               destruct (Z.eqb_spec x y); [exfalso; lia|]
           end; reflexivity.
Qed.

(** The element (i, j) that the reference gemm leaves in [C]. *)
Lemma ref_sgemm_elem (TransA TransB : CBLAS_TRANSPOSE) (M N K : Z)
    (alpha beta : float) (a : list float) (lda : Z) (b : list float)
    (ldb : Z) (c : list float) (i j : Z) (d : float) :
  0 <= i < M -> 0 <= j < N -> M * N <= vsize c ->
  nth (Z.to_nat (i * N + j))
      (map (fun p : nat =>
              let i := Z.of_nat p / N in
              let j := Z.of_nat p mod N in
              if (i <? M) && (j <? N)
              then ref_axpby alpha (ref_dot TransA TransB K a lda b ldb i j)
                             beta (getz c (Z.of_nat p))
              else getz c (Z.of_nat p))
           (seq 0 (length c))) d
  = ref_axpby alpha (ref_dot TransA TransB K a lda b ldb i j)
              beta (getz c (i * N + j)).
Proof.
  intros Hi Hj Lc. unfold vsize in Lc.
  assert (Hp : 0 <= i * N + j < M * N) by nia.
  rewrite nth_map_seq by lia.
  cbv zeta. rewrite Z2Nat.id by lia.
  replace ((i * N + j) / N) with i by (apply Z.div_unique with j; lia).
  replace ((i * N + j) mod N) with j by (apply Z.mod_unique with i; lia).
  destruct (Z.ltb_spec i M); [|lia].
  destruct (Z.ltb_spec j N); [|lia]. reflexivity.
Qed.

(** C1.  With M, N, K > 0 the reduced precision gemm allocates three float
    temporaries of M*K, K*N and M*N elements, converts A, B and the present
    content of C into them, calls the backend on the temporaries and
    converts its M*N results back into C, whatever the backend is.  With
    the reference backend the element (i, j) of the result is the conversion
    to half of alpha * (op(A) op(B))(i,j) + beta * C(i,j), C(i,j) being the
    converted old element; for beta <> 0 the term beta * C(i,j) is added. *)
Theorem gemm_half_converts_computes_converts_back
    (TransA TransB : CBLAS_TRANSPOSE) (M N K : Z) (alpha beta : float)
    (A B C : list half) :
  0 < M -> 0 < N -> 0 < K ->
  M * K <= INT_MAX -> K * N <= INT_MAX -> M * N <= INT_MAX ->
  M * K <= vsize A -> K * N <= vsize B -> M * N <= vsize C ->
  (forall (cblas_sgemm : sgemm_t) (c' : list float),
      cblas_sgemm TransA TransB M N K alpha
                  (to_compute (M * K) A) (gemm_lda TransA M K)
                  (to_compute (K * N) B) (gemm_ldb TransB N K)
                  beta (to_compute (M * N) C) N = Ok c' ->
      vsize c' = M * N ->
      caffe_cpu_gemm_half cblas_sgemm TransA TransB M N K alpha A B beta C
      = Ok (map Get_half_of_float c' ++ skipn (Z.to_nat (M * N)) C,
            gemm_events TransA TransB M N K alpha beta A B C))
  /\ exists C' : list half,
      caffe_cpu_gemm_half ref_sgemm TransA TransB M N K alpha A B beta C
      = Ok (C', gemm_events TransA TransB M N K alpha beta A B C)
      /\ length C' = length C
      /\ forall i j : Z, 0 <= i < M -> 0 <= j < N ->
         let dot := ref_dot TransA TransB K
                      (to_compute (M * K) A) (gemm_lda TransA M K)
                      (to_compute (K * N) B) (gemm_ldb TransB N K) i j in
         let old := Get_float_of_half (elem fzero N C i j) in
         elem fzero N C' i j = Get_half_of_float (ref_axpby alpha dot beta old)
         /\ (feq beta fzero = false ->
             elem fzero N C' i j
             = Get_half_of_float
                 (fadd binary32
                    (if feq alpha fzero then fzero else fmul binary32 alpha dot)
                    (fmul binary32 beta old))).
Proof.
  intros HM HN HK Ia Ib Ic La Lb Lc.
  assert (Hgen : forall (cblas_sgemm : sgemm_t) (c' : list float),
      cblas_sgemm TransA TransB M N K alpha
                  (to_compute (M * K) A) (gemm_lda TransA M K)
                  (to_compute (K * N) B) (gemm_ldb TransB N K)
                  beta (to_compute (M * N) C) N = Ok c' ->
      vsize c' = M * N ->
      caffe_cpu_gemm_half cblas_sgemm TransA TransB M N K alpha A B beta C
      = Ok (map Get_half_of_float c' ++ skipn (Z.to_nat (M * N)) C,
            gemm_events TransA TransB M N K alpha beta A B C)).
  { intros cblas_sgemm c' Hc' Sc'.
    rewrite gemm_half_run by assumption.
    rewrite Hc'. cbn [bind]. rewrite <- Sc'.
    rewrite convert_back by lia. cbn [bind].
    unfold vsize. rewrite Nat2Z.id. reflexivity. }
  split; [exact Hgen|].
  pose proof (ref_sgemm_run TransA TransB M N K alpha beta
                (to_compute (M * K) A) (to_compute (K * N) B)
                (to_compute (M * N) C) HM HN HK) as Href.
  rewrite !vsize_to_compute in Href by lia.
  specialize (Href (Z.le_refl _) (Z.le_refl _) (Z.le_refl _)).
  eexists. split; [apply (Hgen ref_sgemm _ Href)|].
  { unfold vsize. rewrite length_map, length_seq.
    apply vsize_to_compute; lia. }
  assert (Lt : length (to_compute (M * N) C) = Z.to_nat (M * N)).
  { pose proof (vsize_to_compute (M * N) C) as V. unfold vsize in *. lia. }
  split.
  { rewrite length_app, length_map, length_map, length_seq, length_skipn, Lt.
    unfold vsize in Lc. lia. }
  intros i j Hi Hj dot old.
  assert (Hp : 0 <= i * N + j < M * N) by nia.
  assert (E : elem fzero N
                (map Get_half_of_float
                   (map (fun p : nat =>
                      let i := Z.of_nat p / N in
                      let j := Z.of_nat p mod N in
                      if (i <? M) && (j <? N)
                      then ref_axpby alpha
                             (ref_dot TransA TransB K
                                (to_compute (M * K) A) (gemm_lda TransA M K)
                                (to_compute (K * N) B) (gemm_ldb TransB N K) i j)
                             beta (getz (to_compute (M * N) C) (Z.of_nat p))
                      else getz (to_compute (M * N) C) (Z.of_nat p))
                      (seq 0 (length (to_compute (M * N) C))))
                   ++ skipn (Z.to_nat (M * N)) C) i j
              = Get_half_of_float (ref_axpby alpha dot beta old)).
  { unfold elem.
    rewrite app_nth1 by (rewrite !length_map, length_seq, Lt; lia).
    rewrite (nth_indep _ fzero (Get_half_of_float fzero))
      by (rewrite !length_map, length_seq, Lt; lia).
    rewrite map_nth.
    rewrite (ref_sgemm_elem TransA TransB M N K) by
      (try assumption; rewrite vsize_to_compute; lia).
    subst dot old. do 2 f_equal.
    rewrite <- (Z2Nat.id (i * N + j)) at 1 by lia.
    unfold vsize in Lc.
    rewrite getz_to_compute by lia. reflexivity. }
  split; [exact E|].
  intros Hb. rewrite E. unfold ref_axpby. rewrite Hb. reflexivity.
Qed.

(** Closes the side conditions of a theorem applied to literals. *)
Ltac by_evaluation :=
  intros;
  first [ reflexivity
        | vm_compute; discriminate
        | vm_compute; split; discriminate
        | vm_compute; split; reflexivity
        | vm_compute; reflexivity ].

(** A = [2], B = [3], C = [10], alpha = beta = 1: the old C is added,
    1 * (2 * 3) + 1 * 10 = 16. *)
Lemma gemm_half_converts_computes_converts_back_witness :
  caffe_cpu_gemm_half ref_sgemm CblasNoTrans CblasNoTrans 1 1 1
    (S754_finite false 8388608 (-23))
    [S754_finite false 1024 (-9)] [S754_finite false 1536 (-9)]
    (S754_finite false 8388608 (-23))
    [S754_finite false 1280 (-7)]
  = Ok ([S754_finite false 1024 (-6)],
        gemm_events CblasNoTrans CblasNoTrans 1 1 1
          (S754_finite false 8388608 (-23)) (S754_finite false 8388608 (-23))
          [S754_finite false 1024 (-9)] [S754_finite false 1536 (-9)]
          [S754_finite false 1280 (-7)]).
Proof.
  apply (proj1 (gemm_half_converts_computes_converts_back
                  CblasNoTrans CblasNoTrans 1 1 1
                  (S754_finite false 8388608 (-23))
                  (S754_finite false 8388608 (-23))
                  [S754_finite false 1024 (-9)] [S754_finite false 1536 (-9)]
                  [S754_finite false 1280 (-7)]
                  ltac:(by_evaluation) ltac:(by_evaluation)
                  ltac:(by_evaluation) ltac:(by_evaluation)
                  ltac:(by_evaluation) ltac:(by_evaluation)
                  ltac:(by_evaluation) ltac:(by_evaluation)
                  ltac:(by_evaluation))
           ref_sgemm [S754_finite false 8388608 (-19)]);
    by_evaluation.
Defined.

(** C5.  When a dimension is not positive the reduced precision gemm and
    gemv return at once and without an error: the output buffer is returned
    as it was and no event took place, so nothing was allocated and the
    backend, whatever it is, was not called. *)
Theorem degenerate_dimensions_are_a_noop
    (cblas_sgemm : sgemm_t) (cblas_sgemv : sgemv_t)
    (TransA TransB : CBLAS_TRANSPOSE) (M N K : Z) (alpha beta : float)
    (A B C x y : list half) :
  (M <= 0 \/ N <= 0 \/ K <= 0 ->
   caffe_cpu_gemm_half cblas_sgemm TransA TransB M N K alpha A B beta C
   = Ok (C, []))
  /\ (M <= 0 \/ N <= 0 ->
      caffe_cpu_gemv_half cblas_sgemv TransA M N alpha A x beta y
      = Ok (y, [])).
Proof.
  split; intros H.
  - unfold caffe_cpu_gemm_half.
    destruct (Z.leb_spec M 0); [reflexivity|].
    destruct (Z.leb_spec N 0); [reflexivity|].
    destruct (Z.leb_spec K 0); [reflexivity|]. lia.
  - unfold caffe_cpu_gemv_half.
    destruct (Z.leb_spec M 0); [reflexivity|].
    destruct (Z.leb_spec N 0); [reflexivity|]. lia.
Qed.

(** K = 0 for gemm and M = -1 for gemv, on a backend that would fail on
    any call. *)
Lemma degenerate_dimensions_are_a_noop_witness :
  caffe_cpu_gemm_half
    (fun _ _ _ _ _ _ _ _ _ _ _ _ _ => Thrown "called") CblasNoTrans CblasTrans
    2 3 0 (S754_finite false 8388608 (-23)) [] []
    (S754_zero false) [S754_finite false 1024 (-10)]
  = Ok ([S754_finite false 1024 (-10)], [])
  /\ caffe_cpu_gemv_half
       (fun _ _ _ _ _ _ _ _ _ _ _ => Thrown "called") CblasNoTrans
       (-1) 3 (S754_finite false 8388608 (-23)) [] []
       (S754_zero false) [S754_finite false 1024 (-10)]
     = Ok ([S754_finite false 1024 (-10)], []).
Proof.
  split.
  - apply (proj1 (degenerate_dimensions_are_a_noop
                    (fun _ _ _ _ _ _ _ _ _ _ _ _ _ => Thrown "called")
                    ref_sgemv CblasNoTrans CblasTrans 2 3 0
                    (S754_finite false 8388608 (-23)) (S754_zero false)
                    [] [] [S754_finite false 1024 (-10)] [] [])).
    right; right; by_evaluation.
  - apply (proj2 (degenerate_dimensions_are_a_noop
                    ref_sgemm
                    (fun _ _ _ _ _ _ _ _ _ _ _ => Thrown "called")
                    CblasNoTrans CblasNoTrans (-1) 3 0
                    (S754_finite false 8388608 (-23)) (S754_zero false)
                    [] [] [] [] [S754_finite false 1024 (-10)])).
    left; by_evaluation.
Defined.

(** C2 (as amended).  With all dimensions positive and buffers of exactly
    the logical sizes, the reduced precision gemm (gemv) returns, element by
    element, the conversion to half of what the native gemm (gemv) returns
    on the converted inputs with the same backend; with the reference
    backend both routes return. *)
Theorem reduced_route_is_native_route_rounded
    (TransA TransB : CBLAS_TRANSPOSE) (M N K : Z) (alpha beta : float)
    (A B C Av x y : list half) :
  0 < M -> 0 < N -> 0 < K ->
  M * K <= INT_MAX -> K * N <= INT_MAX -> M * N <= INT_MAX ->
  vsize A = M * K -> vsize B = K * N -> vsize C = M * N ->
  vsize Av = M * N ->
  vsize x = gemv_lx TransA M N -> vsize y = gemv_ly TransA M N ->
  (forall (cblas_sgemm : sgemm_t) (c' : list float),
      caffe_cpu_gemm_float cblas_sgemm TransA TransB M N K alpha
        (map Get_float_of_half A) (map Get_float_of_half B) beta
        (map Get_float_of_half C) = Ok c' ->
      vsize c' = M * N ->
      exists (C' : list half) (ev : list event),
        caffe_cpu_gemm_half cblas_sgemm TransA TransB M N K alpha A B beta C
        = Ok (C', ev) /\ matches_native c' C')
  /\ (forall (cblas_sgemv : sgemv_t) (y' : list float),
      caffe_cpu_gemv_float cblas_sgemv TransA M N alpha
        (map Get_float_of_half Av) (map Get_float_of_half x) beta
        (map Get_float_of_half y) = Ok y' ->
      vsize y' = gemv_ly TransA M N ->
      exists (yh : list half) (ev : list event),
        caffe_cpu_gemv_half cblas_sgemv TransA M N alpha Av x beta y
        = Ok (yh, ev) /\ matches_native y' yh)
  /\ (exists c' : list float,
      caffe_cpu_gemm_float ref_sgemm TransA TransB M N K alpha
        (map Get_float_of_half A) (map Get_float_of_half B) beta
        (map Get_float_of_half C) = Ok c' /\ vsize c' = M * N)
  /\ (exists y' : list float,
      caffe_cpu_gemv_float ref_sgemv TransA M N alpha
        (map Get_float_of_half Av) (map Get_float_of_half x) beta
        (map Get_float_of_half y) = Ok y' /\ vsize y' = gemv_ly TransA M N).
Proof.
  intros HM HN HK Ia Ib Ic La Lb Lc Lv Lx Ly.
  repeat split.
  - intros cblas_sgemm c' Hc' Sc'. unfold caffe_cpu_gemm_float in Hc'.
    fold (gemm_lda TransA M K) (gemm_ldb TransB N K) in Hc'.
    rewrite <- (to_compute_all _ _ La), <- (to_compute_all _ _ Lb),
      <- (to_compute_all _ _ Lc) in Hc'.
    rewrite gemm_half_run by (try assumption; lia).
    rewrite Hc'. cbn [bind]. rewrite <- Sc'.
    rewrite convert_back by lia. cbn [bind].
    do 2 eexists. split; [reflexivity|].
    unfold matches_native, vsize in *.
    rewrite skipn_all2 by lia. apply app_nil_r.
  - intros cblas_sgemv y' Hy' Sy'. unfold caffe_cpu_gemv_float in Hy'.
    rewrite <- (to_compute_all _ _ Lv), <- (to_compute_all _ _ Lx),
      <- (to_compute_all _ _ Ly) in Hy'.
    rewrite gemv_half_run by (try assumption; lia).
    rewrite Hy'. cbn [bind]. rewrite <- Sy'.
    rewrite convert_back by lia. cbn [bind].
    do 2 eexists. split; [reflexivity|].
    unfold matches_native, vsize in *.
    rewrite skipn_all2 by lia. apply app_nil_r.
  - unfold caffe_cpu_gemm_float.
    fold (gemm_lda TransA M K) (gemm_ldb TransB N K).
    rewrite ref_sgemm_run
      by (try assumption; unfold vsize in *; rewrite length_map; lia).
    eexists. split; [reflexivity|].
    unfold vsize in *. rewrite length_map, length_seq, length_map. exact Lc.
  - unfold caffe_cpu_gemv_float.
    destruct (ref_sgemv_run TransA M N alpha beta
                (map Get_float_of_half Av) (map Get_float_of_half x)
                (map Get_float_of_half y)) as [f Hf];
      try assumption;
      try (unfold vsize in *; rewrite length_map; lia).
    rewrite Hf. eexists. split; [reflexivity|].
    unfold vsize in *. rewrite length_map, length_seq, length_map. exact Ly.
Qed.

(** M = N = K = 2, A the identity, B = [[1,2],[3,4]], alpha = 1, beta = 0. *)
Lemma reduced_route_is_native_route_rounded_witness :
  exists (C' : list half) (ev : list event),
    caffe_cpu_gemm_half ref_sgemm CblasNoTrans CblasNoTrans 2 2 2
      (S754_finite false 8388608 (-23))
      [S754_finite false 1024 (-10); S754_zero false;
       S754_zero false; S754_finite false 1024 (-10)]
      [S754_finite false 1024 (-10); S754_finite false 1024 (-9);
       S754_finite false 1536 (-9); S754_finite false 1024 (-8)]
      (S754_zero false)
      [S754_zero false; S754_zero false; S754_zero false; S754_zero false]
    = Ok (C', ev)
    /\ matches_native
         [S754_finite false 8388608 (-23); S754_finite false 8388608 (-22);
          S754_finite false 12582912 (-22); S754_finite false 8388608 (-21)]
         C'.
Proof.
  apply (proj1 (reduced_route_is_native_route_rounded
                  CblasNoTrans CblasNoTrans 2 2 2
                  (S754_finite false 8388608 (-23)) (S754_zero false)
                  [S754_finite false 1024 (-10); S754_zero false;
                   S754_zero false; S754_finite false 1024 (-10)]
                  [S754_finite false 1024 (-10); S754_finite false 1024 (-9);
                   S754_finite false 1536 (-9); S754_finite false 1024 (-8)]
                  [S754_zero false; S754_zero false;
                   S754_zero false; S754_zero false]
                  [S754_zero false; S754_zero false;
                   S754_zero false; S754_zero false]
                  [S754_zero false; S754_zero false]
                  [S754_zero false; S754_zero false]
                  ltac:(by_evaluation) ltac:(by_evaluation)
                  ltac:(by_evaluation) ltac:(by_evaluation)
                  ltac:(by_evaluation) ltac:(by_evaluation)
                  ltac:(by_evaluation) ltac:(by_evaluation)
                  ltac:(by_evaluation) ltac:(by_evaluation)
                  ltac:(by_evaluation) ltac:(by_evaluation)));
    by_evaluation.
Defined.

(** C2, counterexample.  M = N = 1, K = 0, op(A) = A^T, alpha = 1, beta = 0
    and C = [1]: every leading dimension is legal, the native route calls
    the backend, which scales C by beta and leaves 0; the reduced precision
    route returns at once and leaves 1. *)
Lemma routes_differ_when_K_is_zero :
  caffe_cpu_gemm_float ref_sgemm CblasTrans CblasNoTrans 1 1 0
    (S754_finite false 8388608 (-23)) [] [] (S754_zero false)
    [Get_float_of_half (S754_finite false 1024 (-10))]
  = Ok [S754_zero false]
  /\ caffe_cpu_gemm_half ref_sgemm CblasTrans CblasNoTrans 1 1 0
       (S754_finite false 8388608 (-23)) [] [] (S754_zero false)
       [S754_finite false 1024 (-10)]
     = Ok ([S754_finite false 1024 (-10)], [])
  /\ ~ matches_native [S754_zero false] [S754_finite false 1024 (-10)]
  /\ feq (Get_float_of_half (S754_finite false 1024 (-10))) (S754_zero false)
     = false.
Proof.
  repeat split; try reflexivity.
  unfold matches_native. vm_compute. discriminate.
Qed.

(* ================================================================== *)
(** * caffe_set *)

Lemma le_combine_zeros (n : nat) : le_combine (repeat Byte.x00 n) = 0.
Proof.
  induction n as [|n IH]; [reflexivity|].
  change (le_combine (repeat Byte.x00 (S n)))
    with (Z.lor (byte.unsigned Byte.x00)
                (Z.shiftl (le_combine (repeat Byte.x00 n)) 8)).
  rewrite IH. reflexivity.
Qed.

Lemma skipn_repeat_app {A : Type} (a : A) (n k : nat) (r : list A) :
  (k <= n)%nat -> skipn k (repeat a n ++ r) = repeat a (n - k) ++ r.
Proof.
  revert n; induction k as [|k IH]; intros n H.
  - rewrite Nat.sub_0_r. reflexivity.
  - destruct n as [|n]; [lia|]. cbn [repeat app skipn]. apply IH; lia.
Qed.

Lemma firstn_repeat_app {A : Type} (a : A) (n k : nat) (r : list A) :
  (k <= n)%nat -> firstn k (repeat a n ++ r) = repeat a k.
Proof.
  revert n; induction k as [|k IH]; intros n H; [reflexivity|].
  destruct n as [|n]; [lia|]. cbn [repeat app firstn]. f_equal. apply IH; lia.
Qed.

Lemma skipn_concat_repeat {A : Type} (bs r : list A) (n k : nat) :
  (k <= n)%nat ->
  skipn (k * length bs) (concat (repeat bs n) ++ r)
  = concat (repeat bs (n - k)) ++ r.
Proof.
  revert n; induction k as [|k IH]; intros n H.
  - rewrite Nat.sub_0_r. reflexivity.
  - destruct n as [|n]; [lia|]. cbn [repeat concat].
    rewrite <- app_assoc.
    replace (S k * length bs)%nat with (length bs + k * length bs)%nat by lia.
    rewrite Nat.add_comm, <- skipn_skipn, skipn_app, skipn_all, Nat.sub_diag.
    cbn [app skipn]. apply IH; lia.
Qed.

Lemma concat_repeat_repeat {A : Type} (a : A) (n k : nat) :
  concat (repeat (repeat a k) n) = repeat a (n * k).
Proof.
  induction n as [|n IH]; [reflexivity|].
  cbn [repeat concat Nat.mul]. rewrite IH. symmetry. apply repeat_app.
Qed.

Section SetLoop.
Context {D M : Type} (T : TypePair D M).

Lemma size_mul_exact (N : Z) :
  0 <= N <= INT_MAX -> Z.of_nat (@sizeof D M T) * N < 2 ^ 64 ->
  size_mul (Z.of_nat (@sizeof D M T)) (to_size_t N) = Z.of_nat (Z.to_nat N * (@sizeof D M T)).
Proof.
  intros HN Hs. unfold size_mul, to_size_t, INT_MAX in *.
  rewrite (Z.mod_small N) by lia.
  rewrite Z.mod_small by nia. nia.
Qed.

Lemma store_elem_ok (Y : list byte) (k : nat) (v : D) :
  (k * (@sizeof D M T) + (@sizeof D M T) <= length Y)%nat ->
  store_elem T Y (Z.of_nat k) v
  = Ok (firstn (k * (@sizeof D M T)) Y ++ elem_bytes T v ++ skipn (k * (@sizeof D M T) + (@sizeof D M T)) Y).
Proof.
  intros H. unfold store_elem. rewrite Nat2Z.id.
  destruct (Z.leb_spec 0 (Z.of_nat k)); [|lia].
  destruct (Nat.leb_spec (k * (@sizeof D M T) + (@sizeof D M T)) (length Y)); [reflexivity | lia].
Qed.

Lemma load_elem_ok (Y : list byte) (k : nat) :
  (k * (@sizeof D M T) + (@sizeof D M T) <= length Y)%nat ->
  load_elem T Y (Z.of_nat k)
  = Ok (@of_repr D M T (le_combine (firstn (@sizeof D M T) (skipn (k * (@sizeof D M T)) Y)))).
Proof.
  intros H. unfold load_elem. rewrite Nat2Z.id.
  destruct (Z.leb_spec 0 (Z.of_nat k)); [|lia].
  destruct (Nat.leb_spec (k * (@sizeof D M T) + (@sizeof D M T)) (length Y)); [reflexivity | lia].
Qed.

(** The loop started at element [k] rewrites the [todo] elements from
    [k] on and nothing else. *)
Lemma set_loop_spec (alpha : M) :
  forall (todo k : nat) (Y : list byte),
    ((k + todo) * (@sizeof D M T) <= length Y)%nat ->
    set_loop T alpha todo (Z.of_nat k) Y
    = Ok (firstn (k * (@sizeof D M T)) Y
          ++ concat (repeat (elem_bytes T (@Get D M T alpha)) todo)
          ++ skipn ((k + todo) * (@sizeof D M T)) Y).
Proof.
  induction todo as [|todo IH]; intros k Y H.
  - cbn [set_loop repeat concat app]. rewrite Nat.add_0_r, firstn_skipn.
    reflexivity.
  - cbn [set_loop]. rewrite store_elem_ok by lia. cbn [bind].
    replace (Z.of_nat k + 1) with (Z.of_nat (S k)) by lia.
    set (bs := elem_bytes T (@Get D M T alpha)).
    assert (Lb : length bs = (@sizeof D M T)) by apply length_le_split.
    assert (Lf : length (firstn (k * (@sizeof D M T)) Y) = (k * (@sizeof D M T))%nat)
      by (rewrite length_firstn; lia).
    set (Y' := firstn (k * (@sizeof D M T)) Y ++ bs ++ skipn (k * (@sizeof D M T) + (@sizeof D M T)) Y).
    assert (E : Y' = (firstn (k * (@sizeof D M T)) Y ++ bs) ++ skipn (k * (@sizeof D M T) + (@sizeof D M T)) Y)
      by (subst Y'; apply app_assoc).
    assert (Lp : length (firstn (k * (@sizeof D M T)) Y ++ bs) = (S k * (@sizeof D M T))%nat)
      by (rewrite length_app, Lf, Lb; lia).
    assert (F1 : firstn (S k * (@sizeof D M T)) Y' = firstn (k * (@sizeof D M T)) Y ++ bs).
    { rewrite E, <- Lp, firstn_app, firstn_all, Nat.sub_diag.
      cbn [firstn]. apply app_nil_r. }
    assert (F2 : skipn ((S k + todo) * (@sizeof D M T)) Y'
                 = skipn ((k + S todo) * (@sizeof D M T)) Y).
    { rewrite E.
      replace ((S k + todo) * (@sizeof D M T))%nat with (S k * (@sizeof D M T) + todo * (@sizeof D M T))%nat by lia.
      rewrite Nat.add_comm, <- skipn_skipn, <- Lp, skipn_app, skipn_all,
        Nat.sub_diag.
      cbn [app skipn]. rewrite skipn_skipn. f_equal. lia. }
    rewrite IH.
    2:{ subst Y'. rewrite !length_app, Lf, Lb, length_skipn. lia. }
    rewrite F1, F2. cbn [repeat concat]. fold bs.
    rewrite <- !app_assoc. reflexivity.
Qed.

Lemma caffe_set_zero_fill (N : Z) (alpha : M) (Y : list byte) :
  zero_fill_sound T ->
  0 <= N <= INT_MAX -> Z.of_nat (@sizeof D M T) * N < 2 ^ 64 ->
  Z.of_nat (@sizeof D M T) * N <= Z.of_nat (length Y) ->
  @eq_scalar D M T alpha (@literal_zero D M T) = true ->
  zero_fill_matches_stores T N alpha Y.
Proof.
  intros (Hz & Hzb & Heq) HN Hs HY Ha.
  set (n := Z.to_nat N).
  assert (HnY : (n * (@sizeof D M T) <= length Y)%nat) by (subst n; nia).
  set (bs := elem_bytes T (@Get D M T alpha)).
  assert (Lb : length bs = (@sizeof D M T)) by apply length_le_split.
  exists (repeat Byte.x00 (n * (@sizeof D M T)) ++ skipn (n * (@sizeof D M T)) Y),
         (concat (repeat bs n) ++ skipn (n * (@sizeof D M T)) Y).
  assert (Lc : length (concat (repeat bs n)) = (n * (@sizeof D M T))%nat).
  { clear -Lb. induction n as [|n IH]; [reflexivity|].
    cbn [repeat concat]. rewrite length_app, IH, Lb. lia. }
  repeat split.
  - unfold caffe_set. rewrite Ha.
    rewrite size_mul_exact by assumption. fold n.
    unfold memset. rewrite Nat2Z.id.
    destruct (Z.leb_spec (Z.of_nat (n * (@sizeof D M T))) (Z.of_nat (length Y)));
      [reflexivity | lia].
  - unfold caffe_set_per_element. fold n.
    change 0 with (Z.of_nat 0).
    rewrite set_loop_spec by lia.
    fold bs. reflexivity.
  - rewrite length_app, repeat_length, length_skipn. lia.
  - rewrite length_app, Lc, length_skipn. lia.
  - fold n. rewrite skipn_app, repeat_length, Nat.sub_diag.
    rewrite skipn_all2 by (rewrite repeat_length; lia). reflexivity.
  - fold n. rewrite skipn_app, Lc, Nat.sub_diag.
    rewrite skipn_all2 by lia. reflexivity.
  - intros ->. f_equal. subst bs. rewrite Hzb.
    symmetry. apply concat_repeat_repeat.
  - intros i Hi.
    exists (@of_repr D M T (le_combine bs)).
    assert (Hk : (Z.to_nat i < n)%nat) by (subst n; lia).
    rewrite <- (Z2Nat.id i) by lia.
    rewrite !load_elem_ok.
    2:{ rewrite length_app, Lc, length_skipn. nia. }
    2:{ rewrite length_app, repeat_length, length_skipn. nia. }
    repeat split.
    + rewrite skipn_repeat_app by nia.
      rewrite firstn_repeat_app by nia.
      rewrite le_combine_zeros, Hz. reflexivity.
    + replace (Z.to_nat i * (@sizeof D M T))%nat with (Z.to_nat i * length bs)%nat
        by (rewrite Lb; reflexivity).
      rewrite skipn_concat_repeat by lia.
      destruct (n - Z.to_nat i)%nat as [|m] eqn:Em; [lia|].
      cbn [repeat concat].
      rewrite <- app_assoc, firstn_app, Lb, Nat.sub_diag.
      rewrite firstn_all2 by lia. cbn [firstn]. rewrite app_nil_r.
      reflexivity.
    + apply Heq, Ha.
Qed.
End SetLoop.

Lemma feq_zero_inv (alpha : spec_float) :
  feq alpha fzero = true -> exists s : bool, alpha = S754_zero s.
Proof.
  destruct alpha as [s|s| |s m e]; cbn; intros H;
    try discriminate; try (destruct s; discriminate).
  exists s; reflexivity.
Qed.

Lemma zero_fill_sound_int : zero_fill_sound int_int.
Proof.
  split; [reflexivity|]. split; [reflexivity|].
  intros alpha H. apply Z.eqb_eq in H. cbn in H. subst alpha. reflexivity.
Qed.

Lemma zero_fill_sound_float : zero_fill_sound float_float.
Proof.
  split; [reflexivity|]. split; [reflexivity|].
  intros alpha H. apply feq_zero_inv in H. destruct H as [[|] ->].
  - right. split; reflexivity.
  - left. reflexivity.
Qed.

Lemma zero_fill_sound_double : zero_fill_sound double_double.
Proof.
  split; [reflexivity|]. split; [reflexivity|].
  intros alpha H. apply feq_zero_inv in H. destruct H as [[|] ->].
  - right. split; reflexivity.
  - left. reflexivity.
Qed.

Lemma zero_fill_sound_half : zero_fill_sound half_float.
Proof.
  split; [reflexivity|]. split; [reflexivity|].
  intros alpha H. apply feq_zero_inv in H. destruct H as [[|] ->].
  - right. split; reflexivity.
  - left. reflexivity.
Qed.

(** C7.  For each of the four type pairs caffe_set is instantiated with,
    every N >= 0 and every alpha that compares equal to 0, caffe_set takes
    the zero fill, and its result is the one of the per-element stores: both
    leave the bytes behind the N elements alone, after the zero fill each of
    the N elements is Get<Dtype>(0), and it compares equal to the element
    the per-element path would have stored; with alpha the literal 0 the two
    paths leave the very same bytes. *)
Theorem set_zero_is_a_zero_fill (N : Z) :
  0 <= N <= INT_MAX ->
  (forall (alpha : Z) (Y : list byte),
      4 * N <= Z.of_nat (length Y) -> (alpha =? 0) = true ->
      zero_fill_matches_stores int_int N alpha Y)
  /\ (forall (alpha : float) (Y : list byte),
      4 * N <= Z.of_nat (length Y) -> feq alpha fzero = true ->
      zero_fill_matches_stores float_float N alpha Y)
  /\ (forall (alpha : double) (Y : list byte),
      8 * N <= Z.of_nat (length Y) -> feq alpha fzero = true ->
      zero_fill_matches_stores double_double N alpha Y)
  /\ (forall (alpha : float) (Y : list byte),
      2 * N <= Z.of_nat (length Y) -> feq alpha fzero = true ->
      zero_fill_matches_stores half_float N alpha Y).
Proof.
  intros HN. unfold INT_MAX in HN.
  repeat split; intros alpha Y HY Ha.
  - apply caffe_set_zero_fill;
      [apply zero_fill_sound_int | exact HN | | exact HY | exact Ha];
      match goal with
      | |- Z.of_nat ?s * _ < _ =>
          let v := eval vm_compute in (Z.of_nat s) in
          change (Z.of_nat s) with v
      end; lia.
  - apply caffe_set_zero_fill;
      [apply zero_fill_sound_float | exact HN | | exact HY | exact Ha];
      match goal with
      | |- Z.of_nat ?s * _ < _ =>
          let v := eval vm_compute in (Z.of_nat s) in
          change (Z.of_nat s) with v
      end; lia.
  - apply caffe_set_zero_fill;
      [apply zero_fill_sound_double | exact HN | | exact HY | exact Ha];
      match goal with
      | |- Z.of_nat ?s * _ < _ =>
          let v := eval vm_compute in (Z.of_nat s) in
          change (Z.of_nat s) with v
      end; lia.
  - apply caffe_set_zero_fill;
      [apply zero_fill_sound_half | exact HN | | exact HY | exact Ha];
      match goal with
      | |- Z.of_nat ?s * _ < _ =>
          let v := eval vm_compute in (Z.of_nat s) in
          change (Z.of_nat s) with v
      end; lia.
Qed.

(** set(n = 5, alpha = 0, Y) on five halves that hold 1.0 (0x3C00). *)
Lemma set_zero_is_a_zero_fill_witness :
  zero_fill_matches_stores half_float 5 (S754_zero false)
    (concat (repeat [Byte.x00; Byte.x3c] 5)).
Proof.
  apply (proj2 (proj2 (proj2
           (set_zero_is_a_zero_fill 5 ltac:(by_evaluation))))); by_evaluation.
Defined.

(* ================================================================== *)
(** * caffe_copy *)

(** C9.  caffe_copy(N, X, X) returns the world it was called in: the heap,
    and with it the buffer, is unchanged, and the list of calls issued has
    not grown, so neither memcpy nor cudaMemcpy was called and Caffe::mode()
    was not read; this holds for either build and either mode. *)
Theorem self_copy_is_a_noop (cpu_only : bool) (size N X : Z) (w : world) :
  caffe_copy cpu_only size N X X w = Ok w.
Proof. unfold caffe_copy. rewrite Z.eqb_refl. reflexivity. Qed.

(** A copy between two distinct buffers does read the mode, and then
    copies. *)
Lemma copy_between_buffers_reads_the_mode (cpu_only : bool) (size N X Y : Z)
    (w w' : world) :
  X <> Y -> caffe_copy cpu_only size N X Y w = Ok w' ->
  exists e : copy_event, issued w' = issued w ++ [EvMode; e].
Proof.
  intros HXY. unfold caffe_copy.
  destruct (Z.eqb_spec X Y); [contradiction|]. cbn [negb Caffe_mode].
  destruct (mode w), cpu_only; unfold memcpy, cudaMemcpy; cbn [heap mode issued];
    try discriminate;
    match goal with
    | |- (if ?c then _ else _) = _ -> _ => destruct c; try discriminate
    end;
    intros H; injection H as <-; cbn [issued];
    rewrite <- app_assoc; eexists; reflexivity.
Qed.

(* ================================================================== *)
(** * Sampling loop *)

Lemma buf_write_ok {A : Type} (buf : list A) (k : nat) (v : A) :
  (k < length buf)%nat ->
  buf_write buf (Z.of_nat k) v = Ok (firstn k buf ++ v :: skipn (S k) buf).
Proof.
  intros H. unfold buf_write, vsize. rewrite Nat2Z.id.
  destruct (Z.leb_spec 0 (Z.of_nat k)); [|lia].
  destruct (Z.ltb_spec (Z.of_nat k) (Z.of_nat (length buf))); [reflexivity|lia].
Qed.

(** The values drawn from the position [drawn] on, converted. *)
Lemma sample_loop_spec (get : spec_float -> spec_float)
    (draws : nat -> spec_float) :
  forall (todo k : nat) (buf : list spec_float) (drawn : nat),
    (k + todo <= length buf)%nat ->
    sample_loop get draws todo (Z.of_nat k) buf drawn
    = (Some (firstn k buf
             ++ map (fun j => get (draws (drawn + j)%nat)) (seq 0 todo)
             ++ skipn (k + todo) buf),
       (drawn + todo)%nat, Ok tt).
Proof.
  induction todo as [|todo IH]; intros k buf drawn H.
  - cbn [sample_loop seq map app].
    rewrite !Nat.add_0_r, firstn_skipn. reflexivity.
  - cbn [sample_loop]. rewrite buf_write_ok by lia.
    set (v := get (draws drawn)).
    set (buf' := firstn k buf ++ v :: skipn (S k) buf).
    assert (Lf : length (firstn k buf) = k) by (rewrite length_firstn; lia).
    assert (E : buf' = (firstn k buf ++ [v]) ++ skipn (S k) buf)
      by (subst buf'; rewrite <- app_assoc; reflexivity).
    assert (Lp : length (firstn k buf ++ [v]) = S k)
      by (rewrite length_app, Lf; cbn; lia).
    assert (F1 : firstn (S k) buf' = firstn k buf ++ [v]).
    { rewrite E, <- Lp, firstn_app, firstn_all, Nat.sub_diag.
      cbn [firstn]. apply app_nil_r. }
    assert (F2 : skipn (S k + todo) buf' = skipn (k + S todo) buf).
    { rewrite E, Nat.add_comm, <- skipn_skipn, <- Lp, skipn_app, skipn_all,
        Nat.sub_diag.
      cbn [app skipn]. rewrite skipn_skipn. f_equal. lia. }
    replace (Z.of_nat k + 1) with (Z.of_nat (S k)) by lia.
    rewrite IH.
    2:{ subst buf'. rewrite length_app, Lf. cbn [length].
        rewrite length_skipn. lia. }
    rewrite F1, F2.
    replace (S drawn + todo)%nat with (drawn + S todo)%nat by lia.
    do 3 f_equal.
    rewrite <- app_assoc. f_equal. cbn [seq map app].
    rewrite Nat.add_0_r. fold v. do 2 f_equal.
    rewrite <- seq_shift, map_map.
    apply map_ext. intros j. do 2 f_equal. lia.
Qed.

Lemma sample_loop_run (get : spec_float -> spec_float)
    (draws : nat -> spec_float) (n : Z) (buf : list spec_float) (drawn : nat) :
  0 <= n <= vsize buf ->
  sample_loop get draws (Z.to_nat n) 0 buf drawn
  = (Some (map (fun j => get (draws (drawn + j)%nat)) (seq 0 (Z.to_nat n))
           ++ skipn (Z.to_nat n) buf),
     (drawn + Z.to_nat n)%nat, Ok tt).
Proof.
  intros H. unfold vsize in H. change 0 with (Z.of_nat 0).
  rewrite sample_loop_spec by lia. reflexivity.
Qed.

(* ================================================================== *)
(** * caffe_rng_gaussian *)

Lemma fle_zero_not_fgt (sigma : spec_float) :
  fle sigma fzero = true -> fgt sigma fzero = false.
Proof.
  destruct sigma as [s|s| |s m e]; try destruct s; cbn;
    intros H; try reflexivity; discriminate.
Qed.

(** C8.  With n >= 0 and a buffer, caffe_rng_gaussian with sigma <= 0 fails
    on CHECK_GT(sigma, 0): the buffer is as it was and no value has been
    drawn; sigma is not replaced by another value.  With sigma > 0 the three
    checks pass and the call is the sampling loop, which fills the n
    elements when the buffer has room for them. *)
Theorem gaussian_checks_sigma (get : spec_float -> spec_float)
    (draws : variate_generator) (n : Z) (a sigma : spec_float)
    (buf : list spec_float) (drawn : nat) :
  0 <= n ->
  (fle sigma fzero = true ->
   caffe_rng_gaussian get draws n a sigma (Some buf) drawn
   = (Some buf, drawn, CheckFailed "Check failed: sigma > 0"))
  /\ (fgt sigma fzero = true ->
      caffe_rng_gaussian get draws n a sigma (Some buf) drawn
      = sample_loop get (draws a sigma) (Z.to_nat n) 0 buf drawn
      /\ (n <= vsize buf ->
          caffe_rng_gaussian get draws n a sigma (Some buf) drawn
          = (Some (map (fun j => get (draws a sigma (drawn + j)%nat))
                       (seq 0 (Z.to_nat n))
                   ++ skipn (Z.to_nat n) buf),
             (drawn + Z.to_nat n)%nat, Ok tt))).
Proof.
  intros Hn. unfold caffe_rng_gaussian.
  destruct (Z.leb_spec 0 n); [|lia]. cbn [negb].
  split; intros Hs.
  - rewrite (fle_zero_not_fgt sigma Hs). reflexivity.
  - rewrite Hs. cbn [negb]. split; [reflexivity|].
    intros Hb. apply sample_loop_run. lia.
Qed.

(** sigma = -1 on a buffer of two floats, then sigma = 1. *)
Lemma gaussian_checks_sigma_witness :
  caffe_rng_gaussian_float (fun _ _ _ => S754_finite false 8388608 (-23)) 2
    (S754_zero false) (S754_finite true 8388608 (-23))
    (Some [S754_zero false; S754_zero false]) 7
  = (Some [S754_zero false; S754_zero false], 7%nat,
     CheckFailed "Check failed: sigma > 0")
  /\ caffe_rng_gaussian_float (fun _ _ _ => S754_finite false 8388608 (-23)) 2
       (S754_zero false) (S754_finite false 8388608 (-23))
       (Some [S754_zero false; S754_zero false]) 7
     = (Some [S754_finite false 8388608 (-23);
              S754_finite false 8388608 (-23)], 9%nat, Ok tt).
Proof.
  split.
  - apply (proj1 (gaussian_checks_sigma Get_same
                    (fun _ _ _ => S754_finite false 8388608 (-23)) 2
                    (S754_zero false) (S754_finite true 8388608 (-23))
                    [S754_zero false; S754_zero false] 7
                    ltac:(by_evaluation))).
    by_evaluation.
  - apply (proj2 (gaussian_checks_sigma Get_same
                    (fun _ _ _ => S754_finite false 8388608 (-23)) 2
                    (S754_zero false) (S754_finite false 8388608 (-23))
                    [S754_zero false; S754_zero false] 7
                    ltac:(by_evaluation)));
      by_evaluation.
Defined.

(* ================================================================== *)
(** * Order of the values of a format *)

Lemma digits_bounds (m : positive) :
  2 ^ (Zpos (digits2_pos m) - 1) <= Zpos m < 2 ^ Zpos (digits2_pos m).
Proof.
  induction m as [m IH|m IH|]; cbn [digits2_pos].
  - rewrite Pos2Z.inj_succ.
    replace (Z.succ (Zpos (digits2_pos m)) - 1)
      with (Z.succ (Zpos (digits2_pos m) - 1)) by lia.
    rewrite !Z.pow_succ_r by lia. lia.
  - rewrite Pos2Z.inj_succ.
    replace (Z.succ (Zpos (digits2_pos m)) - 1)
      with (Z.succ (Zpos (digits2_pos m) - 1)) by lia.
    rewrite !Z.pow_succ_r by lia. lia.
  - cbn. lia.
Qed.

Lemma digits_unique (m : positive) (k : Z) :
  2 ^ (k - 1) <= Zpos m < 2 ^ k -> Zpos (digits2_pos m) = k.
Proof.
  intros [Hlo Hhi]. pose proof (digits_bounds m) as [Dlo Dhi].
  assert (Hk : 0 < k).
  { destruct (Z.ltb_spec 0 k); [assumption|].
    destruct (Z.eq_dec k 0) as [->|]; [cbn in Hhi; lia|].
    rewrite Z.pow_neg_r in Hhi by lia. lia. }
  destruct (Z.lt_trichotomy (Zpos (digits2_pos m)) k) as [L|[E|G]];
    [|exact E|].
  - assert (2 ^ Zpos (digits2_pos m) <= 2 ^ (k - 1))
      by (apply Z.pow_le_mono_r; lia). lia.
  - assert (2 ^ k <= 2 ^ (Zpos (digits2_pos m) - 1))
      by (apply Z.pow_le_mono_r; lia). lia.
Qed.

Lemma pos_iter_xO (n q : positive) :
  Zpos (Pos.iter xO q n) = Zpos q * 2 ^ Zpos n.
Proof.
  induction n as [|n IH] using Pos.peano_ind.
  - cbn. lia.
  - rewrite Pos.iter_succ, Pos2Z.inj_xO, IH, Pos2Z.inj_succ,
      Z.pow_succ_r by lia. lia.
Qed.

(** Comparison of two positive finite values, and of two negative ones. *)
Lemma flt_pos (m1 : positive) (e1 : Z) (m2 : positive) (e2 : Z) :
  flt (S754_finite false m1 e1) (S754_finite false m2 e2) = true
  <-> e1 < e2 \/ (e1 = e2 /\ Zpos m1 < Zpos m2).
Proof.
  unfold flt, SFltb, SFcompare.
  destruct (Z.compare_spec e1 e2); [|split; intros; [lia|reflexivity]|];
    [|split; intros; [discriminate|lia]].
  change (Pos.compare_cont Eq m1 m2) with (Pos.compare m1 m2).
  destruct (Pos.compare_spec m1 m2); split; intros; subst;
    try discriminate; try reflexivity; lia.
Qed.

Lemma fle_pos (m1 : positive) (e1 : Z) (m2 : positive) (e2 : Z) :
  fle (S754_finite false m1 e1) (S754_finite false m2 e2) = true
  <-> e1 < e2 \/ (e1 = e2 /\ Zpos m1 <= Zpos m2).
Proof.
  unfold fle, SFleb, SFcompare.
  destruct (Z.compare_spec e1 e2); [|split; intros; [lia|reflexivity]|];
    [|split; intros; [discriminate|lia]].
  change (Pos.compare_cont Eq m1 m2) with (Pos.compare m1 m2).
  destruct (Pos.compare_spec m1 m2); split; intros; subst;
    try discriminate; try reflexivity; lia.
Qed.

Lemma flt_neg (m1 : positive) (e1 : Z) (m2 : positive) (e2 : Z) :
  flt (S754_finite true m1 e1) (S754_finite true m2 e2) = true
  <-> e2 < e1 \/ (e1 = e2 /\ Zpos m2 < Zpos m1).
Proof.
  unfold flt, SFltb, SFcompare.
  destruct (Z.compare_spec e1 e2); [|split; intros; [discriminate|lia]|];
    [|split; intros; [lia|reflexivity]].
  change (Pos.compare_cont Eq m1 m2) with (Pos.compare m1 m2).
  destruct (Pos.compare_spec m1 m2); cbn [CompOpp]; split; intros; subst;
    try discriminate; try reflexivity; lia.
Qed.

Lemma fle_neg (m1 : positive) (e1 : Z) (m2 : positive) (e2 : Z) :
  fle (S754_finite true m1 e1) (S754_finite true m2 e2) = true
  <-> e2 < e1 \/ (e1 = e2 /\ Zpos m2 <= Zpos m1).
Proof.
  unfold fle, SFleb, SFcompare.
  destruct (Z.compare_spec e1 e2); [|split; intros; [discriminate|lia]|];
    [|split; intros; [lia|reflexivity]].
  change (Pos.compare_cont Eq m1 m2) with (Pos.compare m1 m2).
  destruct (Pos.compare_spec m1 m2); cbn [CompOpp]; split; intros; subst;
    try discriminate; try reflexivity; lia.
Qed.

(** Brings a comparison of two finite values of the same sign to a
    statement on exponents and mantissas. *)
Ltac to_mantissas :=
  repeat match goal with
         | H : flt (S754_finite false _ _) (S754_finite false _ _) = true |- _ =>
             apply flt_pos in H
         | H : flt (S754_finite true _ _) (S754_finite true _ _) = true |- _ =>
             apply flt_neg in H
         | |- flt (S754_finite false _ _) (S754_finite false _ _) = true =>
             apply flt_pos
         | |- flt (S754_finite true _ _) (S754_finite true _ _) = true =>
             apply flt_neg
         | |- fle (S754_finite false _ _) (S754_finite false _ _) = true =>
             apply fle_pos
         | |- fle (S754_finite true _ _) (S754_finite true _ _) = true =>
             apply fle_neg
         end.

Section FloatOrder.
Variable f : format.
Hypothesis Hf : format_ok f.

Lemma valid_finite_inv (s : bool) (m : positive) (e : Z) :
valid f (S754_finite s m e) ->
Zpos (digits2_pos m) <= prec f
/\ fmt_emin f <= e <= emax f - prec f
/\ (fmt_emin f < e -> Zpos (digits2_pos m) = prec f).
Proof.
unfold valid, valid_binary, bounded, canonical_mantissa, fexp, fmt_emin.
intros H. apply andb_prop in H. destruct H as [H1 H2].
apply Z.eqb_eq in H1. apply Z.leb_le in H2. lia.
Qed.

Lemma valid_finite_intro (s : bool) (m : positive) (e : Z) :
Zpos (digits2_pos m) <= prec f ->
fmt_emin f <= e <= emax f - prec f ->
(fmt_emin f < e -> Zpos (digits2_pos m) = prec f) ->
valid f (S754_finite s m e).
Proof.
unfold valid, valid_binary, bounded, canonical_mantissa, fexp, fmt_emin.
intros H1 H2 H3. apply andb_true_intro. split.
- apply Z.eqb_eq. lia.
- apply Z.leb_le. lia.
Qed.

(** The mantissa of a valid value has at most [prec] bits, and exactly
  [prec] above the least exponent. *)
Lemma valid_mantissa (s : bool) (m : positive) (e : Z) :
valid f (S754_finite s m e) ->
Zpos m < 2 ^ prec f
/\ fmt_emin f <= e <= emax f - prec f
/\ (fmt_emin f < e -> 2 ^ (prec f - 1) <= Zpos m).
Proof.
intros V. destruct (valid_finite_inv s m e V) as (D & E & N).
pose proof (digits_bounds m) as [Dlo Dhi].
repeat split; try lia.
- assert (2 ^ Zpos (digits2_pos m) <= 2 ^ prec f)
    by (apply Z.pow_le_mono_r; lia). lia.
- intros He. rewrite <- (N He). exact Dlo.
Qed.

Lemma pow_prec_pos : 2 <= 2 ^ (prec f - 1) /\ 2 ^ prec f = 2 * 2 ^ (prec f - 1).
Proof.
destruct Hf as [H1 H2]. split.
- change 2 with (2 ^ 1) at 1. apply Z.pow_le_mono_r; lia.
- replace (prec f) with (Z.succ (prec f - 1)) at 1 by lia.
  apply Z.pow_succ_r. lia.
Qed.

Lemma fmax_eq :
fmax f = S754_finite false (Z.to_pos (2 ^ prec f - 1)) (emax f - prec f).
Proof.
unfold fmax, SFmax_float. f_equal.
destruct Hf as [H1 H2]. pose proof pow_prec_pos as [P1 P2].
apply Pos2Z.inj. rewrite Z2Pos.id by lia.
assert (E : Zpos (Pos.iter xO 1%positive (Z.to_pos (prec f))) = 2 ^ prec f).
{ rewrite pos_iter_xO, Z2Pos.id by lia. lia. }
rewrite Pos2Z.inj_sub by lia.
rewrite E. reflexivity.
Qed.

Lemma float_next_case (b hi : spec_float) :
valid f b -> is_finite b = true -> float_next f b = Ok hi ->
next_case f b hi.
Proof.
intros V Fb H. pose proof pow_prec_pos as [P1 P2].
destruct b as [s|s| |[|] m e]; try discriminate.
- cbn in H. injection H as <-. constructor.
- destruct (valid_mantissa _ _ _ V) as (Hm & He & Hn).
  cbn [float_next] in H. unfold pred_pos in H.
  destruct (Z.eqb_spec (Zpos m) (2 ^ (prec f - 1))) as [Em|Em];
    destruct (Z.ltb_spec (fmt_emin f) e) as [Ee|Ee]; cbn [andb] in H.
  + injection H as <-. apply next_exponent_down; lia.
  + destruct m; injection H as <-;
      try apply next_is_zero; apply next_toward_zero; lia.
  + destruct m; injection H as <-;
      try apply next_is_zero; apply next_toward_zero; lia.
  + destruct m; injection H as <-;
      try apply next_is_zero; apply next_toward_zero; lia.
- destruct (valid_mantissa _ _ _ V) as (Hm & He & Hn).
  cbn [float_next] in H. unfold succ_pos in H.
  destruct (Z.ltb_spec (Zpos m + 1) (2 ^ prec f)).
  + injection H as <-. apply next_same_exponent; lia.
  + destruct (Z.leb_spec (e + 1) (emax f - prec f)); [|discriminate].
    injection H as <-. apply next_exponent_up; lia.
Qed.

(** [float_next b] is above [b]. *)
Lemma next_above (b hi : spec_float) :
valid f b -> is_finite b = true -> float_next f b = Ok hi ->
flt b hi = true.
Proof.
intros V Fb H. pose proof pow_prec_pos as [P1 P2].
destruct (float_next_case b hi V Fb H); try reflexivity;
  to_mantissas; lia.
Qed.

(** No value of the format lies between [b] and [float_next b]. *)
Lemma below_next (b hi x : spec_float) :
valid f b -> valid f x -> is_finite b = true ->
float_next f b = Ok hi -> flt x hi = true -> fle x b = true.
Proof.
intros V Vx Fb H L. pose proof pow_prec_pos as [P1 P2].
destruct (float_next_case b hi V Fb H);
  try destruct (valid_mantissa _ _ _ V) as (Hm & He & Hn);
  destruct x as [sx|sx| |sx mx ex];
  try destruct (valid_mantissa _ _ _ Vx) as (Hmx & Hex & Hnx);
  try destruct sx; try destruct s;
  try discriminate; try reflexivity;
  to_mantissas; try lia.
Qed.

(** [float_next b] is the least value of the format above [b]. *)
Lemma next_least (b hi x : spec_float) :
valid f b -> valid f x -> is_finite b = true ->
float_next f b = Ok hi -> flt b x = true -> fle hi x = true.
Proof.
intros V Vx Fb H L. pose proof pow_prec_pos as [P1 P2].
destruct (float_next_case b hi V Fb H);
  try destruct (valid_mantissa _ _ _ V) as (Hm & He & Hn);
  destruct x as [sx|sx| |sx mx ex];
  try destruct (valid_mantissa _ _ _ Vx) as (Hmx & Hex & Hnx);
  try destruct sx; try destruct s;
  try discriminate; try reflexivity;
  to_mantissas; try lia.
Qed.

Lemma valid_of_bounds (s : bool) (m : positive) (e : Z) :
Zpos m < 2 ^ prec f ->
fmt_emin f <= e <= emax f - prec f ->
(fmt_emin f < e -> 2 ^ (prec f - 1) <= Zpos m) ->
valid f (S754_finite s m e).
Proof.
intros Hm He Hn. destruct Hf as [H1 H2].
pose proof (digits_bounds m) as [Dlo Dhi].
apply valid_finite_intro; [|exact He|].
- destruct (Z.le_gt_cases (Zpos (digits2_pos m)) (prec f)) as [L|G];
    [exact L|].
  assert (2 ^ prec f <= 2 ^ (Zpos (digits2_pos m) - 1))
    by (apply Z.pow_le_mono_r; lia). lia.
- intros E. apply digits_unique. split; [apply Hn, E | exact Hm].
Qed.

(** [float_next b] is a value of the format. *)
Lemma next_valid (b hi : spec_float) :
valid f b -> is_finite b = true -> float_next f b = Ok hi -> valid f hi.
Proof.
intros V Fb H. pose proof pow_prec_pos as [P1 P2]. destruct Hf as [H1 H2].
destruct (float_next_case b hi V Fb H);
  try destruct (valid_mantissa _ _ _ V) as (Hm & He & Hn);
  try reflexivity;
  apply valid_of_bounds; unfold fmt_emin, SpecFloat.emin in *; lia.
Qed.

Lemma next_finite (b hi : spec_float) :
valid f b -> is_finite b = true -> float_next f b = Ok hi ->
is_finite hi = true.
Proof.
intros V Fb H. destruct (float_next_case b hi V Fb H); reflexivity.
Qed.

(** Below the largest finite value [float_next] is defined, and it is what
  [caffe_nextafter] returns. *)
Lemma caffe_nextafter_below_max (b : spec_float) :
valid f b -> is_finite b = true -> flt b (fmax f) = true ->
exists hi : spec_float,
  caffe_nextafter f b = Ok hi /\ float_next f b = Ok hi.
Proof.
intros V Fb L. unfold caffe_nextafter, boost_nextafter. rewrite L.
pose proof pow_prec_pos as [P1 P2]. rewrite fmax_eq in L.
destruct b as [s|s| |[|] m e]; try discriminate.
- eexists; split; reflexivity.
- cbn [float_next]. destruct (pred_pos f m e) as [[m' e']|];
    eexists; split; reflexivity.
- cbn [float_next]. unfold succ_pos.
  destruct (valid_mantissa _ _ _ V) as (Hm & He & Hn).
  apply flt_pos in L. rewrite Z2Pos.id in L by lia.
  destruct (Z.ltb_spec (Zpos m + 1) (2 ^ prec f));
    [eexists; split; reflexivity|].
  destruct (Z.leb_spec (e + 1) (emax f - prec f));
    [eexists; split; reflexivity | lia].
Qed.
End FloatOrder.

(** ** Equality of values *)

Lemma feq_fle (a b : spec_float) : feq a b = true -> fle a b = true.
Proof.
  unfold feq, fle, SFeqb, SFleb.
  destruct (SFcompare a b) as [[| |]|]; intros H; try discriminate; reflexivity.
Qed.

Lemma feq_finite (s1 : bool) (m1 : positive) (e1 : Z)
    (s2 : bool) (m2 : positive) (e2 : Z) :
  feq (S754_finite s1 m1 e1) (S754_finite s2 m2 e2) = true
  <-> s1 = s2 /\ m1 = m2 /\ e1 = e2.
Proof.
  unfold feq, SFeqb, SFcompare.
  change (Pos.compare_cont Eq m1 m2) with (Pos.compare m1 m2).
  destruct s1, s2; destruct (Z.compare_spec e1 e2);
    destruct (Pos.compare_spec m1 m2); cbn [CompOpp];
    split; intros HH; try discriminate; try reflexivity;
    try (destruct HH as (Hs & Hm & He); try discriminate; subst; lia);
    subst; auto.
Qed.

(** Values that compare equal are the same value, up to the sign of zero. *)
Lemma feq_same_value (x a : spec_float) :
  feq x a = true -> same_value x a.
Proof.
  destruct x as [sx|sx| |sx mx ex], a as [sa|sa| |sa ma ea];
    try (intros H; discriminate H);
    try (destruct sx; intros H; discriminate H);
    try (destruct sa; intros H; discriminate H).
  - intros _. right. split; reflexivity.
  - destruct sx, sa; intros H; try discriminate; left; reflexivity.
  - intros H. apply feq_finite in H. destruct H as (-> & -> & ->).
    left. reflexivity.
Qed.

(** A value between two values that compare equal compares equal to them. *)
Lemma fle_fle_feq (a b x : spec_float) :
  feq a b = true -> fle a x = true -> fle x b = true -> feq x a = true.
Proof.
  intros E. apply feq_same_value in E.
  destruct E as [<-|[Za Zb]].
  - destruct a as [sa|sa| |sa ma ea], x as [sx|sx| |sx mx ex];
      try destruct sa; try destruct sx;
      intros H1 H2; try discriminate; try reflexivity;
      apply feq_finite;
      first [apply fle_pos in H1; apply fle_pos in H2
            |apply fle_neg in H1; apply fle_neg in H2];
      repeat split; try lia;
      apply Pos2Z.inj; lia.
  - destruct a as [sa|sa| |sa ma ea]; try discriminate.
    destruct b as [sb|sb| |sb mb eb]; try discriminate.
    destruct x as [sx|sx| |sx mx ex]; try destruct sx;
      intros H1 H2; try discriminate; reflexivity.
Qed.

(** Less-than excludes the converse less-or-equal, on finite values. *)
Lemma flt_not_fle (x y : spec_float) :
  flt x y = true -> fle y x = false.
Proof.
  destruct x as [sx|sx| |sx mx ex], y as [sy|sy| |sy my ey];
    try destruct sx; try destruct sy;
    intros H; try discriminate; try reflexivity.
  - apply flt_neg in H.
    destruct (fle (S754_finite true my ey) (S754_finite true mx ex)) eqn:E;
      [|reflexivity].
    apply fle_neg in E. lia.
  - apply flt_pos in H.
    destruct (fle (S754_finite false my ey) (S754_finite false mx ex)) eqn:E;
      [|reflexivity].
    apply fle_pos in E. lia.
Qed.

(* ================================================================== *)
(** * caffe_rng_uniform *)

(** The call on a buffer that has room, once the three checks pass. *)
Lemma uniform_run (f : format) (get : spec_float -> spec_float)
    (draws : variate_generator) (n : Z) (a b hi : spec_float)
    (buf : list spec_float) (drawn : nat) :
  0 <= n <= vsize buf -> fle a b = true -> caffe_nextafter f b = Ok hi ->
  caffe_rng_uniform f get draws n a b (Some buf) drawn
  = (Some (map (fun j => get (draws a hi (drawn + j)%nat))
               (seq 0 (Z.to_nat n))
           ++ skipn (Z.to_nat n) buf),
     (drawn + Z.to_nat n)%nat, Ok tt).
Proof.
  intros Hn Hab Hhi. unfold caffe_rng_uniform.
  destruct (Z.leb_spec 0 n); [|lia]. cbn [negb].
  rewrite Hab, Hhi. cbn [negb]. apply sample_loop_run. exact Hn.
Qed.

(** C4 (as amended).  For n >= 0, a buffer with room for n elements and
    bounds a <= b with b finite and below the largest finite value of the
    compute type: the upper bound of the half-open distribution is
    caffe_nextafter(b), which is a value of the format, is above b and is the
    least such value; b itself is in the range drawn from; with a primitive
    that honours its range the call succeeds, every value drawn satisfies
    a <= s <= b, and what is written to r[i] is Get<Dtype>(s) for the i-th
    value drawn (s itself for the native type pairs). *)
Theorem uniform_upper_bound_is_inclusive (f : format)
    (get : spec_float -> spec_float) (draws : variate_generator) (n : Z)
    (a b : spec_float) (buf : list spec_float) (drawn : nat) :
  format_ok f ->
  valid f b -> is_finite b = true ->
  flt b (fmax f) = true -> fle a b = true ->
  0 <= n <= vsize buf ->
  exists hi : spec_float,
    caffe_nextafter f b = Ok hi
    /\ valid f hi /\ flt b hi = true
    /\ (forall x : spec_float, valid f x -> flt b x = true -> fle hi x = true)
    /\ uniform_real_range a hi b = true
    /\ (honours_range f draws a hi ->
        caffe_rng_uniform f get draws n a b (Some buf) drawn
        = (Some (map (fun j => get (draws a hi (drawn + j)%nat))
                     (seq 0 (Z.to_nat n))
                 ++ skipn (Z.to_nat n) buf),
           (drawn + Z.to_nat n)%nat, Ok tt)
        /\ forall k : nat,
            fle a (draws a hi k) = true /\ fle (draws a hi k) b = true).
Proof.
  intros Hf Vb Fb Lmax Hab Hn.
  destruct (caffe_nextafter_below_max f Hf b Vb Fb Lmax) as (hi & Hc & Hnext).
  exists hi.
  pose proof (next_above f Hf b hi Vb Fb Hnext) as Habove.
  repeat split.
  - exact Hc.
  - exact (next_valid f Hf b hi Vb Fb Hnext).
  - exact Habove.
  - intros x Vx Lx. exact (next_least f Hf b hi x Vb Vx Fb Hnext Lx).
  - unfold uniform_real_range. rewrite Hab, Habove. reflexivity.
  - apply uniform_run; assumption.
  - destruct (H k) as [_ R]. unfold uniform_real_range in R.
    apply andb_prop in R. apply R.
  - destruct (H k) as [Vd R]. unfold uniform_real_range in R.
    apply andb_prop in R. destruct R as [_ R].
    exact (below_next f Hf b hi (draws a hi k) Vb Vd Fb Hnext R).
Qed.

(** uniform<float,float>(2, 0, 1, r), the primitive returning 1 each time:
    the bound b = 1 is written. *)
Lemma uniform_upper_bound_is_inclusive_witness :
  exists hi : spec_float,
    caffe_nextafter binary32 f32_one = Ok hi
    /\ valid binary32 hi
    /\ flt f32_one hi = true
    /\ (forall x : spec_float, valid binary32 x ->
        flt f32_one x = true -> fle hi x = true)
    /\ uniform_real_range fzero hi f32_one = true
    /\ (honours_range binary32 (fun _ _ _ => f32_one) fzero hi ->
        caffe_rng_uniform binary32 Get_same (fun _ _ _ => f32_one) 2
          fzero f32_one (Some [fzero; fzero; fzero]) 0
        = (Some (map (fun j => Get_same
                        ((fun _ _ _ => f32_one) fzero hi (0 + j)%nat))
                     (seq 0 (Z.to_nat 2))
                 ++ skipn (Z.to_nat 2) [fzero; fzero; fzero]),
           (0 + Z.to_nat 2)%nat, Ok tt)
        /\ forall k : nat,
            fle fzero ((fun _ _ _ => f32_one) fzero hi k) = true
            /\ fle ((fun _ _ _ => f32_one) fzero hi k) f32_one = true).
Proof.
  apply (uniform_upper_bound_is_inclusive binary32 Get_same
           (fun _ _ _ => f32_one) 2 fzero f32_one [fzero; fzero; fzero] 0);
    by_evaluation.
Defined.

(** C4, counterexample.  (1) uniform<half,float>(1, a, a, r) with
    a = 1 + 2^-12: the value a is in the range drawn from, and when it is
    drawn the half 1.0 is written, which, converted back to float for the
    comparison, is below a.  (2) With b the largest finite float,
    caffe_nextafter(b) is b, which is not above b, and b is not in the range
    drawn from. *)
Lemma uniform_half_sample_leaves_the_range :
  (exists hi r0 : spec_float,
      caffe_nextafter binary32 f32_above_one = Ok hi
      /\ uniform_real_range f32_above_one hi f32_above_one = true
      /\ caffe_rng_uniform_half (fun _ _ _ => f32_above_one) 1
           f32_above_one f32_above_one (Some [fzero]) 0
         = (Some [r0], 1%nat, Ok tt)
      /\ fle f32_above_one (Get_float_of_half r0) = false)
  /\ caffe_nextafter binary32 (fmax binary32) = Ok (fmax binary32)
  /\ flt (fmax binary32) (fmax binary32) = false
  /\ uniform_real_range fzero (fmax binary32) (fmax binary32) = false.
Proof.
  split; [|repeat split; reflexivity].
  exists (S754_finite false 8390657 (-23)), (S754_finite false 1024 (-10)).
  repeat split; vm_compute; reflexivity.
Qed.

(* ================================================================== *)
(** ** Equal bounds *)

(** C10 (as amended).  With bounds that compare equal, finite and below the
    largest finite value of the compute type: the check a <= b passes, a is
    the only value (up to the sign of zero) of [a, caffe_nextafter(b)), and
    with a primitive that honours its range the call succeeds and every
    r[i] is Get<Dtype>(a), up to the sign of zero; [get] has to map a zero
    to a zero, as the three conversions do. *)
Theorem uniform_equal_bounds_fill_constant (f : format)
    (get : spec_float -> spec_float) (draws : variate_generator) (n : Z)
    (a b : spec_float) (buf : list spec_float) (drawn : nat) :
  format_ok f ->
  (forall s : bool, is_zero (get (S754_zero s)) = true) ->
  valid f b -> is_finite b = true ->
  flt b (fmax f) = true -> feq a b = true ->
  0 <= n <= vsize buf ->
  fle a b = true
  /\ exists hi : spec_float,
      caffe_nextafter f b = Ok hi
      /\ uniform_real_range a hi a = true
      /\ (forall x : spec_float, valid f x ->
          uniform_real_range a hi x = true -> feq x a = true)
      /\ (honours_range f draws a hi ->
          exists r' : list spec_float,
            caffe_rng_uniform f get draws n a b (Some buf) drawn
            = (Some r', (drawn + Z.to_nat n)%nat, Ok tt)
            /\ length r' = length buf
            /\ forall i : nat, (i < Z.to_nat n)%nat ->
               same_value (nth i r' fzero) (get a)).
Proof.
  intros Hf Hget Vb Fb Lmax Eab Hn.
  pose proof (feq_fle a b Eab) as Hab.
  assert (Fa : is_finite a = true).
  { destruct (feq_same_value a b Eab) as [->|[Za _]]; [exact Fb|].
    destruct a; try discriminate; reflexivity. }
  split; [exact Hab|].
  destruct (caffe_nextafter_below_max f Hf b Vb Fb Lmax) as (hi & Hc & Hnext).
  exists hi.
  assert (Honly : forall x : spec_float, valid f x ->
             uniform_real_range a hi x = true -> feq x a = true).
  { intros x Vx R. unfold uniform_real_range in R.
    apply andb_prop in R. destruct R as [R1 R2].
    apply (fle_fle_feq a b x Eab R1).
    exact (below_next f Hf b hi x Vb Vx Fb Hnext R2). }
  repeat split.
  - exact Hc.
  - unfold uniform_real_range.
    assert (Haa : fle a a = true).
    { destruct a as [s|s| |s m e]; try discriminate; [reflexivity|].
      destruct s; [apply fle_neg | apply fle_pos]; lia. }
    rewrite Haa.
    assert (Hah : flt a hi = true).
    { apply feq_same_value in Eab. destruct Eab as [->|[Za Zb]].
      - exact (next_above f Hf b hi Vb Fb Hnext).
      - destruct a as [sa|sa| |sa ma ea]; try discriminate.
        destruct b as [sb|sb| |sb mb eb]; try discriminate.
        cbn in Hnext. injection Hnext as <-. reflexivity. }
    rewrite Hah. reflexivity.
  - exact Honly.
  - intros Hd. eexists.
    split; [apply uniform_run with (hi := hi); assumption|].
    unfold vsize in Hn. split.
    + rewrite length_app, length_map, length_seq, length_skipn. lia.
    + intros i Hi.
      rewrite app_nth1 by (rewrite length_map, length_seq; exact Hi).
      rewrite nth_map_seq by exact Hi.
      destruct (Hd (drawn + i)%nat) as [Vd R].
      pose proof (Honly _ Vd R) as E.
      apply feq_same_value in E. destruct E as [->|[Zs Za]].
      * left. reflexivity.
      * destruct (draws a hi (drawn + i)%nat) as [sd| | |]; try discriminate.
        destruct a as [sa| | |]; try discriminate.
        right. split; apply Hget.
Qed.

(** uniform<half,float>(2, a, a, r) with a = 1 + 2^-12, the primitive
    returning its lower bound: both elements are Get<half>(a). *)
Lemma uniform_equal_bounds_fill_constant_witness :
  exists hi : spec_float,
    caffe_nextafter binary32 f32_above_one = Ok hi
    /\ uniform_real_range f32_above_one hi f32_above_one = true
    /\ (forall x : spec_float, valid binary32 x ->
        uniform_real_range f32_above_one hi x = true ->
        feq x f32_above_one = true)
    /\ (honours_range binary32 (fun lo _ _ => lo) f32_above_one hi ->
        exists r' : list spec_float,
          caffe_rng_uniform binary32 Get_half_of_float (fun lo _ _ => lo) 2
            f32_above_one f32_above_one (Some [fzero; fzero]) 0
          = (Some r', (0 + Z.to_nat 2)%nat, Ok tt)
          /\ length r' = length [fzero; fzero]
          /\ forall i : nat, (i < Z.to_nat 2)%nat ->
             same_value (nth i r' fzero) (Get_half_of_float f32_above_one)).
Proof.
  apply (proj2 (uniform_equal_bounds_fill_constant binary32 Get_half_of_float
                  (fun lo _ _ => lo) 2 f32_above_one f32_above_one
                  [fzero; fzero] 0
                  ltac:(by_evaluation) ltac:(by_evaluation)
                  ltac:(by_evaluation) ltac:(by_evaluation)
                  ltac:(by_evaluation) ltac:(by_evaluation)
                  ltac:(by_evaluation))).
Defined.

(** C10, counterexample.  With a = b = FLT_MAX the check a <= b passes, but
    caffe_nextafter(b) is b itself (the direction of nextafter is the largest
    finite value), the range [a, b) is empty, a is not in it, and no
    primitive can honour it: no value can be drawn to fill the buffer
    with. *)
Lemma uniform_equal_bounds_at_max_has_empty_range :
  feq (fmax binary32) (fmax binary32) = true
  /\ fle (fmax binary32) (fmax binary32) = true
  /\ caffe_nextafter binary32 (fmax binary32) = Ok (fmax binary32)
  /\ uniform_real_range (fmax binary32) (fmax binary32) (fmax binary32) = false
  /\ (forall s : spec_float,
        uniform_real_range (fmax binary32) (fmax binary32) s = false)
  /\ forall draws : variate_generator,
      ~ honours_range binary32 draws (fmax binary32) (fmax binary32).
Proof.
  assert (E : forall s : spec_float,
             uniform_real_range (fmax binary32) (fmax binary32) s = false).
  { intros s. unfold uniform_real_range.
    destruct (flt s (fmax binary32)) eqn:E.
    - rewrite (flt_not_fle _ _ E). reflexivity.
    - apply andb_false_r. }
  repeat split; try reflexivity; [exact E|].
  intros draws H. destruct (H 0%nat) as [_ R]. rewrite E in R. discriminate.
Qed.

(* ================================================================== *)
(** * Further properties

    ** Elementwise operations in the arena *)

Lemma buf_read_getz (mem : list half) (p : Z) :
  0 <= p < vsize mem -> buf_read mem p = Ok (getz mem p).
Proof.
  intros [H0 H1]. unfold vsize in H1. unfold getz.
  rewrite <- (Z2Nat.id p) at 1 by lia.
  apply buf_read_nth. lia.
Qed.

Lemma getz_buf_write (mem : list half) (q : Z) (v : half) :
  0 <= q < vsize mem ->
  exists mem' : list half,
    buf_write mem q v = Ok mem'
    /\ length mem' = length mem
    /\ forall p : Z, 0 <= p ->
       getz mem' p = if p =? q then v else getz mem p.
Proof.
  intros [H0 H1]. unfold vsize in H1.
  assert (E : buf_write mem q v
              = Ok (firstn (Z.to_nat q) mem ++ v :: skipn (S (Z.to_nat q)) mem)).
  { unfold buf_write, vsize.
    destruct (Z.leb_spec 0 q); [|lia].
    destruct (Z.ltb_spec q (Z.of_nat (length mem))); [reflexivity | lia]. }
  rewrite E. eexists. split; [reflexivity|].
  assert (Lf : length (firstn (Z.to_nat q) mem) = Z.to_nat q)
    by (rewrite length_firstn; lia).
  split.
  - rewrite length_app, Lf. cbn [length]. rewrite length_skipn. lia.
  - intros p Hp. unfold getz.
    destruct (Z.eqb_spec p q) as [->|Hne].
    + rewrite app_nth2 by lia. rewrite Lf, Nat.sub_diag. reflexivity.
    + destruct (Z.lt_ge_cases p q) as [Hlt|Hge].
      * rewrite app_nth1 by lia.
        rewrite <- (firstn_skipn (Z.to_nat q) mem) at 2.
        rewrite app_nth1 by lia. reflexivity.
      * rewrite app_nth2 by lia. rewrite Lf.
        destruct (Z.to_nat p - Z.to_nat q)%nat as [|d] eqn:Ed; [lia|].
        cbn [nth].
        rewrite <- (firstn_skipn (S (Z.to_nat q)) mem) at 2.
        rewrite app_nth2 by (rewrite length_firstn; lia).
        rewrite length_firstn. f_equal. lia.
Qed.

Section BinaryLoop.
Variable op : half -> half -> half.
Variables (a b y n : Z) (mem : list half).
Hypothesis Ha : in_arena mem a n.
Hypothesis Hb : in_arena mem b n.
Hypothesis Hy : in_arena mem y n.
Hypothesis Sa : forward_safe a y n.
Hypothesis Sb : forward_safe b y n.

(** After [i] iterations the first [i] cells of the destination are written
    and no other cell has changed. *)
Lemma binary_loop_invariant :
  forall (todo : nat) (i : Z) (m : list half),
    0 <= i -> i + Z.of_nat todo = n ->
    binary_result op a b y i mem m ->
    exists mem' : list half,
      binary_loop op a b y todo i m = Ok mem'
      /\ binary_result op a b y n mem mem'.
Proof.
  unfold in_arena, forward_safe, vsize in *.
  induction todo as [|todo IH]; intros i m Hi Hn (Hl & Hw & Hf).
  - exists m. split; [reflexivity|].
    assert (E : i = n) by lia. rewrite <- E. repeat split; assumption.
  - cbn [binary_loop].
    assert (Ra : getz m (a + i) = getz mem (a + i)) by (apply Hf; lia).
    assert (Rb : getz m (b + i) = getz mem (b + i)) by (apply Hf; lia).
    rewrite !buf_read_getz by (unfold vsize; lia).
    cbn [bind].
    rewrite Ra, Rb.
    destruct (getz_buf_write m (y + i)
                (op (getz mem (a + i)) (getz mem (b + i))))
      as (m' & Hw' & Hl' & Hg'); [unfold vsize; lia|].
    rewrite Hw'. cbn [bind].
    apply IH; [lia | lia |].
    repeat split.
    + congruence.
    + intros j Hj. rewrite Hg' by lia.
      destruct (Z.eqb_spec (y + j) (y + i)) as [E|E].
      * replace j with i by lia. reflexivity.
      * apply Hw. lia.
    + intros p Hp Hout. rewrite Hg' by lia.
      destruct (Z.eqb_spec p (y + i)); [lia|].
      apply Hf; lia.
Qed.

Lemma binary_loop_spec :
  0 <= n ->
  exists mem' : list half,
    binary_loop op a b y (Z.to_nat n) 0 mem = Ok mem'
    /\ binary_result op a b y n mem mem'.
Proof.
  intros Hn. apply binary_loop_invariant; try lia.
  repeat split; try reflexivity. intros j Hj. lia.
Qed.
End BinaryLoop.

(** The loop with one operand is the loop with two operands that reads its
    operand twice. *)
Lemma unary_loop_as_binary (op : half -> half) (x y : Z) :
  forall (todo : nat) (i : Z) (mem : list half),
    unary_loop op x y todo i mem
    = binary_loop (fun u _ => op u) x x y todo i mem.
Proof.
  induction todo as [|todo IH]; intros i mem; [reflexivity|].
  cbn [unary_loop binary_loop].
  destruct (buf_read mem (x + i)) as [xv| | |]; try reflexivity.
  cbn [bind].
  destruct (buf_write mem (y + i) (op xv)) as [mem'| | |]; try reflexivity.
  cbn [bind]. apply IH.
Qed.

Lemma unary_loop_spec (op : half -> half) (x y n : Z) (mem : list half) :
  in_arena mem x n -> in_arena mem y n -> forward_safe x y n -> 0 <= n ->
  exists mem' : list half,
    unary_loop op x y (Z.to_nat n) 0 mem = Ok mem'
    /\ unary_result op x y n mem mem'.
Proof.
  intros Hx Hy Hs Hn. rewrite unary_loop_as_binary.
  exact (binary_loop_spec (fun u _ => op u) x x y n mem Hx Hx Hy Hs Hs Hn).
Qed.

(** X1.  caffe_add, caffe_sub, caffe_mul and caffe_div on halves, for
    operands and a destination inside the arena: when the destination does
    not start inside an operand after its first cell (it may be an operand
    itself, or lie before or behind it), the call returns, y[j] holds the
    result of the operation on a[j] and b[j] as they were before the call
    for every j < n, and no other cell of the arena changes. *)
Theorem binary_ops_allow_the_output_to_be_an_operand
    (n a b y : Z) (mem : list half) :
  0 <= n ->
  in_arena mem a n -> in_arena mem b n -> in_arena mem y n ->
  forward_safe a y n -> forward_safe b y n ->
  (exists m : list half,
      caffe_add_half n a b y mem = Ok m
      /\ binary_result add_op a b y n mem m)
  /\ (exists m : list half,
      caffe_sub_half n a b y mem = Ok m
      /\ binary_result sub_op a b y n mem m)
  /\ (exists m : list half,
      caffe_mul_half n a b y mem = Ok m
      /\ binary_result mul_op a b y n mem m)
  /\ (exists m : list half,
      caffe_div_half n a b y mem = Ok m
      /\ binary_result div_op a b y n mem m).
Proof.
  intros Hn Ha Hb Hy Sa Sb.
  repeat split; apply binary_loop_spec; assumption.
Qed.

(** caffe_add(2, a, b, a) with a = [1, 2] at cell 0 and b = [3, 4] at
    cell 2: the sum [4, 6] replaces a. *)
Lemma binary_ops_allow_the_output_to_be_an_operand_witness :
  exists m : list half,
    caffe_add_half 2 0 2 0
      [S754_finite false 1024 (-10); S754_finite false 1024 (-9);
       S754_finite false 1536 (-9); S754_finite false 1024 (-8)] = Ok m
    /\ binary_result add_op 0 2 0 2
         [S754_finite false 1024 (-10); S754_finite false 1024 (-9);
          S754_finite false 1536 (-9); S754_finite false 1024 (-8)] m.
Proof.
  apply (proj1 (binary_ops_allow_the_output_to_be_an_operand 2 0 2 0
                  [S754_finite false 1024 (-10); S754_finite false 1024 (-9);
                   S754_finite false 1536 (-9); S754_finite false 1024 (-8)]
                  ltac:(by_evaluation) ltac:(by_evaluation)
                  ltac:(by_evaluation) ltac:(by_evaluation)
                  ltac:(left; by_evaluation) ltac:(left; by_evaluation))).
Defined.

(** X2.  caffe_axpy and caffe_cpu_axpby on halves: with X and Y inside the
    arena and Y not starting inside X after its first cell, the call
    returns, Y[j] becomes Get<half>(alpha * X[j] + Y[j]), respectively
    Get<half>(alpha * X[j] + beta * Y[j]), computed in float from X[j] and
    Y[j] as they were, and no other cell changes; X == Y is allowed. *)
Theorem axpy_updates_Y_from_the_old_X_and_Y
    (N : Z) (alpha beta : float) (X Y : Z) (mem : list half) :
  0 <= N ->
  in_arena mem X N -> in_arena mem Y N -> forward_safe X Y N ->
  (exists m : list half,
      caffe_axpy_half N alpha X Y mem = Ok m
      /\ binary_result (axpy_op alpha) X Y Y N mem m)
  /\ (exists m : list half,
      caffe_cpu_axpby_half N alpha X beta Y mem = Ok m
      /\ binary_result (axpby_op alpha beta) X Y Y N mem m).
Proof.
  intros HN HX HY S.
  assert (SY : forward_safe Y Y N) by (left; lia).
  split; apply binary_loop_spec; assumption.
Qed.

(** y := 2 * x + y with x = [1, 2] at cell 0 and y = [3, 4] at cell 2. *)
Lemma axpy_updates_Y_from_the_old_X_and_Y_witness :
  exists m : list half,
    caffe_axpy_half 2 (S754_finite false 8388608 (-22)) 0 2
      [S754_finite false 1024 (-10); S754_finite false 1024 (-9);
       S754_finite false 1536 (-9); S754_finite false 1024 (-8)] = Ok m
    /\ binary_result (axpy_op (S754_finite false 8388608 (-22))) 0 2 2 2
         [S754_finite false 1024 (-10); S754_finite false 1024 (-9);
          S754_finite false 1536 (-9); S754_finite false 1024 (-8)] m.
Proof.
  apply (proj1 (axpy_updates_Y_from_the_old_X_and_Y 2
                  (S754_finite false 8388608 (-22)) fzero 0 2
                  [S754_finite false 1024 (-10); S754_finite false 1024 (-9);
                   S754_finite false 1536 (-9); S754_finite false 1024 (-8)]
                  ltac:(by_evaluation) ltac:(by_evaluation)
                  ltac:(by_evaluation) ltac:(right; by_evaluation))).
Defined.

(** X3.  caffe_cpu_scale<half,float>(n, alpha, x, y) writes into y what
    caffe_scal<half,float>(n, alpha, x) leaves in x: both return, and cell j
    of y after the former equals cell j of x after the latter, which is
    Get<half>(alpha * Get<float>(x[j])); the former leaves every cell outside
    of y alone, the latter every cell outside of x. *)
Theorem cpu_scale_is_scal_into_another_buffer
    (n : Z) (alpha : float) (x y : Z) (mem : list half) :
  0 <= n ->
  in_arena mem x n -> in_arena mem y n -> forward_safe x y n ->
  exists m1 m2 : list half,
    caffe_cpu_scale_half n alpha x y mem = Ok m1
    /\ caffe_scal_half n alpha x mem = Ok m2
    /\ unary_result (scal_op alpha) x y n mem m1
    /\ unary_result (scal_op alpha) x x n mem m2
    /\ forall j : Z, 0 <= j < n -> getz m1 (y + j) = getz m2 (x + j).
Proof.
  intros Hn Hx Hy S.
  destruct (unary_loop_spec (scal_op alpha) x y n mem Hx Hy S Hn)
    as (m1 & E1 & R1).
  assert (Sx : forward_safe x x n) by (left; lia).
  destruct (unary_loop_spec (scal_op alpha) x x n mem Hx Hx Sx Hn)
    as (m2 & E2 & R2).
  exists m1, m2. repeat split; try assumption; try apply R1; try apply R2.
  intros j Hj.
  destruct R1 as (_ & W1 & _). destruct R2 as (_ & W2 & _).
  rewrite W1, W2 by assumption. reflexivity.
Qed.

Lemma cpu_scale_is_scal_into_another_buffer_witness :
  exists m1 m2 : list half,
    caffe_cpu_scale_half 2 (S754_finite false 8388608 (-22)) 0 2
      [S754_finite false 1024 (-10); S754_finite false 1024 (-9);
       S754_zero false; S754_zero false] = Ok m1
    /\ caffe_scal_half 2 (S754_finite false 8388608 (-22)) 0
         [S754_finite false 1024 (-10); S754_finite false 1024 (-9);
          S754_zero false; S754_zero false] = Ok m2
    /\ unary_result (scal_op (S754_finite false 8388608 (-22))) 0 2 2
         [S754_finite false 1024 (-10); S754_finite false 1024 (-9);
          S754_zero false; S754_zero false] m1
    /\ unary_result (scal_op (S754_finite false 8388608 (-22))) 0 0 2
         [S754_finite false 1024 (-10); S754_finite false 1024 (-9);
          S754_zero false; S754_zero false] m2
    /\ forall j : Z, 0 <= j < 2 -> getz m1 (2 + j) = getz m2 (0 + j).
Proof.
  apply (cpu_scale_is_scal_into_another_buffer 2
           (S754_finite false 8388608 (-22)) 0 2
           [S754_finite false 1024 (-10); S754_finite false 1024 (-9);
            S754_zero false; S754_zero false]
           ltac:(by_evaluation) ltac:(by_evaluation)
           ltac:(by_evaluation) ltac:(right; by_evaluation)).
Defined.

(** X4.  caffe_add_scalar on halves, floats and doubles works in place:
    for Y inside the arena the call returns, Y[j] becomes Y[j] + alpha
    (computed in float and converted back for halves, in the native type
    otherwise), and no other cell changes. *)
Theorem add_scalar_updates_in_place
    (N : Z) (alpha : spec_float) (Y : Z) (mem : list spec_float) :
  0 <= N -> in_arena mem Y N ->
  (exists m : list half,
      caffe_add_scalar_half N alpha Y mem = Ok m
      /\ unary_result (add_scalar_op alpha) Y Y N mem m)
  /\ (exists m : list float,
      caffe_add_scalar_float N alpha Y mem = Ok m
      /\ unary_result (fun y => fadd binary32 y alpha) Y Y N mem m)
  /\ (exists m : list double,
      caffe_add_scalar_double N alpha Y mem = Ok m
      /\ unary_result (fun y => fadd binary64 y alpha) Y Y N mem m).
Proof.
  intros HN HY.
  assert (S : forward_safe Y Y N) by (left; lia).
  repeat split; apply unary_loop_spec; assumption.
Qed.

Lemma add_scalar_updates_in_place_witness :
  exists m : list float,
    caffe_add_scalar_float 2 f32_one 1 [fzero; f32_one; fzero; fzero] = Ok m
    /\ unary_result (fun y => fadd binary32 y f32_one) 1 1 2
         [fzero; f32_one; fzero; fzero] m.
Proof.
  apply (proj1 (proj2 (add_scalar_updates_in_place 2 f32_one 1
                         [fzero; f32_one; fzero; fzero]
                         ltac:(by_evaluation) ltac:(by_evaluation)))).
Defined.

(** ** Signs *)

(** Rounding keeps the sign it is given. *)
Lemma binary_round_aux_sign (p e : Z) (sx : bool) (mx ex : Z) (lx : location) :
  match binary_round_aux p e sx mx ex lx with
  | S754_zero s | S754_infinity s | S754_finite s _ _ => s = sx
  | S754_nan => True
  end.
Proof.
  unfold binary_round_aux.
  destruct (shr_fexp p e mx ex lx) as [mrs' e'].
  destruct (shr_fexp p e _ e' loc_Exact) as [mrs'' e''].
  destruct (shr_m mrs''); [reflexivity | | exact I].
  destruct (e'' <=? e - p); reflexivity.
Qed.

Lemma binary_round_sign (p e : Z) (sx : bool) (mx : positive) (ex : Z) :
  match binary_round p e sx mx ex with
  | S754_zero s | S754_infinity s | S754_finite s _ _ => s = sx
  | S754_nan => True
  end.
Proof.
  unfold binary_round.
  destruct (shl_align mx ex _) as [mz ez].
  apply binary_round_aux_sign.
Qed.

(** The absolute value of a rounded value does not depend on the sign that
    was rounded. *)
Lemma SFabs_binary_round (p e : Z) (s s' : bool) (mx : positive) (ex : Z) :
  SFabs (binary_round p e s mx ex) = SFabs (binary_round p e s' mx ex).
Proof.
  unfold binary_round.
  destruct (shl_align mx ex _) as [mz ez].
  unfold binary_round_aux.
  destruct (shr_fexp p e (Zpos mz) ez loc_Exact) as [mrs' e'].
  destruct (shr_fexp p e _ e' loc_Exact) as [mrs'' e''].
  destruct (shr_m mrs''); [reflexivity | | reflexivity].
  destruct (e'' <=? e - p); reflexivity.
Qed.

Lemma round_to_sign_clear (f : format) (x : spec_float) :
  sign_clear x = true -> sign_clear (round_to f x) = true.
Proof.
  destruct x as [s|s| |s m e]; cbn [round_to]; try (intros H; exact H).
  cbn [sign_clear]. intros H.
  pose proof (binary_round_sign (prec f) (emax f) s m e) as B.
  destruct (binary_round (prec f) (emax f) s m e); cbn [sign_clear];
    try reflexivity; subst; exact H.
Qed.

Lemma SFabs_sign_clear (x : spec_float) : sign_clear (SFabs x) = true.
Proof. destruct x; reflexivity. Qed.

Lemma fmul_square_sign_clear (f : format) (x : spec_float) :
  sign_clear (fmul f x x) = true.
Proof.
  destruct x as [s|s| |s m e]; cbn [fmul SFmul sign_clear];
    try (rewrite xorb_nilpotent; reflexivity); try reflexivity.
  rewrite xorb_nilpotent.
  pose proof (binary_round_aux_sign (prec f) (emax f) false
                (Zpos (m * m)) (e + e) loc_Exact) as B.
  destruct (binary_round_aux (prec f) (emax f) false
              (Zpos (m * m)) (e + e) loc_Exact);
    cbn [sign_clear]; try reflexivity; subst; reflexivity.
Qed.

Lemma fadd_sign_clear (f : format) (x y : spec_float) :
  sign_clear x = true -> sign_clear y = true ->
  sign_clear (fadd f x y) = true.
Proof.
  destruct x as [sx|sx| |sx mx ex], y as [sy|sy| |sy my ey];
    try destruct sx; try destruct sy; intros Hx Hy;
    try discriminate; try reflexivity.
  unfold fadd, SFadd, cond_Zopp.
  pose proof (binary_round_sign (prec f) (emax f) false
                (fst (shl_align mx ex (Z.min ex ey))
                 + fst (shl_align my ey (Z.min ex ey))) (Z.min ex ey)) as B.
  cbn [Z.add binary_normalize].
  destruct (binary_round (prec f) (emax f) false _ (Z.min ex ey));
    cbn [sign_clear]; try reflexivity; subst; reflexivity.
Qed.

(** X5.  caffe_sqr and caffe_abs on halves never write a negative value:
    with the operand and the destination inside the arena and the
    destination not starting inside the operand after its first cell, the
    call returns, y[j] is Get<half>(f * f) for f = Get<float>(a[j]),
    respectively Get<half>(fabs(Get<float>(a[j]))), and its sign bit is
    clear unless it is a NaN. *)
Theorem sqr_and_abs_write_no_negative_value
    (n a y : Z) (mem : list half) :
  0 <= n ->
  in_arena mem a n -> in_arena mem y n -> forward_safe a y n ->
  (exists m : list half,
      caffe_sqr_half n a y mem = Ok m
      /\ unary_result sqr_op a y n mem m
      /\ forall j : Z, 0 <= j < n -> sign_clear (getz m (y + j)) = true)
  /\ (exists m : list half,
      caffe_abs_half n a y mem = Ok m
      /\ unary_result abs_op a y n mem m
      /\ forall j : Z, 0 <= j < n -> sign_clear (getz m (y + j)) = true).
Proof.
  intros Hn Ha Hy S. split.
  - destruct (unary_loop_spec sqr_op a y n mem Ha Hy S Hn) as (m & E & R).
    exists m. repeat split; try assumption; try apply R.
    intros j Hj. destruct R as (_ & W & _). rewrite W by assumption.
    apply round_to_sign_clear, fmul_square_sign_clear.
  - destruct (unary_loop_spec abs_op a y n mem Ha Hy S Hn) as (m & E & R).
    exists m. repeat split; try assumption; try apply R.
    intros j Hj. destruct R as (_ & W & _). rewrite W by assumption.
    apply round_to_sign_clear, SFabs_sign_clear.
Qed.

(** abs of [-1, 2] in place. *)
Lemma sqr_and_abs_write_no_negative_value_witness :
  exists m : list half,
    caffe_abs_half 2 0 0
      [S754_finite true 1024 (-10); S754_finite false 1024 (-9)] = Ok m
    /\ unary_result abs_op 0 0 2
         [S754_finite true 1024 (-10); S754_finite false 1024 (-9)] m
    /\ forall j : Z, 0 <= j < 2 -> sign_clear (getz m (0 + j)) = true.
Proof.
  apply (proj2 (sqr_and_abs_write_no_negative_value 2 0 0
                  [S754_finite true 1024 (-10); S754_finite false 1024 (-9)]
                  ltac:(by_evaluation) ltac:(by_evaluation)
                  ltac:(by_evaluation) ltac:(left; by_evaluation))).
Defined.

(** X6.  caffe_powx and caffe_exp on halves, whatever the functions pow and
    exp of the C library compute: with the operand and the destination
    inside the arena and the destination not starting inside the operand
    after its first cell, the call returns, y[j] is
    Get<half>(pow(Get<float>(a[j]), b)), respectively
    Get<half>(exp(Get<float>(a[j]))), for a[j] as it was, and no other cell
    changes. *)
Theorem powx_and_exp_convert_apply_convert
    (pow : float -> float -> float) (exp : float -> float)
    (n a : Z) (b : float) (y : Z) (mem : list half) :
  0 <= n ->
  in_arena mem a n -> in_arena mem y n -> forward_safe a y n ->
  (exists m : list half,
      caffe_powx_half pow n a b y mem = Ok m
      /\ unary_result (fun u => Get_half_of_float (pow (Get_float_of_half u) b))
           a y n mem m)
  /\ (exists m : list half,
      caffe_exp_half exp n a y mem = Ok m
      /\ unary_result (fun u => Get_half_of_float (exp (Get_float_of_half u)))
           a y n mem m).
Proof.
  intros Hn Ha Hy S. split; apply unary_loop_spec; assumption.
Qed.

(** With the product in the place of pow: the squares of [3, 2]. *)
Lemma powx_and_exp_convert_apply_convert_witness :
  exists m : list half,
    caffe_powx_half (fun u _ => fmul binary32 u u) 2 0 fzero 2
      [S754_finite false 1536 (-9); S754_finite false 1024 (-9);
       S754_zero false; S754_zero false] = Ok m
    /\ unary_result
         (fun u => Get_half_of_float
                     ((fun u _ => fmul binary32 u u)
                        (Get_float_of_half u) fzero))
         0 2 2
         [S754_finite false 1536 (-9); S754_finite false 1024 (-9);
          S754_zero false; S754_zero false] m.
Proof.
  apply (proj1 (powx_and_exp_convert_apply_convert
                  (fun u _ => fmul binary32 u u) (fun u => u) 2 0 fzero 2
                  [S754_finite false 1536 (-9); S754_finite false 1024 (-9);
                   S754_zero false; S754_zero false]
                  ltac:(by_evaluation) ltac:(by_evaluation)
                  ltac:(by_evaluation) ltac:(right; by_evaluation))).
Defined.

(** ** Sum of absolute values *)

Lemma abs_float_of_opp (h : half) :
  SFabs (Get_float_of_half (SFopp h)) = SFabs (Get_float_of_half h).
Proof.
  destruct h as [s|s| |s m e]; try reflexivity.
  apply SFabs_binary_round.
Qed.

Lemma abs_float_sign_clear (h : half) :
  sign_clear (SFabs (Get_float_of_half h)) = true.
Proof. apply SFabs_sign_clear. Qed.

Lemma asum_loop_spec (x : list half) :
  forall (todo k : nat) (sum : float),
    (k + todo <= length x)%nat ->
    asum_loop x todo (Z.of_nat k) sum
    = Ok (fold_left (fun acc h => fadd binary32 acc
                                    (SFabs (Get_float_of_half h)))
                    (firstn todo (skipn k x)) sum).
Proof.
  induction todo as [|todo IH]; intros k sum H; [reflexivity|].
  cbn [asum_loop].
  rewrite (buf_read_nth x k fzero) by lia. cbn [bind].
  replace (Z.of_nat k + 1) with (Z.of_nat (S k)) by lia.
  rewrite IH by lia.
  rewrite (skipn_cons_nth x k fzero) by lia. reflexivity.
Qed.

Lemma asum_run (n : Z) (x : list half) :
  0 <= n <= vsize x ->
  caffe_cpu_asum_half n x
  = Ok (fold_left (fun acc h => fadd binary32 acc
                                  (SFabs (Get_float_of_half h)))
                  (firstn (Z.to_nat n) x) fzero).
Proof.
  intros H. unfold vsize in H. unfold caffe_cpu_asum_half.
  change 0 with (Z.of_nat 0).
  rewrite asum_loop_spec by lia. reflexivity.
Qed.

Lemma fold_abs_sign_clear (xs : list half) :
  forall sum : float,
    sign_clear sum = true ->
    sign_clear (fold_left (fun acc h => fadd binary32 acc
                                          (SFabs (Get_float_of_half h)))
                          xs sum) = true.
Proof.
  induction xs as [|h xs IH]; intros sum H; [exact H|].
  cbn [fold_left]. apply IH, fadd_sign_clear; [exact H|].
  apply abs_float_sign_clear.
Qed.

Lemma fold_abs_opp (xs : list half) :
  forall sum : float,
    fold_left (fun acc h => fadd binary32 acc (SFabs (Get_float_of_half h)))
              (map SFopp xs) sum
    = fold_left (fun acc h => fadd binary32 acc (SFabs (Get_float_of_half h)))
                xs sum.
Proof.
  induction xs as [|h xs IH]; intros sum; [reflexivity|].
  cbn [map fold_left]. rewrite abs_float_of_opp. apply IH.
Qed.

(** X7.  caffe_cpu_asum<half,float>(n, x) with 0 <= n elements in x
    returns the float sum, from the first element on, of
    fabs(Get<float>(x[i])); the sum is never negative (its sign bit is clear
    unless it is a NaN), and it is the same when every element of x is
    negated. *)
Theorem asum_ignores_signs_and_is_not_negative (n : Z) (x : list half) :
  0 <= n <= vsize x ->
  exists s : float,
    caffe_cpu_asum_half n x = Ok s
    /\ s = fold_left (fun acc h => fadd binary32 acc
                                     (SFabs (Get_float_of_half h)))
                     (firstn (Z.to_nat n) x) fzero
    /\ sign_clear s = true
    /\ caffe_cpu_asum_half n (map SFopp x) = Ok s.
Proof.
  intros H. rewrite (asum_run n x H).
  assert (H' : 0 <= n <= vsize (map SFopp x))
    by (unfold vsize in *; rewrite length_map; exact H).
  rewrite (asum_run n (map SFopp x) H').
  eexists. repeat split.
  - apply fold_abs_sign_clear. reflexivity.
  - rewrite firstn_map. apply f_equal, fold_abs_opp.
Qed.

(** asum of [-1, 2, -3] is 6. *)
Lemma asum_ignores_signs_and_is_not_negative_witness :
  exists s : float,
    caffe_cpu_asum_half 3
      [S754_finite true 1024 (-10); S754_finite false 1024 (-9);
       S754_finite true 1536 (-9)] = Ok s
    /\ s = fold_left (fun acc h => fadd binary32 acc
                                     (SFabs (Get_float_of_half h)))
                     (firstn (Z.to_nat 3)
                        [S754_finite true 1024 (-10);
                         S754_finite false 1024 (-9);
                         S754_finite true 1536 (-9)]) fzero
    /\ sign_clear s = true
    /\ caffe_cpu_asum_half 3
         (map SFopp [S754_finite true 1024 (-10); S754_finite false 1024 (-9);
                     S754_finite true 1536 (-9)]) = Ok s.
Proof.
  apply (asum_ignores_signs_and_is_not_negative 3
           [S754_finite true 1024 (-10); S754_finite false 1024 (-9);
            S754_finite true 1536 (-9)] ltac:(by_evaluation)).
Defined.

(** ** Hamming distance, further *)

Lemma buf_read_cases {A : Type} (buf : list A) (i : Z) :
  (exists v : A, buf_read buf i = Ok v) \/ buf_read buf i = Undefined.
Proof.
  unfold buf_read. destruct (i <? 0); [right; reflexivity|].
  destruct (nth_error buf (Z.to_nat i)) as [v|];
    [left; exists v; reflexivity | right; reflexivity].
Qed.

(** X8.  caffe_cpu_hamming_distance is symmetric in its two buffers, for
    each of the three type pairs and on every input, the ones it is
    undefined on included. *)
Theorem hamming_distance_is_symmetric (n : Z) :
  (forall x y : list float,
      caffe_cpu_hamming_distance_float n x y
      = caffe_cpu_hamming_distance_float n y x)
  /\ (forall x y : list double,
      caffe_cpu_hamming_distance_double n x y
      = caffe_cpu_hamming_distance_double n y x)
  /\ (forall x y : list half,
      caffe_cpu_hamming_distance_half n x y
      = caffe_cpu_hamming_distance_half n y x).
Proof.
  assert (G : forall (cast : spec_float -> option Z) (x y : list spec_float)
                (todo : nat) (i d : Z),
             hamming_loop cast x y todo i d = hamming_loop cast y x todo i d).
  { intros cast x y. induction todo as [|todo IH]; intros i d; [reflexivity|].
    cbn [hamming_loop].
    destruct (buf_read_cases x i) as [(xi & ->)| ->],
             (buf_read_cases y i) as [(yi & ->)| ->];
      cbn [bind]; try reflexivity.
    destruct (cast xi) as [ux|], (cast yi) as [uy|];
      cbn [of_option bind]; try reflexivity.
    rewrite (Z.lxor_comm ux uy). apply IH. }
  repeat split; intros x y; apply G.
Qed.

Lemma truncated_distance_self (us : list Z) : truncated_distance us us = 0.
Proof.
  induction us as [|u us IH]; [reflexivity|].
  rewrite truncated_distance_cons, IH, Z.lxor_nilpotent. reflexivity.
Qed.

Lemma hamming_loop_self {T : Type} (cast : T -> option Z) (n : Z)
    (x : list T) (us : list Z) :
  truncations cast n x us ->
  hamming_loop cast x x (Z.to_nat n) 0 0 = Ok 0.
Proof.
  intros H. pose proof (hamming_loop_distance cast n x x us us H H) as E.
  rewrite truncated_distance_self in E. apply E. vm_compute. discriminate.
Qed.

(** X9.  The distance of a buffer to itself is 0, for each of the three
    type pairs and every n >= 0: when the first n elements have unsigned
    values, caffe_cpu_hamming_distance(n, x, x) returns 0. *)
Theorem hamming_distance_to_itself_is_zero (n : Z) :
  (forall (x : list float) (us : list Z),
      truncations (float_to_unsigned 32) n x us ->
      caffe_cpu_hamming_distance_float n x x = Ok 0)
  /\ (forall (x : list double) (us : list Z),
      truncations (float_to_unsigned 64) n x us ->
      caffe_cpu_hamming_distance_double n x x = Ok 0)
  /\ (forall (x : list half) (us : list Z),
      truncations (fun h => float_to_unsigned 16 (Get_float_of_half h)) n x us ->
      caffe_cpu_hamming_distance_half n x x = Ok 0).
Proof.
  repeat split; intros x us H; exact (hamming_loop_self _ n x us H).
Qed.

Lemma hamming_distance_to_itself_is_zero_witness :
  caffe_cpu_hamming_distance_half 2
    [S754_finite false 1536 (-9); S754_finite false 1280 (-8)]
    [S754_finite false 1536 (-9); S754_finite false 1280 (-8)] = Ok 0.
Proof.
  apply (proj2 (proj2 (hamming_distance_to_itself_is_zero 2))) with (us := [3; 5]).
  split; [by_evaluation | reflexivity].
Defined.

Lemma float_to_unsigned_range (w : Z) (x : spec_float) (u : Z) :
  0 <= w -> float_to_unsigned w x = Some u -> 0 <= u < 2 ^ w.
Proof.
  intros Hw. assert (P : 0 < 2 ^ w) by (apply Z.pow_pos_nonneg; lia).
  destruct x as [s|s| |s m e]; cbn [float_to_unsigned]; try discriminate.
  - intros H. injection H as <-. lia.
  - destruct s.
    + destruct (Z.shiftl (Zpos m) e =? 0); [|discriminate].
      intros H. injection H as <-. lia.
    + destruct (Z.ltb_spec (Z.shiftl (Zpos m) e) (2 ^ w)) as [L|L];
        [|discriminate].
      intros H. injection H as <-. split; [|assumption].
      apply Z.shiftl_nonneg. lia.
Qed.

Lemma popcount_pos_le_digits (p : positive) :
  popcount_pos p <= Zpos (digits2_pos p).
Proof.
  induction p as [p IH|p IH|]; cbn [popcount_pos digits2_pos];
    rewrite ?Pos2Z.inj_succ; lia.
Qed.

Lemma popcount_le_width (w z : Z) : 0 <= z < 2 ^ w -> popcount z <= w.
Proof.
  intros [H0 H1]. destruct z as [|p|p]; cbn [popcount]; try lia.
  - destruct (Z.le_gt_cases 0 w); [assumption|].
    rewrite Z.pow_neg_r in H1 by lia. lia.
  - pose proof (popcount_pos_le_digits p) as Hp.
    pose proof (digits_bounds p) as [Dlo _].
    destruct (Z.le_gt_cases (Zpos (digits2_pos p)) w) as [L|G]; [lia|].
    assert (2 ^ w <= 2 ^ (Zpos (digits2_pos p) - 1)).
    { destruct (Z.le_gt_cases 0 w).
      - apply Z.pow_le_mono_r; lia.
      - rewrite (Z.pow_neg_r 2 w) by lia.
        apply Z.pow_nonneg. lia. }
    lia.
Qed.

Lemma lxor_range (w u v : Z) :
  0 <= u < 2 ^ w -> 0 <= v < 2 ^ w -> 0 <= Z.lxor u v < 2 ^ w.
Proof.
  intros [U0 U1] [V0 V1].
  assert (N : 0 <= Z.lxor u v) by (apply Z.lxor_nonneg; lia).
  split; [exact N|].
  destruct (Z.eq_dec (Z.lxor u v) 0) as [->|NZ]; [lia|].
  assert (Hw : 0 < w).
  { destruct (Z.lt_ge_cases 0 w); [assumption|].
    destruct (Z.eq_dec w 0) as [->|]; [|rewrite Z.pow_neg_r in U1 by lia; lia].
    assert (u = 0) by (cbn in U1; lia). assert (v = 0) by (cbn in V1; lia).
    subst. cbn in NZ. lia. }
  apply Z.log2_lt_pow2; [lia|].
  pose proof (Z.log2_lxor u v U0 V0) as L.
  assert (Lu : Z.log2 u < w).
  { destruct (Z.eq_dec u 0) as [->|]; [cbn; lia|].
    apply Z.log2_lt_pow2; lia. }
  assert (Lv : Z.log2 v < w).
  { destruct (Z.eq_dec v 0) as [->|]; [cbn; lia|].
    apply Z.log2_lt_pow2; lia. }
  lia.
Qed.

Lemma truncated_distance_bound (w : Z) (us vs : list Z) :
  0 <= w ->
  Forall (fun u => 0 <= u < 2 ^ w) us ->
  Forall (fun v => 0 <= v < 2 ^ w) vs ->
  truncated_distance us vs <= w * Z.of_nat (length us).
Proof.
  intros Hw Hu. revert vs.
  induction Hu as [|u us Ru Hu IH]; intros vs Hv.
  - unfold truncated_distance. cbn. lia.
  - destruct Hv as [|v vs Rv Hv].
    + unfold truncated_distance. cbn [combine map fold_right length]. nia.
    + rewrite truncated_distance_cons.
      pose proof (popcount_le_width w _ (lxor_range w u v Ru Rv)).
      specialize (IH vs Hv). cbn [length]. nia.
Qed.

Lemma truncations_range {T : Type} (cast : T -> option Z) (w n : Z)
    (x : list T) (us : list Z) :
  (forall (t : T) (u : Z), cast t = Some u -> 0 <= u < 2 ^ w) ->
  truncations cast n x us ->
  Forall (fun u => 0 <= u < 2 ^ w) us /\ Z.of_nat (length us) = n.
Proof.
  intros Hc [Hn Hm]. unfold vsize in Hn. split.
  - revert Hm. generalize (firstn (Z.to_nat n) x) as xs.
    induction us as [|u us IH]; intros xs Hm; [constructor|].
    destruct xs as [|t xs]; [discriminate|].
    cbn [map] in Hm. injection Hm as Ht Hm.
    constructor; [exact (Hc t u Ht) | exact (IH xs Hm)].
  - apply (f_equal (@length _)) in Hm.
    rewrite !length_map, length_firstn in Hm. lia.
Qed.

Lemma hamming_loop_bounded {T : Type} (cast : T -> option Z) (w n : Z)
    (x y : list T) (us vs : list Z) :
  0 <= w ->
  (forall (t : T) (u : Z), cast t = Some u -> 0 <= u < 2 ^ w) ->
  truncations cast n x us -> truncations cast n y vs ->
  w * n <= INT_MAX ->
  exists d : Z,
    hamming_loop cast x y (Z.to_nat n) 0 0 = Ok d /\ 0 <= d <= w * n.
Proof.
  intros Hw Hc Hx Hy Hmax.
  destruct (truncations_range cast w n x us Hc Hx) as [Ru Lu].
  destruct (truncations_range cast w n y vs Hc Hy) as [Rv Lv].
  pose proof (truncated_distance_bound w us vs Hw Ru Rv) as B.
  pose proof (truncated_distance_nonneg us vs) as P.
  exists (truncated_distance us vs). split; [|lia].
  apply hamming_loop_distance; try assumption. lia.
Qed.

(** X10.  The distance is between 0 and the width of the unsigned type
    times n, and it cannot overflow while that product fits in an int: for
    each of the three type pairs, when the first n elements of both buffers
    have unsigned values and 32 * n (64 * n, 16 * n) is at most INT_MAX, the
    call returns a distance d with 0 <= d <= 32 * n (64 * n, 16 * n). *)
Theorem hamming_distance_is_bounded_by_the_width (n : Z) :
  (forall (x y : list float) (us vs : list Z),
      truncations (float_to_unsigned 32) n x us ->
      truncations (float_to_unsigned 32) n y vs ->
      32 * n <= INT_MAX ->
      exists d : Z,
        caffe_cpu_hamming_distance_float n x y = Ok d /\ 0 <= d <= 32 * n)
  /\ (forall (x y : list double) (us vs : list Z),
      truncations (float_to_unsigned 64) n x us ->
      truncations (float_to_unsigned 64) n y vs ->
      64 * n <= INT_MAX ->
      exists d : Z,
        caffe_cpu_hamming_distance_double n x y = Ok d /\ 0 <= d <= 64 * n)
  /\ (forall (x y : list half) (us vs : list Z),
      truncations (fun h => float_to_unsigned 16 (Get_float_of_half h)) n x us ->
      truncations (fun h => float_to_unsigned 16 (Get_float_of_half h)) n y vs ->
      16 * n <= INT_MAX ->
      exists d : Z,
        caffe_cpu_hamming_distance_half n x y = Ok d /\ 0 <= d <= 16 * n).
Proof.
  repeat split; intros x y us vs Hx Hy Hmax.
  - apply (hamming_loop_bounded _ 32 n x y us vs); try assumption; [lia|].
    intros t u. apply float_to_unsigned_range. lia.
  - apply (hamming_loop_bounded _ 64 n x y us vs); try assumption; [lia|].
    intros t u. apply float_to_unsigned_range. lia.
  - apply (hamming_loop_bounded _ 16 n x y us vs); try assumption; [lia|].
    intros t u. apply float_to_unsigned_range. lia.
Qed.

Lemma hamming_distance_is_bounded_by_the_width_witness :
  exists d : Z,
    caffe_cpu_hamming_distance_float 2
      [S754_finite false 12582912 (-22); S754_finite false 10485760 (-21)]
      [S754_finite false 8388608 (-23); S754_finite false 8388608 (-21)]
    = Ok d /\ 0 <= d <= 32 * 2.
Proof.
  apply (proj1 (hamming_distance_is_bounded_by_the_width 2))
    with (us := [3; 5]) (vs := [1; 4]).
  - split; [by_evaluation | reflexivity].
  - split; [by_evaluation | reflexivity].
  - by_evaluation.
Defined.

(** ** Dot product, further *)

Lemma fmul_comm (f : format) (x y : spec_float) : fmul f x y = fmul f y x.
Proof.
  destruct x as [sx|sx| |sx mx ex], y as [sy|sy| |sy my ey];
    cbn [fmul SFmul]; rewrite ?(xorb_comm sx sy); try reflexivity.
  rewrite (Pos.mul_comm mx my), (Z.add_comm ex ey). reflexivity.
Qed.

(** X11.  The reduced precision dot product is commutative: exchanging the
    two vectors together with their strides gives the same outcome, the
    same float when the call returns and undefined when it reads outside of
    an array; so does caffe_cpu_dot. *)
Theorem strided_dot_half_is_commutative (n : Z) (x : cptr half) (incx : Z)
    (y : cptr half) (incy : Z) :
  caffe_cpu_strided_dot_half n x incx y incy
  = caffe_cpu_strided_dot_half n y incy x incx
  /\ caffe_cpu_dot_half n x y = caffe_cpu_dot_half n y x.
Proof.
  assert (G : forall (x y : cptr half) (incx incy : Z) (todo : nat)
                (i : Z) (sum : float),
             strided_dot_loop x incx y incy todo i sum
             = strided_dot_loop y incy x incx todo i sum).
  { clear. intros x y incx incy.
    induction todo as [|todo IH]; intros i sum; [reflexivity|].
    cbn [strided_dot_loop]. unfold deref.
    destruct (buf_read_cases (block x) (offset x + int_mul i incx))
      as [(xv & ->)| ->],
      (buf_read_cases (block y) (offset y + int_mul i incy))
      as [(yv & ->)| ->];
      cbn [bind]; try reflexivity.
    rewrite (fmul_comm binary32 (Get_float_of_half xv)). apply IH. }
  split; apply G.
Qed.

Lemma gathers_contiguous (b : list half) (o n : Z) :
  0 <= o -> 0 <= n <= INT_MAX -> o + n <= vsize b ->
  gathers (mk_cptr b o) 1 n (firstn (Z.to_nat n) (skipn (Z.to_nat o) b)).
Proof.
  intros Ho Hn Hb. unfold vsize in Hb.
  assert (L : length (firstn (Z.to_nat n) (skipn (Z.to_nat o) b)) = Z.to_nat n).
  { rewrite length_firstn, length_skipn. lia. }
  split; [exact L|].
  intros i Hi. rewrite L in Hi. split.
  - unfold fits_int, INT_MIN, INT_MAX in *. lia.
  - unfold deref. cbn [block offset].
    replace (o + Z.of_nat i * 1) with (Z.of_nat (Z.to_nat o + i)) by lia.
    rewrite (buf_read_nth b (Z.to_nat o + i) fzero) by lia.
    rewrite nth_error_firstn.
    destruct (Nat.ltb_spec i (Z.to_nat n)); [|lia].
    rewrite nth_error_skipn.
    rewrite (nth_error_nth' b fzero) by lia. reflexivity.
Qed.

(** X12.  caffe_cpu_dot on two contiguous ranges of n elements inside
    their arrays returns the sum, accumulated in float from +0 in
    increasing order of the index, of the float products of the converted
    elements; no element outside of the two ranges is read. *)
Theorem dot_half_sums_the_contiguous_products (n : Z) (bx by_ : list half)
    (ox oy : Z) :
  0 <= n <= INT_MAX ->
  0 <= ox -> ox + n <= vsize bx ->
  0 <= oy -> oy + n <= vsize by_ ->
  caffe_cpu_dot_half n (mk_cptr bx ox) (mk_cptr by_ oy)
  = Ok (sum_in_float
          (dot_terms (firstn (Z.to_nat n) (skipn (Z.to_nat ox) bx))
                     (firstn (Z.to_nat n) (skipn (Z.to_nat oy) by_)))).
Proof.
  intros Hn Hox Hbx Hoy Hby.
  destruct (gathers_contiguous bx ox n Hox Hn Hbx) as [Lx Gx].
  destruct (gathers_contiguous by_ oy n Hoy Hn Hby) as [Ly Gy].
  unfold caffe_cpu_dot_half, caffe_cpu_strided_dot_half, sum_in_float.
  rewrite <- Lx at 1. change 0 with (Z.of_nat 0).
  apply strided_dot_loop_spec; [congruence|].
  intros j Hj. cbn [Nat.add].
  destruct (Gx j Hj) as [Fx Dx].
  destruct (Gy j) as [Fy Dy]; [congruence|].
  auto.
Qed.

(** x = [9; 1; 2] read from its second element, y = [3; 4]: 1*3 + 2*4. *)
Lemma dot_half_sums_the_contiguous_products_witness :
  caffe_cpu_dot_half 2
    (mk_cptr [S754_finite false 1152 (-7); S754_finite false 1024 (-10);
              S754_finite false 1024 (-9)] 1)
    (mk_cptr [S754_finite false 1536 (-9); S754_finite false 1024 (-8)] 0)
  = Ok (S754_finite false 11534336 (-20)).
Proof.
  apply (dot_half_sums_the_contiguous_products 2
           [S754_finite false 1152 (-7); S754_finite false 1024 (-10);
            S754_finite false 1024 (-9)]
           [S754_finite false 1536 (-9); S754_finite false 1024 (-8)] 1 0);
    vm_compute; try split; discriminate.
Defined.

(** ** The reduced precision gemv *)

Lemma ref_sgemv_value (TransA : CBLAS_TRANSPOSE) (M N : Z)
    (alpha beta : float) (a x y : list float) :
  0 < M -> 0 < N ->
  M * N <= vsize a ->
  gemv_lx TransA M N <= vsize x -> gemv_ly TransA M N <= vsize y ->
  ref_sgemv TransA M N alpha a N x 1 beta y 1
  = Ok (map (fun p : nat =>
               if Z.of_nat p <? gemv_ly TransA M N
               then ref_axpby alpha
                      (ref_dotv TransA (gemv_lx TransA M N) a N x 1
                                (Z.of_nat p))
                      beta (getz y (Z.of_nat p))
               else getz y (Z.of_nat p))
            (seq 0 (length y))).
Proof.
  intros HM HN La Lx Ly. unfold ref_sgemv, gemv_lx, gemv_ly in *.
  change (Z.abs 1) with 1.
  rewrite !extent_pos by (destruct (is_notrans TransA); lia).
  destruct (is_notrans TransA);
    repeat match goal with
           | |- context [?x <? ?y] =>
               destruct (Z.ltb_spec x y); [exfalso; nia|]
           | |- context [?x =? ?y] =>
               destruct (Z.eqb_spec x y); [exfalso; lia|]
           end;
    cbn [orb]; f_equal; apply map_ext; intros p; cbv zeta;
    rewrite Z.div_1_r, Z.mod_1_r; change (0 <? 1) with true; cbv iota;
    change (0 =? 0) with true; rewrite andb_true_r; reflexivity.
Qed.

(** X13.  With M, N > 0 the reduced precision gemv converts A, x and the
    present content of y into float temporaries of M*N, lx and ly elements
    (lx = N and ly = M without transposition, exchanged with it), calls the
    backend on them and converts its ly results back into y: the elements
    of y from ly on are kept, and a failure of the backend is the failure
    of the call.  With the reference backend the element i < ly of the
    result is the conversion to half of alpha * (op(A) x)(i) + beta * y(i),
    y(i) being the converted old element. *)
Theorem gemv_half_converts_computes_converts_back
    (TransA : CBLAS_TRANSPOSE) (M N : Z) (alpha beta : float)
    (A x y : list half) :
  0 < M -> 0 < N -> M * N <= INT_MAX ->
  M * N <= vsize A ->
  gemv_lx TransA M N <= vsize x -> gemv_ly TransA M N <= vsize y ->
  (forall (cblas_sgemv : sgemv_t) (y' : list float),
      cblas_sgemv TransA M N alpha (to_compute (M * N) A) N
                  (to_compute (gemv_lx TransA M N) x) 1
                  beta (to_compute (gemv_ly TransA M N) y) 1 = Ok y' ->
      vsize y' = gemv_ly TransA M N ->
      caffe_cpu_gemv_half cblas_sgemv TransA M N alpha A x beta y
      = Ok (map Get_half_of_float y'
              ++ skipn (Z.to_nat (gemv_ly TransA M N)) y,
            gemv_events TransA M N alpha beta A x y))
  /\ (forall (cblas_sgemv : sgemv_t) (what : string),
      cblas_sgemv TransA M N alpha (to_compute (M * N) A) N
                  (to_compute (gemv_lx TransA M N) x) 1
                  beta (to_compute (gemv_ly TransA M N) y) 1 = Thrown what ->
      caffe_cpu_gemv_half cblas_sgemv TransA M N alpha A x beta y
      = Thrown what)
  /\ exists y2 : list half,
      caffe_cpu_gemv_half ref_sgemv TransA M N alpha A x beta y
      = Ok (y2, gemv_events TransA M N alpha beta A x y)
      /\ length y2 = length y
      /\ (forall i : nat, (Z.of_nat i < gemv_ly TransA M N) ->
          nth i y2 fzero
          = Get_half_of_float
              (ref_axpby alpha
                 (ref_dotv TransA (gemv_lx TransA M N)
                    (to_compute (M * N) A) N
                    (to_compute (gemv_lx TransA M N) x) 1 (Z.of_nat i))
                 beta (Get_float_of_half (nth i y fzero))))
      /\ (forall i : nat, (gemv_ly TransA M N <= Z.of_nat i) ->
          nth i y2 fzero = nth i y fzero).
Proof.
  intros HM HN Ia La Lx Ly.
  assert (Py : 0 < gemv_ly TransA M N)
    by (unfold gemv_ly; destruct (is_notrans TransA); lia).
  assert (Hgen : forall (cblas_sgemv : sgemv_t) (y' : list float),
      cblas_sgemv TransA M N alpha (to_compute (M * N) A) N
                  (to_compute (gemv_lx TransA M N) x) 1
                  beta (to_compute (gemv_ly TransA M N) y) 1 = Ok y' ->
      vsize y' = gemv_ly TransA M N ->
      caffe_cpu_gemv_half cblas_sgemv TransA M N alpha A x beta y
      = Ok (map Get_half_of_float y'
              ++ skipn (Z.to_nat (gemv_ly TransA M N)) y,
            gemv_events TransA M N alpha beta A x y)).
  { intros cblas_sgemv y' Hy' Sy'.
    rewrite gemv_half_run by assumption.
    rewrite Hy'. cbn [bind]. rewrite <- Sy'.
    rewrite convert_back by lia. cbn [bind].
    unfold vsize. rewrite Nat2Z.id. reflexivity. }
  split; [exact Hgen|]. split.
  { intros cblas_sgemv what Hf.
    rewrite gemv_half_run by assumption. rewrite Hf. reflexivity. }
  assert (St : vsize (to_compute (gemv_ly TransA M N) y) = gemv_ly TransA M N)
    by (apply vsize_to_compute; lia).
  assert (Lt : length (to_compute (gemv_ly TransA M N) y)
               = Z.to_nat (gemv_ly TransA M N))
    by (unfold vsize in St; lia).
  pose proof (ref_sgemv_value TransA M N alpha beta
                (to_compute (M * N) A) (to_compute (gemv_lx TransA M N) x)
                (to_compute (gemv_ly TransA M N) y) HM HN) as Href.
  rewrite !vsize_to_compute in Href
    by (unfold gemv_lx, gemv_ly in *; destruct (is_notrans TransA); lia).
  specialize (Href (Z.le_refl _) (Z.le_refl _) (Z.le_refl _)).
  eexists. split; [apply (Hgen ref_sgemv _ Href)|].
  { unfold vsize. rewrite length_map, length_seq. exact St. }
  unfold vsize in Ly.
  split; [|split].
  - rewrite length_app, !length_map, length_seq, length_skipn, Lt. lia.
  - intros i Hi.
    rewrite app_nth1 by (rewrite !length_map, length_seq, Lt; lia).
    rewrite (nth_indep _ fzero (Get_half_of_float fzero))
      by (rewrite !length_map, length_seq, Lt; lia).
    rewrite map_nth.
    rewrite nth_map_seq by (rewrite Lt; lia).
    destruct (Z.ltb_spec (Z.of_nat i) (gemv_ly TransA M N)); [|lia].
    do 3 f_equal.
    unfold getz, to_compute. rewrite Nat2Z.id.
    rewrite (nth_indep _ fzero (Get_float_of_half fzero))
      by (rewrite length_map, length_firstn; lia).
    rewrite map_nth. f_equal.
    rewrite nth_firstn.
    destruct (Nat.ltb_spec i (Z.to_nat (gemv_ly TransA M N))); [reflexivity|lia].
  - intros i Hi.
    rewrite app_nth2 by (rewrite !length_map, length_seq, Lt; lia).
    rewrite !length_map, length_seq, Lt, nth_skipn.
    f_equal. lia.
Qed.

(** y = A x for the 2 x 2 identity matrix: y becomes x, in half. *)
Lemma gemv_half_converts_computes_converts_back_witness :
  exists y2 : list half,
    caffe_cpu_gemv_half ref_sgemv CblasNoTrans 2 2 f32_one
      [S754_finite false 1024 (-10); S754_zero false;
       S754_zero false; S754_finite false 1024 (-10)]
      [S754_finite false 1024 (-9); S754_finite false 1536 (-9)]
      fzero [S754_zero false; S754_zero false; S754_finite false 1024 (-10)]
    = Ok (y2, gemv_events CblasNoTrans 2 2 f32_one fzero
                [S754_finite false 1024 (-10); S754_zero false;
                 S754_zero false; S754_finite false 1024 (-10)]
                [S754_finite false 1024 (-9); S754_finite false 1536 (-9)]
                [S754_zero false; S754_zero false;
                 S754_finite false 1024 (-10)])
    /\ length y2 = 3%nat.
Proof.
  destruct (gemv_half_converts_computes_converts_back CblasNoTrans 2 2
              f32_one fzero
              [S754_finite false 1024 (-10); S754_zero false;
               S754_zero false; S754_finite false 1024 (-10)]
              [S754_finite false 1024 (-9); S754_finite false 1536 (-9)]
              [S754_zero false; S754_zero false; S754_finite false 1024 (-10)])
    as (_ & _ & y2 & H & L & _);
    try (vm_compute; first [reflexivity | discriminate]).
  exists y2. split; [exact H | exact L].
Defined.

(** ** caffe_rng_bernoulli *)

Lemma bernoulli_loop_spec (flips : nat -> bool) :
  forall (todo k : nat) (buf : list Z) (drawn : nat),
    (k + todo <= length buf)%nat ->
    bernoulli_loop flips todo (Z.of_nat k) buf drawn
    = (Some (firstn k buf
             ++ map (fun j => int_of_bool (flips (drawn + j)%nat)) (seq 0 todo)
             ++ skipn (k + todo) buf),
       (drawn + todo)%nat, Ok tt).
Proof.
  induction todo as [|todo IH]; intros k buf drawn H.
  - cbn [bernoulli_loop seq map app].
    rewrite !Nat.add_0_r, firstn_skipn. reflexivity.
  - cbn [bernoulli_loop]. rewrite buf_write_ok by lia.
    set (v := int_of_bool (flips drawn)).
    set (buf' := firstn k buf ++ v :: skipn (S k) buf).
    assert (Lf : length (firstn k buf) = k) by (rewrite length_firstn; lia).
    assert (E : buf' = (firstn k buf ++ [v]) ++ skipn (S k) buf)
      by (subst buf'; rewrite <- app_assoc; reflexivity).
    assert (Lp : length (firstn k buf ++ [v]) = S k)
      by (rewrite length_app, Lf; cbn; lia).
    assert (F1 : firstn (S k) buf' = firstn k buf ++ [v]).
    { rewrite E, <- Lp, firstn_app, firstn_all, Nat.sub_diag.
      cbn [firstn]. apply app_nil_r. }
    assert (F2 : skipn (S k + todo) buf' = skipn (k + S todo) buf).
    { rewrite E, Nat.add_comm, <- skipn_skipn, <- Lp, skipn_app, skipn_all,
        Nat.sub_diag.
      cbn [app skipn]. rewrite skipn_skipn. f_equal. lia. }
    replace (Z.of_nat k + 1) with (Z.of_nat (S k)) by lia.
    rewrite IH.
    2:{ subst buf'. rewrite length_app, Lf. cbn [length].
        rewrite length_skipn. lia. }
    rewrite F1, F2.
    replace (S drawn + todo)%nat with (drawn + S todo)%nat by lia.
    do 3 f_equal.
    rewrite <- app_assoc. f_equal. cbn [seq map app].
    rewrite Nat.add_0_r. fold v. do 2 f_equal.
    rewrite <- seq_shift, map_map.
    apply map_ext. intros j. do 2 f_equal. lia.
Qed.

Lemma bernoulli_loop_run (flips : nat -> bool) (n : Z) (buf : list Z)
    (drawn : nat) :
  0 <= n <= vsize buf ->
  bernoulli_loop flips (Z.to_nat n) 0 buf drawn
  = (Some (map (fun j => int_of_bool (flips (drawn + j)%nat))
               (seq 0 (Z.to_nat n))
           ++ skipn (Z.to_nat n) buf),
     (drawn + Z.to_nat n)%nat, Ok tt).
Proof.
  intros H. unfold vsize in H. change 0 with (Z.of_nat 0).
  rewrite bernoulli_loop_spec by lia. reflexivity.
Qed.

(** X14.  With n >= 0 and a buffer, caffe_rng_bernoulli with a probability
    that is NaN, below 0 or above 1 fails on one of its two checks of p, in
    either overload: the buffer is as it was and no value has been drawn;
    p is not clamped into [0, 1]. *)
Theorem bernoulli_rejects_p_outside_of_the_unit_interval (f : format)
    (flips : bernoulli_generator) (n : Z) (p : spec_float) (buf : list Z)
    (drawn : nat) :
  0 <= n ->
  p = S754_nan \/ flt p fzero = true \/ flt (fone f) p = true ->
  exists what : string,
    (what = "Check failed: p >= 0"%string \/ what = "Check failed: p <= 1"%string)
    /\ caffe_rng_bernoulli f flips n p (Some buf) drawn
       = (Some buf, drawn, CheckFailed what)
    /\ caffe_rng_bernoulli_unsigned f flips n p (Some buf) drawn
       = (Some buf, drawn, CheckFailed what).
Proof.
  intros Hn Hp.
  assert (B : fge p fzero = false \/ fle p (fone f) = false).
  { destruct Hp as [->|[Hp|Hp]].
    - left. reflexivity.
    - left. unfold fge. change SFleb with fle. apply flt_not_fle. exact Hp.
    - right. apply flt_not_fle. exact Hp. }
  unfold caffe_rng_bernoulli_unsigned, caffe_rng_bernoulli.
  destruct (Z.leb_spec 0 n); [|lia]. cbn [negb].
  destruct (fge p fzero) eqn:E1; cbn [negb].
  - destruct B as [B|B]; [discriminate|]. rewrite B. cbn [negb].
    eexists. split; [right; reflexivity|]. split; reflexivity.
  - eexists. split; [left; reflexivity|]. split; reflexivity.
Qed.

(** p = 1.5 in float. *)
Lemma bernoulli_rejects_p_outside_of_the_unit_interval_witness :
  exists what : string,
    (what = "Check failed: p >= 0"%string \/ what = "Check failed: p <= 1"%string)
    /\ caffe_rng_bernoulli binary32 (fun _ _ => true) 2
         (S754_finite false 12582912 (-23)) (Some [7; 7]) 3
       = (Some [7; 7], 3%nat, CheckFailed what)
    /\ caffe_rng_bernoulli_unsigned binary32 (fun _ _ => true) 2
         (S754_finite false 12582912 (-23)) (Some [7; 7]) 3
       = (Some [7; 7], 3%nat, CheckFailed what).
Proof.
  apply (bernoulli_rejects_p_outside_of_the_unit_interval binary32
           (fun _ _ => true) 2 (S754_finite false 12582912 (-23)) [7; 7] 3).
  - vm_compute; discriminate.
  - right; right; vm_compute; reflexivity.
Defined.

(** X15.  With n >= 0, a buffer with room for n elements and 0 <= p <= 1
    (both bounds included) the four checks pass and either overload of
    caffe_rng_bernoulli writes, for i < n, the i-th value drawn as 0 or 1
    into r[i]; the elements from n on are kept and n values have been
    drawn. *)
Theorem bernoulli_writes_zeros_and_ones (f : format)
    (flips : bernoulli_generator) (n : Z) (p : spec_float) (buf : list Z)
    (drawn : nat) :
  0 <= n <= vsize buf ->
  fge p fzero = true -> fle p (fone f) = true ->
  exists r' : list Z,
    caffe_rng_bernoulli f flips n p (Some buf) drawn
    = (Some r', (drawn + Z.to_nat n)%nat, Ok tt)
    /\ caffe_rng_bernoulli_unsigned f flips n p (Some buf) drawn
       = (Some r', (drawn + Z.to_nat n)%nat, Ok tt)
    /\ length r' = length buf
    /\ (forall i : nat, (i < Z.to_nat n)%nat ->
        nth i r' 0 = int_of_bool (flips p (drawn + i)%nat)
        /\ (nth i r' 0 = 0 \/ nth i r' 0 = 1))
    /\ (forall i : nat, (Z.to_nat n <= i)%nat -> nth i r' 0 = nth i buf 0).
Proof.
  intros Hn H0 H1.
  exists (map (fun j => int_of_bool (flips p (drawn + j)%nat))
              (seq 0 (Z.to_nat n))
          ++ skipn (Z.to_nat n) buf).
  assert (R : caffe_rng_bernoulli f flips n p (Some buf) drawn
              = (Some (map (fun j => int_of_bool (flips p (drawn + j)%nat))
                           (seq 0 (Z.to_nat n))
                       ++ skipn (Z.to_nat n) buf),
                 (drawn + Z.to_nat n)%nat, Ok tt)).
  { unfold caffe_rng_bernoulli.
    destruct (Z.leb_spec 0 n); [|lia]. rewrite H0, H1. cbn [negb].
    apply bernoulli_loop_run. exact Hn. }
  unfold vsize in Hn.
  split; [exact R|]. split; [exact R|].
  split; [|split].
  - rewrite length_app, length_map, length_seq, length_skipn. lia.
  - intros i Hi.
    rewrite app_nth1 by (rewrite length_map, length_seq; lia).
    rewrite (nth_indep _ 0 (int_of_bool (flips p (drawn + 0)%nat)))
      by (rewrite length_map, length_seq; lia).
    rewrite (map_nth (fun j => int_of_bool (flips p (drawn + j)%nat))).
    rewrite seq_nth by lia. cbn [Nat.add].
    split; [reflexivity|].
    destruct (flips p (drawn + i)%nat); [right | left]; reflexivity.
  - intros i Hi.
    rewrite app_nth2 by (rewrite length_map, length_seq; lia).
    rewrite length_map, length_seq, nth_skipn. f_equal. lia.
Qed.

(** p = 1, the upper bound itself, in double. *)
Lemma bernoulli_writes_zeros_and_ones_witness :
  exists r' : list Z,
    caffe_rng_bernoulli binary64 (fun _ k => Nat.even k) 2
      (S754_finite false 4503599627370496 (-52)) (Some [7; 7; 7]) 3
    = (Some r', (3 + Z.to_nat 2)%nat, Ok tt)
    /\ length r' = 3%nat.
Proof.
  destruct (bernoulli_writes_zeros_and_ones binary64 (fun _ k => Nat.even k) 2
              (S754_finite false 4503599627370496 (-52)) [7; 7; 7] 3)
    as (r' & H & _ & L & _).
  - vm_compute; split; discriminate.
  - vm_compute; reflexivity.
  - vm_compute; reflexivity.
  - exists r'. split; [exact H | exact L].
Defined.

(** ** The checks of caffe_rng_uniform *)

Lemma fle_nan_l (x : spec_float) : fle S754_nan x = false.
Proof. reflexivity. Qed.

Lemma fle_nan_r (x : spec_float) : fle x S754_nan = false.
Proof. destruct x as [s|s| |s m e]; try destruct s; reflexivity. Qed.

(** X16.  With n >= 0 and a buffer, caffe_rng_uniform with a > b, or with
    a bound that is NaN, fails on CHECK_LE(a, b): the buffer is as it was,
    no value has been drawn, and caffe_nextafter is not reached, so no
    exception of the library can leave the call. *)
Theorem uniform_rejects_unordered_bounds (f : format)
    (get : spec_float -> spec_float) (draws : variate_generator) (n : Z)
    (a b : spec_float) (buf : list spec_float) (drawn : nat) :
  0 <= n ->
  a = S754_nan \/ b = S754_nan \/ flt b a = true ->
  caffe_rng_uniform f get draws n a b (Some buf) drawn
  = (Some buf, drawn, CheckFailed "Check failed: a <= b").
Proof.
  intros Hn H.
  assert (E : fle a b = false).
  { destruct H as [->|[->|H]].
    - apply fle_nan_l.
    - apply fle_nan_r.
    - apply flt_not_fle. exact H. }
  unfold caffe_rng_uniform.
  destruct (Z.leb_spec 0 n); [|lia]. cbn [negb].
  rewrite E. reflexivity.
Qed.

(** a = 1, b = NaN in half. *)
Lemma uniform_rejects_unordered_bounds_witness :
  caffe_rng_uniform_half (fun _ _ _ => fzero) 1 f32_one S754_nan
    (Some [fzero]) 0
  = (Some [fzero], 0%nat, CheckFailed "Check failed: a <= b").
Proof.
  apply (uniform_rejects_unordered_bounds binary32 Get_half_of_float
           (fun _ _ _ => fzero) 1 f32_one S754_nan [fzero] 0).
  - vm_compute; discriminate.
  - right; left; reflexivity.
Defined.

(** ** caffe_nextafter on every value *)

Section NextafterTotal.
Variable f : format.
Hypothesis Hf : format_ok f.

Lemma fmax_valid : valid f (fmax f) /\ valid f (SFopp (fmax f)).
Proof.
rewrite (fmax_eq f Hf). cbn [SFopp negb].
pose proof (pow_prec_pos f Hf) as [P1 P2]. destruct Hf as [H1 H2].
split; apply (valid_of_bounds f Hf); rewrite ?Z2Pos.id by lia;
  unfold fmt_emin, SpecFloat.emin; lia.
Qed.

Lemma valid_le_fmax (x : spec_float) :
valid f x -> is_finite x = true -> fle x (fmax f) = true.
Proof.
intros V Fx. rewrite (fmax_eq f Hf).
pose proof (pow_prec_pos f Hf) as [P1 P2].
destruct x as [s|s| |[|] m e]; try discriminate; try reflexivity.
destruct (valid_mantissa f _ _ _ V) as (Hm & He & Hn).
apply fle_pos. rewrite Z2Pos.id by lia. lia.
Qed.

Lemma valid_below_or_at_fmax (x : spec_float) :
valid f x -> is_finite x = true ->
flt x (fmax f) = true \/ x = fmax f.
Proof.
intros V Fx. rewrite (fmax_eq f Hf).
pose proof (pow_prec_pos f Hf) as [P1 P2].
destruct x as [s|s| |[|] m e]; try discriminate;
  try (left; reflexivity).
destruct (valid_mantissa f _ _ _ V) as (Hm & He & Hn).
destruct (Z.eq_dec e (emax f - prec f)) as [Ee|Ee];
  [destruct (Z.eq_dec (Zpos m) (2 ^ prec f - 1)) as [Em|Em]|].
- right. subst e. f_equal. apply Pos2Z.inj. rewrite Z2Pos.id by lia. exact Em.
- left. apply flt_pos. rewrite Z2Pos.id by lia. lia.
- left. apply flt_pos. lia.
Qed.

Lemma flt_irrefl_finite (x : spec_float) : flt x x = false.
Proof.
unfold flt, SFltb.
destruct x as [s|s| |s m e]; try destruct s; try reflexivity;
  cbn [SFcompare]; rewrite Z.compare_refl, Pos.compare_cont_refl; reflexivity.
Qed.

Lemma feq_refl_finite (s : bool) (m : positive) (e : Z) :
feq (S754_finite s m e) (S754_finite s m e) = true.
Proof. apply feq_finite. repeat split. Qed.

Lemma caffe_nextafter_neg_inf :
caffe_nextafter f (S754_infinity true) = Ok (SFopp (fmax f)).
Proof.
unfold caffe_nextafter, boost_nextafter.
assert (E : flt (S754_infinity true) (fmax f) = true)
  by (rewrite (fmax_eq f Hf); reflexivity).
rewrite E. reflexivity.
Qed.

Lemma caffe_nextafter_pos_inf :
caffe_nextafter f (S754_infinity false) = Ok (fmax f).
Proof.
unfold caffe_nextafter, boost_nextafter.
assert (E1 : flt (S754_infinity false) (fmax f) = false)
  by (rewrite (fmax_eq f Hf); reflexivity).
assert (E2 : feq (S754_infinity false) (fmax f) = false)
  by (rewrite (fmax_eq f Hf); reflexivity).
rewrite E1, E2. reflexivity.
Qed.

Lemma caffe_nextafter_total (b : spec_float) :
valid f b -> b <> S754_nan ->
exists hi : spec_float,
  caffe_nextafter f b = Ok hi
  /\ valid f hi /\ is_finite hi = true /\ fle hi (fmax f) = true.
Proof.
intros V Nb. destruct fmax_valid as [Vmax Vmin].
assert (Fmax : is_finite (fmax f) = true) by (rewrite (fmax_eq f Hf); reflexivity).
assert (Fin : forall x, valid f x -> is_finite x = true ->
          flt x (fmax f) = true ->
          exists hi, caffe_nextafter f x = Ok hi
            /\ valid f hi /\ is_finite hi = true /\ fle hi (fmax f) = true).
{ intros x Vx Fx Lx.
  destruct (caffe_nextafter_below_max f Hf x Vx Fx Lx) as (hi & Hc & Hn).
  exists hi. split; [exact Hc|].
  pose proof (next_valid f Hf x hi Vx Fx Hn) as Vh.
  pose proof (next_finite f Hf x hi Vx Fx Hn) as Fh.
  repeat split; try assumption. apply valid_le_fmax; assumption. }
destruct (is_finite b) eqn:Fb.
- destruct (valid_below_or_at_fmax b V Fb) as [L|E]; [exact (Fin b V Fb L)|].
  exists b. unfold caffe_nextafter, boost_nextafter. rewrite E.
  rewrite flt_irrefl_finite. rewrite (fmax_eq f Hf), feq_refl_finite.
  rewrite <- (fmax_eq f Hf).
  repeat split; try assumption. apply valid_le_fmax; assumption.
- destruct b as [s|[|]| |s m e]; try discriminate; try contradiction.
  + exists (SFopp (fmax f)).
    split; [|split; [exact Vmin|]].
    * exact caffe_nextafter_neg_inf.
    * rewrite (fmax_eq f Hf). split; reflexivity.
  + exists (fmax f).
    split; [|split; [exact Vmax|split; [exact Fmax|]]].
    * exact caffe_nextafter_pos_inf.
    * apply valid_le_fmax; assumption.
Qed.
End NextafterTotal.

(** X17.  caffe_nextafter(b) is a finite value of the format, at most the
    largest finite one, for every value b of the format that is not NaN,
    the two infinities included (+inf gives the largest finite value, -inf
    its opposite); on NaN the library throws std::domain_error. *)
Theorem caffe_nextafter_is_finite_unless_nan (f : format) (b : spec_float) :
  format_ok f -> valid f b ->
  (b <> S754_nan ->
   exists hi : spec_float,
     caffe_nextafter f b = Ok hi
     /\ valid f hi /\ is_finite hi = true /\ fle hi (fmax f) = true)
  /\ caffe_nextafter f (S754_infinity false) = Ok (fmax f)
  /\ caffe_nextafter f (S754_infinity true) = Ok (SFopp (fmax f))
  /\ caffe_nextafter f S754_nan = Thrown "std::domain_error".
Proof.
  intros Hf V. split; [|split; [|split]].
  - intros Nb. exact (caffe_nextafter_total f Hf b V Nb).
  - exact (caffe_nextafter_pos_inf f Hf).
  - exact (caffe_nextafter_neg_inf f Hf).
  - reflexivity.
Qed.

(** b = +inf in float. *)
Lemma caffe_nextafter_is_finite_unless_nan_witness :
  caffe_nextafter binary32 (S754_infinity false) = Ok (fmax binary32).
Proof.
  apply (caffe_nextafter_is_finite_unless_nan binary32 (S754_infinity false));
    [vm_compute; split; reflexivity | reflexivity].
Defined.



(** ** caffe_copy between two buffers *)

Lemma copy_size_exact (size N : Z) :
  0 <= size -> 0 <= N <= INT_MAX -> size * N < 2 ^ 64 ->
  size_mul size (to_size_t N) = size * N.
Proof.
  intros Hs HN Hb. unfold size_mul, to_size_t, INT_MAX in *.
  rewrite (Z.mod_small N) by lia.
  apply Z.mod_small. nia.
Qed.

Lemma copy_bytes_dest (h : Z -> option byte) (dst src n k : Z) :
  0 <= k < n -> copy_bytes h dst src n (dst + k) = h (src + k).
Proof.
  intros Hk. unfold copy_bytes.
  destruct (Z.leb_spec dst (dst + k)); [|lia].
  destruct (Z.ltb_spec (dst + k) (dst + n)); [|lia].
  cbn [andb]. f_equal. lia.
Qed.

Lemma copy_bytes_elsewhere (h : Z -> option byte) (dst src n p : Z) :
  ~ (dst <= p < dst + n) -> copy_bytes h dst src n p = h p.
Proof.
  intros Hp. unfold copy_bytes.
  destruct (Z.leb_spec dst p); destruct (Z.ltb_spec p (dst + n));
    cbn [andb]; try reflexivity; lia.
Qed.

(** X19.  caffe_copy between two distinct buffers of N elements that are
    mapped and do not overlap reads the mode once and issues one copy of
    sizeof(Dtype) * N bytes, memcpy in CPU mode and cudaMemcpy in GPU mode
    of a build with CUDA: afterwards the bytes of Y are those X had, every
    other byte and the mode are as before.  In GPU mode a build without
    CUDA fails with a fatal error without copying. *)
Theorem copy_between_distinct_buffers (cpu_only : bool) (size N X Y : Z)
    (w : world) :
  X <> Y -> 0 <= size -> 0 <= N <= INT_MAX -> size * N < 2 ^ 64 ->
  mapped (heap w) X (size * N) = true ->
  mapped (heap w) Y (size * N) = true ->
  Y + size * N <= X \/ X + size * N <= Y ->
  (mode w = GPU -> cpu_only = true ->
   caffe_copy cpu_only size N X Y w
   = CheckFailed "Cannot use GPU in CPU-only Caffe: check mode.")
  /\ (mode w = CPU \/ cpu_only = false ->
      exists w' : world,
        caffe_copy cpu_only size N X Y w = Ok w'
        /\ (forall k : Z, 0 <= k < size * N ->
            heap w' (Y + k) = heap w (X + k))
        /\ (forall p : Z, ~ (Y <= p < Y + size * N) -> heap w' p = heap w p)
        /\ mode w' = mode w
        /\ issued w'
           = issued w
             ++ [EvMode;
                 match mode w with
                 | CPU => EvMemcpy Y X (size * N)
                 | GPU => EvCudaMemcpy Y X (size * N)
                 end]).
Proof.
  intros HXY Hs HN Hb MX MY Hov.
  unfold caffe_copy.
  destruct (Z.eqb_spec X Y); [contradiction|]. cbn [negb Caffe_mode].
  rewrite (copy_size_exact size N Hs HN Hb).
  split.
  - intros -> ->. reflexivity.
  - intros Hm.
    assert (Sep : (size * N =? 0) || (Y + size * N <=? X)
                  || (X + size * N <=? Y) = true).
    { destruct Hov as [H|H].
      - apply Z.leb_le in H. rewrite H. rewrite orb_true_r. reflexivity.
      - apply Z.leb_le in H. rewrite H. apply orb_true_r. }
    destruct (mode w) eqn:Em.
    + unfold memcpy. cbn [heap mode issued].
      rewrite MX, MY, Sep. cbn [andb].
      eexists. split; [reflexivity|]. cbn [heap mode issued].
      split; [|split; [|split]].
      * intros k Hk. apply copy_bytes_dest. exact Hk.
      * intros p Hp. apply copy_bytes_elsewhere. exact Hp.
      * reflexivity.
      * rewrite <- app_assoc. reflexivity.
    + destruct Hm as [Hm| ->]; [discriminate|].
      unfold cudaMemcpy. cbn [heap mode issued].
      rewrite MX, MY. cbn [andb].
      eexists. split; [reflexivity|]. cbn [heap mode issued].
      split; [|split; [|split]].
      * intros k Hk. apply copy_bytes_dest. exact Hk.
      * intros p Hp. apply copy_bytes_elsewhere. exact Hp.
      * reflexivity.
      * rewrite <- app_assoc. reflexivity.
Qed.

(** Two ints at address 0 copied to address 8, in CPU mode. *)
Lemma copy_between_distinct_buffers_witness :
  exists w' : world,
    caffe_copy true 4 2 0 8
      (mk_world (fun p => if (0 <=? p) && (p <? 16)
                          then Some (byte.of_Z p) else None) CPU [])
    = Ok w'
    /\ heap w' 9 = Some Byte.x01
    /\ issued w' = [EvMode; EvMemcpy 8 0 8].
Proof.
  destruct (copy_between_distinct_buffers true 4 2 0 8
              (mk_world (fun p => if (0 <=? p) && (p <? 16)
                                  then Some (byte.of_Z p) else None) CPU []))
    as (_ & H); try (vm_compute; first [reflexivity | discriminate]).
  - vm_compute; split; discriminate.
  - right; vm_compute; discriminate.
  - destruct H as (w' & R & Hd & _ & _ & Hi); [left; reflexivity|].
    exists w'. split; [exact R|]. split; [|exact Hi].
    change 9 with (8 + 1).
    rewrite (Hd 1) by (vm_compute; split; [discriminate | reflexivity]).
    reflexivity.
Defined.

(** ** caffe_set with a non-zero alpha *)

Section BitPattern.
Variable f : format.
Hypothesis Hf : format_ieee f.

Lemma field_widths :
1 <= fbits f /\ 1 <= ebits f
/\ 2 ^ (width f - 1) = 2 ^ ebits f * 2 ^ fbits f
/\ 2 ^ ebits f = 2 * emax f.
Proof.
destruct Hf as [[H1 H2] H3]. unfold width, fbits in *.
assert (E1 : 1 <= ebits f).
{ unfold ebits. pose proof (Z.log2_nonneg (emax f)). lia. }
repeat split; try lia.
- replace (1 + ebits f + (prec f - 1) - 1) with (ebits f + (prec f - 1)) by lia.
  apply Z.pow_add_r; lia.
- rewrite H3. replace (ebits f) with (Z.succ (ebits f - 1)) at 1 by lia.
  apply Z.pow_succ_r. lia.
Qed.

(** The three fields are read back from the pattern they were put into. *)
Lemma bits_fields_read (s : bool) (E F : Z) :
0 <= F < 2 ^ fbits f -> 0 <= E < 2 ^ ebits f ->
0 <= bits_fields f s E F < 2 ^ width f
/\ bits_fields f s E F mod 2 ^ fbits f = F
/\ (bits_fields f s E F / 2 ^ fbits f) mod 2 ^ ebits f = E
/\ Z.testbit (bits_fields f s E F) (width f - 1) = s.
Proof.
intros HF HE. destruct field_widths as (W1 & W2 & W3 & W4).
assert (Pf : 0 < 2 ^ fbits f) by (apply Z.pow_pos_nonneg; lia).
assert (Pe : 0 < 2 ^ ebits f) by (apply Z.pow_pos_nonneg; lia).
assert (Ww : 2 ^ width f = 2 * 2 ^ (width f - 1)).
{ replace (width f) with (Z.succ (width f - 1)) at 1 by lia.
  apply Z.pow_succ_r. unfold width. lia. }
set (S := if s then 1 else 0).
assert (HS : 0 <= S <= 1) by (subst S; destruct s; lia).
assert (Ez : bits_fields f s E F
             = (S * 2 ^ ebits f + E) * 2 ^ fbits f + F).
{ unfold bits_fields. rewrite W3. subst S. destruct s; ring. }
assert (Ed : bits_fields f s E F / 2 ^ fbits f = S * 2 ^ ebits f + E).
{ rewrite Ez. symmetry. apply Z.div_unique with F; lia. }
assert (Eh : bits_fields f s E F / 2 ^ (width f - 1) = S).
{ rewrite Ez, W3. symmetry.
  apply Z.div_unique with (E * 2 ^ fbits f + F); [nia | ring]. }
split; [|split; [|split]].
- rewrite Ez, Ww, W3. nia.
- rewrite Ez. symmetry. apply Z.mod_unique with (S * 2 ^ ebits f + E); lia.
- rewrite Ed. symmetry. apply Z.mod_unique with S; lia.
- rewrite Z.testbit_odd, Z.shiftr_div_pow2 by (unfold width; lia).
  rewrite Eh. subst S. destruct s; reflexivity.
Qed.

(** A value of the format is the value its bit pattern denotes, and the
  pattern fits the width of the format. *)
Lemma of_bits_bits_of (x : spec_float) :
valid f x ->
0 <= bits_of f x < 2 ^ width f /\ of_bits f (bits_of f x) = x.
Proof.
intros V. destruct field_widths as (W1 & W2 & W3 & W4).
destruct Hf as [[H1 H2] H3].
assert (Pf : 2 <= 2 ^ fbits f).
{ change 2 with (2 ^ 1) at 1. apply Z.pow_le_mono_r; lia. }
assert (Pe : 2 <= 2 ^ ebits f).
{ change 2 with (2 ^ 1) at 1. apply Z.pow_le_mono_r; lia. }
assert (Ph : 0 < 2 ^ (fbits f - 1) /\ 2 ^ fbits f = 2 * 2 ^ (fbits f - 1)).
{ split; [apply Z.pow_pos_nonneg; lia|].
  replace (fbits f) with (Z.succ (fbits f - 1)) at 1 by lia.
  apply Z.pow_succ_r. lia. }
destruct x as [s|s| |s m e]; cbn [bits_of].
- destruct (bits_fields_read s 0 0) as (R & RF & RE & RS); [lia | lia |].
  split; [exact R|]. unfold of_bits. rewrite RF, RE, RS. reflexivity.
- destruct (bits_fields_read s (2 ^ ebits f - 1) 0) as (R & RF & RE & RS);
    [lia | lia |].
  split; [exact R|]. unfold of_bits. rewrite RF, RE, RS.
  destruct (Z.eqb_spec (2 ^ ebits f - 1) 0); [lia|].
  rewrite Z.eqb_refl. reflexivity.
- destruct (bits_fields_read false (2 ^ ebits f - 1) (2 ^ (fbits f - 1)))
    as (R & RF & RE & RS); [lia | lia |].
  split; [exact R|]. unfold of_bits. rewrite RF, RE, RS.
  destruct (Z.eqb_spec (2 ^ ebits f - 1) 0); [lia|].
  rewrite Z.eqb_refl.
  destruct (Z.eqb_spec (2 ^ (fbits f - 1)) 0); [lia|]. reflexivity.
- destruct (valid_finite_inv f s m e V) as (D & Ee & Nn).
  pose proof (digits_bounds m) as [Dlo Dhi].
  assert (Efb : fbits f = prec f - 1) by reflexivity.
  assert (Emin : fmt_emin f = 3 - emax f - prec f) by reflexivity.
  destruct (Z.eqb_spec (Zpos (digits2_pos m)) (prec f)) as [Ed|Ed].
  + rewrite Ed in Dlo, Dhi. rewrite <- Efb in Dlo.
    assert (Hp : 2 ^ prec f = 2 * 2 ^ fbits f).
    { replace (prec f) with (Z.succ (fbits f)) at 1 by lia.
      apply Z.pow_succ_r. lia. }
    destruct (bits_fields_read s (e - fmt_emin f + 1)
                (Zpos m - 2 ^ fbits f)) as (R & RF & RE & RS);
      [lia | lia |].
    split; [exact R|]. unfold of_bits.
    rewrite RF, RE, RS.
    destruct (Z.eqb_spec (e - fmt_emin f + 1) 0); [lia|].
    destruct (Z.eqb_spec (e - fmt_emin f + 1) (2 ^ ebits f - 1)); [lia|].
    replace (Zpos m - 2 ^ fbits f + 2 ^ fbits f) with (Zpos m) by lia.
    f_equal. lia.
  + assert (Em : e = fmt_emin f) by lia.
    assert (Hm : Zpos m < 2 ^ fbits f).
    { assert (2 ^ Zpos (digits2_pos m) <= 2 ^ fbits f)
        by (apply Z.pow_le_mono_r; lia). lia. }
    destruct (bits_fields_read s 0 (Zpos m)) as (R & RF & RE & RS);
      [lia | lia |].
    split; [exact R|]. unfold of_bits.
    rewrite RF, RE, RS. cbn [Z.eqb]. rewrite Em. reflexivity.
Qed.
End BitPattern.

Section SetGeneralPath.
Context {D M : Type} (T : TypePair D M).

Lemma caffe_set_general_path (N : Z) (alpha : M) (Y : list byte) :
@eq_scalar D M T alpha (@literal_zero D M T) = false ->
(Z.to_nat N * (@sizeof D M T) <= length Y)%nat ->
@of_repr D M T (@repr D M T (@Get D M T alpha) mod 2 ^ (Z.of_nat (@sizeof D M T) * 8))
= @Get D M T alpha ->
exists Y' : list byte,
  caffe_set T N alpha Y = Ok Y'
  /\ length Y' = length Y
  /\ (forall i : Z, 0 <= i < N -> load_elem T Y' i = Ok (@Get D M T alpha))
  /\ skipn (Z.to_nat N * (@sizeof D M T)) Y' = skipn (Z.to_nat N * (@sizeof D M T)) Y.
Proof.
intros Ha HY Hrt.
set (n := Z.to_nat N) in *.
set (bs := elem_bytes T (@Get D M T alpha)).
assert (Lb : length bs = (@sizeof D M T)) by apply length_le_split.
assert (Lc : length (concat (repeat bs n)) = (n * (@sizeof D M T))%nat).
{ clear -Lb. induction n as [|n IH]; [reflexivity|].
  cbn [repeat concat]. rewrite length_app, IH, Lb. lia. }
exists (concat (repeat bs n) ++ skipn (n * (@sizeof D M T)) Y).
split; [|split; [|split]].
- unfold caffe_set. rewrite Ha. fold n. change 0 with (Z.of_nat 0).
  rewrite set_loop_spec by (cbn [Nat.add]; lia). reflexivity.
- rewrite length_app, Lc, length_skipn. lia.
- intros i Hi.
  assert (Hk : (Z.to_nat i < n)%nat) by (subst n; lia).
  rewrite <- (Z2Nat.id i) by lia.
  rewrite load_elem_ok.
  2:{ rewrite length_app, Lc, length_skipn. nia. }
  replace (Z.to_nat i * (@sizeof D M T))%nat with (Z.to_nat i * length bs)%nat
    by (rewrite Lb; reflexivity).
  rewrite skipn_concat_repeat by lia.
  destruct (n - Z.to_nat i)%nat as [|m] eqn:Em; [lia|].
  cbn [repeat concat].
  rewrite <- app_assoc, firstn_app, Lb, Nat.sub_diag.
  rewrite firstn_all2 by lia. cbn [firstn]. rewrite app_nil_r.
  subst bs. unfold elem_bytes. rewrite le_combine_split, Hrt. reflexivity.
- rewrite skipn_app, Lc, Nat.sub_diag.
  rewrite skipn_all2 by lia. reflexivity.
Qed.
End SetGeneralPath.

Lemma binary32_ieee : format_ieee binary32.
Proof. vm_compute. repeat split. Qed.

Lemma binary64_ieee : format_ieee binary64.
Proof. vm_compute. repeat split. Qed.

Lemma binary16_ieee : format_ieee binary16.
Proof. vm_compute. repeat split. Qed.

Lemma wrap_int_of_pattern (z : Z) :
  fits_int z -> wrap_int (z mod 2 ^ 32 mod 2 ^ 32) = z.
Proof.
  unfold fits_int, INT_MIN, INT_MAX, wrap_int. intros H.
  rewrite Z.mod_mod by lia.
  rewrite Zplus_mod_idemp_l.
  rewrite Z.mod_small by lia. lia.
Qed.

(** X20.  caffe_set with an alpha that does not compare equal to 0 takes
    the loop: when Y has room for N elements, each of the N elements reads
    back as Get<Dtype>(alpha), which is alpha itself for int, float and
    double, a NaN included, and the conversion of alpha for half; the bytes
    after the N elements are as they were. *)
Theorem set_stores_alpha_in_every_element (N : Z) (Y : list byte) :
  (forall alpha : Z,
      alpha <> 0 -> fits_int alpha ->
      (Z.to_nat N * 4 <= length Y)%nat ->
      exists Y' : list byte,
        caffe_set int_int N alpha Y = Ok Y'
        /\ length Y' = length Y
        /\ (forall i : Z, 0 <= i < N -> load_elem int_int Y' i = Ok alpha)
        /\ skipn (Z.to_nat N * 4) Y' = skipn (Z.to_nat N * 4) Y)
  /\ (forall alpha : float,
      feq alpha fzero = false -> valid binary32 alpha ->
      (Z.to_nat N * 4 <= length Y)%nat ->
      exists Y' : list byte,
        caffe_set float_float N alpha Y = Ok Y'
        /\ length Y' = length Y
        /\ (forall i : Z, 0 <= i < N -> load_elem float_float Y' i = Ok alpha)
        /\ skipn (Z.to_nat N * 4) Y' = skipn (Z.to_nat N * 4) Y)
  /\ (forall alpha : double,
      feq alpha fzero = false -> valid binary64 alpha ->
      (Z.to_nat N * 8 <= length Y)%nat ->
      exists Y' : list byte,
        caffe_set double_double N alpha Y = Ok Y'
        /\ length Y' = length Y
        /\ (forall i : Z, 0 <= i < N -> load_elem double_double Y' i = Ok alpha)
        /\ skipn (Z.to_nat N * 8) Y' = skipn (Z.to_nat N * 8) Y)
  /\ (forall alpha : float,
      feq alpha fzero = false -> valid binary16 (Get_half_of_float alpha) ->
      (Z.to_nat N * 2 <= length Y)%nat ->
      exists Y' : list byte,
        caffe_set half_float N alpha Y = Ok Y'
        /\ length Y' = length Y
        /\ (forall i : Z, 0 <= i < N ->
            load_elem half_float Y' i = Ok (Get_half_of_float alpha))
        /\ skipn (Z.to_nat N * 2) Y' = skipn (Z.to_nat N * 2) Y).
Proof.
  split; [|split; [|split]].
  - intros alpha Hz Hfit HY.
    apply (caffe_set_general_path int_int N alpha Y).
    + cbn [eq_scalar literal_zero int_int]. apply Z.eqb_neq. exact Hz.
    + exact HY.
    + cbn [of_repr repr Get sizeof int_int].
      change (Z.of_nat 4 * 8) with 32. apply wrap_int_of_pattern. exact Hfit.
  - intros alpha Hz V HY.
    apply (caffe_set_general_path float_float N alpha Y);
      [exact Hz | exact HY |].
    cbn [of_repr repr Get sizeof float_float]. unfold Get_same.
    destruct (of_bits_bits_of binary32 binary32_ieee alpha V) as [R E].
    rewrite Z.mod_small by exact R. exact E.
  - intros alpha Hz V HY.
    apply (caffe_set_general_path double_double N alpha Y);
      [exact Hz | exact HY |].
    cbn [of_repr repr Get sizeof double_double]. unfold Get_same.
    destruct (of_bits_bits_of binary64 binary64_ieee alpha V) as [R E].
    rewrite Z.mod_small by exact R. exact E.
  - intros alpha Hz V HY.
    apply (caffe_set_general_path half_float N alpha Y);
      [exact Hz | exact HY |].
    cbn [of_repr repr Get sizeof half_float].
    destruct (of_bits_bits_of binary16 binary16_ieee _ V) as [R E].
    rewrite Z.mod_small by exact R. exact E.
Qed.

(** alpha = -3 stored into two ints of a buffer of nine bytes. *)
Lemma set_stores_alpha_in_every_element_witness :
  exists Y' : list byte,
    caffe_set int_int 2 (-3) (repeat Byte.x11 9) = Ok Y'
    /\ length Y' = length (repeat Byte.x11 9)
    /\ (forall i : Z, 0 <= i < 2 -> load_elem int_int Y' i = Ok (-3))
    /\ skipn (Z.to_nat 2 * 4) Y' = skipn (Z.to_nat 2 * 4) (repeat Byte.x11 9).
Proof.
  apply (proj1 (set_stores_alpha_in_every_element 2 (repeat Byte.x11 9))).
  - discriminate.
  - vm_compute; split; discriminate.
  - vm_compute. repeat constructor.
Defined.

(** ** The order of the checks of the samplers *)

(** X21.  Every sampler checks the count first and the buffer second: a
    negative n fails on CHECK_GE(n, 0) even when r is null or the
    parameters of the distribution are not acceptable, and with n >= 0 a
    null r fails on CHECK(r) whatever the parameters are; in both cases
    nothing is drawn.  The parameters come last: a NaN sigma fails
    CHECK_GT(sigma, 0) of caffe_rng_gaussian. *)
Theorem samplers_check_the_count_then_the_buffer (f : format)
    (get : spec_float -> spec_float) (draws : variate_generator)
    (flips : bernoulli_generator) (n : Z) (a b p : spec_float)
    (drawn : nat) :
  (n < 0 ->
   (forall r : option (list spec_float),
       caffe_rng_uniform f get draws n a b r drawn
       = (r, drawn, CheckFailed "Check failed: n >= 0")
       /\ caffe_rng_gaussian get draws n a b r drawn
          = (r, drawn, CheckFailed "Check failed: n >= 0"))
   /\ (forall r : option (list Z),
       caffe_rng_bernoulli f flips n p r drawn
       = (r, drawn, CheckFailed "Check failed: n >= 0")
       /\ caffe_rng_bernoulli_unsigned f flips n p r drawn
          = (r, drawn, CheckFailed "Check failed: n >= 0")))
  /\ (0 <= n ->
      caffe_rng_uniform f get draws n a b None drawn
      = (None, drawn, CheckFailed "Check failed: r")
      /\ caffe_rng_gaussian get draws n a b None drawn
         = (None, drawn, CheckFailed "Check failed: r")
      /\ caffe_rng_bernoulli f flips n p None drawn
         = (None, drawn, CheckFailed "Check failed: r")
      /\ caffe_rng_bernoulli_unsigned f flips n p None drawn
         = (None, drawn, CheckFailed "Check failed: r")
      /\ forall buf : list spec_float,
         caffe_rng_gaussian get draws n a S754_nan (Some buf) drawn
         = (Some buf, drawn, CheckFailed "Check failed: sigma > 0")).
Proof.
  split; intros Hn.
  - split; intros r;
      unfold caffe_rng_uniform, caffe_rng_gaussian, caffe_rng_bernoulli,
        caffe_rng_bernoulli_unsigned;
      destruct (Z.leb_spec 0 n); try lia; split; reflexivity.
  - unfold caffe_rng_uniform, caffe_rng_gaussian, caffe_rng_bernoulli,
      caffe_rng_bernoulli_unsigned.
    destruct (Z.leb_spec 0 n); [|lia].
    repeat split; reflexivity.
Qed.

(** n = -1 with a null buffer and the bounds 1 > 0. *)
Lemma samplers_check_the_count_then_the_buffer_witness :
  caffe_rng_uniform binary32 Get_same (fun _ _ _ => fzero) (-1)
    f32_one fzero None 5
  = (None, 5%nat, CheckFailed "Check failed: n >= 0").
Proof.
  apply (proj1 (samplers_check_the_count_then_the_buffer binary32 Get_same
                  (fun _ _ _ => fzero) (fun _ _ => true) (-1)
                  f32_one fzero fzero 5)).
  reflexivity.
Defined.
